(** * Shape-equivalence-class analysis of numba/array_analysis.py

    A shallow embedding of the [ArrayAnalysis] pass: the tables of the
    analysis object become one record, every method becomes a function in
    a state-and-exception monad, Python dictionaries are finite maps and
    Python lists are lists. *)

From stdpp Require Import gmap strings list fin_maps pretty.
From Stdlib Require Import ZArith Lia.

Open Scope string_scope.
Open Scope list_scope.
Open Scope Z_scope.

(** ** The intermediate representation the pass reads *)

(** Static types of the type map; only the distinctions the pass tests by
    [isinstance] are kept. *)
Inductive ty :=
| TArray (ndim : nat)
| TInteger
| TUniTuple (count : nat)
| TOther.

#[local] Set Warnings "-register-all".

(** Python constants carried by [ir.Const]. *)
Inductive pyconst :=
| KInt (z : Z)
| KTuple (items : list pyconst)
| KOther (repr : string).

(** What a class-size list or a size-variable list can hold: an IR variable
    (by name) or a plain Python value such as the [1] of class 0 and the
    [-1] placeholders. *)
Inductive sizeval :=
| SVar (name : string)
| SConst (k : pyconst).

(** The value of an [ir.Global]: whether it is an instance of [numpy.ufunc]
    and its [__name__] attribute, when it has one. *)
Record glob := { g_is_ufunc : bool; g_name : option string }.

(** [ir.Expr], by its [op] tag.  Variables are represented by their names:
    scope and location are copied around by the pass and never inspected. *)
Inductive expr :=
| EGetattr (value attr : string)
| EBuildTuple (items : list string)
| EUnary (fn value : string)
| EBinop (fn lhs rhs : string)
| EInplaceBinop (fn immutable_fn lhs rhs : string)
| EArrayExpr (list_vars : list string)
| ECast (value : string)
| ECall (func : string) (args : list string)
| EStaticGetitem (value : string) (index : nat) (index_var : string)
| EOther (op : string).

Inductive node :=
| Arg (name : string)
| Var (name : string)
| Global (name : string) (value : glob)
| Const (value : pyconst)
| Expr (e : expr)
| OtherNode (kind : string).

Inductive inst :=
| Assign (value : node) (target : string)
| OtherInst (kind : string).

(** An element of the [args] list handed to [_analyze_np_call]: either an
    [ir.Var] or, for an array method call, the receiver's bare name (a
    [str], which has no [.name]). *)
Inductive callarg :=
| AVar (name : string)
| AStr (s : string).

(** Messages written by [print]. *)
Inductive diag :=
| IncompatibleShapes
| NoShapeExpr (e : expr)
| NoShapeNode (n : node)
| UnknownNumpyCall (call_name : string).

Inductive exn :=
| KeyError
| IndexError
| AssertionError
| AttributeError
| NameError
| ValueError.

#[global] Instance ty_eq_dec : EqDecision ty.
Proof. solve_decision. Defined.

(** ** The analysis object *)

Record state := mkState {
  typemap : gmap string ty;
  calltypes : list expr;
  next_eq_class : Z;
  array_shape_classes : gmap string (list Z);
  class_sizes : gmap Z (list sizeval);
  array_size_vars : gmap string (list sizeval);
  numpy_globals : list string;
  map_calls : list string;
  numpy_calls : gmap string string;
  array_attr_calls : gmap string (string * string);
  tuple_table : gmap string (list sizeval);
  unique_var_count : nat;
  printed : list diag
}.

(** [ArrayAnalysis.__init__]. *)
Definition init (tm : gmap string ty) (ct : list expr) (uniq : nat) : state :=
  {| typemap := tm;
     calltypes := ct;
     next_eq_class := 1;
     array_shape_classes := ∅;
     class_sizes := {[ 0 := [SConst (KInt 1)] ]};
     array_size_vars := ∅;
     numpy_globals := [];
     map_calls := [];
     numpy_calls := ∅;
     array_attr_calls := ∅;
     tuple_table := ∅;
     unique_var_count := uniq;
     printed := [] |}.

(** ** State and exception monad *)

Inductive result (A : Type) :=
| Ok (a : A) (s : state)
| Err (e : exn).
Arguments Ok {A} a s.
Arguments Err {A} e.

Definition M (A : Type) : Type := state → result A.

Definition ret {A} (a : A) : M A := λ s, Ok a s.
Definition raise {A} (e : exn) : M A := λ _, Err e.
Definition bind {A B} (m : M A) (k : A → M B) : M B :=
  λ s, match m s with
       | Ok a s' => k a s'
       | Err e => Err e
       end.
Definition get : M state := λ s, Ok s s.
Definition modify (f : state → state) : M unit := λ s, Ok tt (f s).

Notation "x <- m ;; k" := (bind m (λ x, k))
  (at level 100, m at next level, right associativity).
Notation "m >> k" := (bind m (λ _, k))
  (at level 100, right associativity).

Definition assert (b : bool) : M unit :=
  if b then ret tt else raise AssertionError.

Definition print (d : diag) : M unit :=
  modify (λ s, mkState (typemap s) (calltypes s) (next_eq_class s)
    (array_shape_classes s) (class_sizes s) (array_size_vars s)
    (numpy_globals s) (map_calls s) (numpy_calls s) (array_attr_calls s)
    (tuple_table s) (unique_var_count s) (printed s ++ [d])).

(** [d[k]] on a dictionary and [l[i]] on a list. *)
Definition dict_get {K} `{Countable K} {V} (d : gmap K V) (k : K) : M V :=
  match d !! k with
  | Some v => ret v
  | None => raise KeyError
  end.

Definition py_index {A} (l : list A) (i : Z) : M A :=
  let n := Z.of_nat (length l) in
  let j := if decide (i < 0) then i + n else i in
  if decide (0 ≤ j < n) then
    match l !! Z.to_nat j with
    | Some x => ret x
    | None => raise IndexError
    end
  else raise IndexError.

Fixpoint mapM {A B} (f : A → M B) (l : list A) : M (list B) :=
  match l with
  | [] => ret []
  | x :: l' => y <- f x ;; ys <- mapM f l' ;; ret (y :: ys)
  end.

(** Field updates. *)
Definition set_typemap (f : gmap string ty → gmap string ty) (s : state) :=
  mkState (f (typemap s)) (calltypes s) (next_eq_class s)
    (array_shape_classes s) (class_sizes s) (array_size_vars s)
    (numpy_globals s) (map_calls s) (numpy_calls s) (array_attr_calls s)
    (tuple_table s) (unique_var_count s) (printed s).
Definition set_calltypes (f : list expr → list expr) (s : state) :=
  mkState (typemap s) (f (calltypes s)) (next_eq_class s)
    (array_shape_classes s) (class_sizes s) (array_size_vars s)
    (numpy_globals s) (map_calls s) (numpy_calls s) (array_attr_calls s)
    (tuple_table s) (unique_var_count s) (printed s).
Definition set_next_eq_class (f : Z → Z) (s : state) :=
  mkState (typemap s) (calltypes s) (f (next_eq_class s))
    (array_shape_classes s) (class_sizes s) (array_size_vars s)
    (numpy_globals s) (map_calls s) (numpy_calls s) (array_attr_calls s)
    (tuple_table s) (unique_var_count s) (printed s).
Definition set_array_shape_classes
    (f : gmap string (list Z) → gmap string (list Z)) (s : state) :=
  mkState (typemap s) (calltypes s) (next_eq_class s)
    (f (array_shape_classes s)) (class_sizes s) (array_size_vars s)
    (numpy_globals s) (map_calls s) (numpy_calls s) (array_attr_calls s)
    (tuple_table s) (unique_var_count s) (printed s).
Definition set_class_sizes
    (f : gmap Z (list sizeval) → gmap Z (list sizeval)) (s : state) :=
  mkState (typemap s) (calltypes s) (next_eq_class s)
    (array_shape_classes s) (f (class_sizes s)) (array_size_vars s)
    (numpy_globals s) (map_calls s) (numpy_calls s) (array_attr_calls s)
    (tuple_table s) (unique_var_count s) (printed s).
Definition set_array_size_vars
    (f : gmap string (list sizeval) → gmap string (list sizeval)) (s : state) :=
  mkState (typemap s) (calltypes s) (next_eq_class s)
    (array_shape_classes s) (class_sizes s) (f (array_size_vars s))
    (numpy_globals s) (map_calls s) (numpy_calls s) (array_attr_calls s)
    (tuple_table s) (unique_var_count s) (printed s).
Definition set_numpy_globals (f : list string → list string) (s : state) :=
  mkState (typemap s) (calltypes s) (next_eq_class s)
    (array_shape_classes s) (class_sizes s) (array_size_vars s)
    (f (numpy_globals s)) (map_calls s) (numpy_calls s) (array_attr_calls s)
    (tuple_table s) (unique_var_count s) (printed s).
Definition set_map_calls (f : list string → list string) (s : state) :=
  mkState (typemap s) (calltypes s) (next_eq_class s)
    (array_shape_classes s) (class_sizes s) (array_size_vars s)
    (numpy_globals s) (f (map_calls s)) (numpy_calls s) (array_attr_calls s)
    (tuple_table s) (unique_var_count s) (printed s).
Definition set_numpy_calls
    (f : gmap string string → gmap string string) (s : state) :=
  mkState (typemap s) (calltypes s) (next_eq_class s)
    (array_shape_classes s) (class_sizes s) (array_size_vars s)
    (numpy_globals s) (map_calls s) (f (numpy_calls s)) (array_attr_calls s)
    (tuple_table s) (unique_var_count s) (printed s).
Definition set_array_attr_calls
    (f : gmap string (string * string) → gmap string (string * string))
    (s : state) :=
  mkState (typemap s) (calltypes s) (next_eq_class s)
    (array_shape_classes s) (class_sizes s) (array_size_vars s)
    (numpy_globals s) (map_calls s) (numpy_calls s) (f (array_attr_calls s))
    (tuple_table s) (unique_var_count s) (printed s).
Definition set_tuple_table
    (f : gmap string (list sizeval) → gmap string (list sizeval)) (s : state) :=
  mkState (typemap s) (calltypes s) (next_eq_class s)
    (array_shape_classes s) (class_sizes s) (array_size_vars s)
    (numpy_globals s) (map_calls s) (numpy_calls s) (array_attr_calls s)
    (f (tuple_table s)) (unique_var_count s) (printed s).
Definition set_unique_var_count (f : nat → nat) (s : state) :=
  mkState (typemap s) (calltypes s) (next_eq_class s)
    (array_shape_classes s) (class_sizes s) (array_size_vars s)
    (numpy_globals s) (map_calls s) (numpy_calls s) (array_attr_calls s)
    (tuple_table s) (f (unique_var_count s)) (printed s).

(** ** Leaf methods *)

(** [_isarray]: [isinstance(self.typemap[varname], types.npytypes.Array)]. *)
Definition is_array_ty (t : ty) : bool :=
  match t with TArray _ => true | _ => false end.

Definition _isarray (varname : string) : M bool :=
  s <- get ;; t <- dict_get (typemap s) varname ;; ret (is_array_ty t).

(** [_get_next_class]. *)
Definition _get_next_class : M Z :=
  s <- get ;;
  let m := next_eq_class s in
  modify (set_next_eq_class (λ n, n + 1)) >>
  ret m.

(** [_get_ndims]: [len(self.array_shape_classes[arr])]. *)
Definition _get_ndims (arr : string) : M nat :=
  s <- get ;; l <- dict_get (array_shape_classes s) arr ;; ret (length l).

(** The in-place rewrite of one shape list inside [_merge_classes]. *)
Definition rename_class (c1 c2 new_class : Z) (x : Z) : Z :=
  if bool_decide (x = c1) || bool_decide (x = c2) then new_class else x.

(** [dict.pop(c, [])]. *)
Definition pop_default (c : Z) (d : gmap Z (list sizeval))
  : list sizeval * gmap Z (list sizeval) :=
  (default [] (d !! c), delete c d).

(** [_merge_classes]. *)
Definition _merge_classes (c1 c2 : Z) : M Z :=
  if bool_decide (c1 = c2) then ret c1
  else
    new_class <- _get_next_class ;;
    modify (set_array_shape_classes
              (λ d, (λ l : list Z, rename_class c1 c2 new_class <$> l) <$> d)) >>
    modify (set_class_sizes (λ d,
      let '(l1, d1) := pop_default c1 d in
      let '(l2, d2) := pop_default c2 d1 in
      <[new_class := l1 ++ l2]> d2)) >>
    ret new_class.

(** ** Static configuration

    [UNARY_MAP_OP], [BINARY_MAP_OP] and [UFUNC_MAP_OP] are read from
    [numba.typing.npydecl] and [mk_unique_var] comes from [numba.ir_utils];
    neither module is part of this file, so they are parameters of the
    development.  [set_order] is the iteration order of the Python [set]
    built by the [arrayexpr] rule, and [unique_name prefix n] the name
    [mk_unique_var] builds from its global counter [n]. *)
Record config := {
  UNARY_MAP_OP : list string;
  BINARY_MAP_OP : list string;
  UFUNC_MAP_OP : list string;
  set_order : list string → list string;
  unique_name : string → nat → string
}.

(** [str(i)] for a dimension index. *)
Definition str (i : nat) : string := pretty i.

Fixpoint for_each {A} (l : list A) (body : A → M unit) : M unit :=
  match l with
  | [] => ret tt
  | x :: l' => body x >> for_each l' body
  end.

(** [range(n)]. *)
Definition range (n : nat) : list nat := seq 0 n.

(** [_add_array_corr]. *)
Definition _add_array_corr (varname : string) : M (list Z) :=
  s <- get ;;
  assert (bool_decide (array_shape_classes s !! varname = None)) >>
  modify (set_array_shape_classes <[varname := []]>) >>
  s <- get ;;
  arr_typ <- dict_get (typemap s) varname ;;
  ndim <- match arr_typ with
          | TArray n => ret n
          | _ => raise AttributeError
          end ;;
  for_each (range ndim) (λ _,
    new_class <- _get_next_class ;;
    s <- get ;;
    l <- dict_get (array_shape_classes s) varname ;;
    modify (set_array_shape_classes <[varname := l ++ [new_class]]>)) >>
  s <- get ;;
  dict_get (array_shape_classes s) varname.

(** The tuple loop of [_get_classes_from_shape]. *)
Fixpoint classes_from_tuple (shape_arg : string) (idx : list nat)
    (out_eqs : list Z) : M (list Z) :=
  match idx with
  | [] => ret out_eqs
  | i :: rest =>
      new_class <- _get_next_class ;;
      let out_eqs := out_eqs ++ [new_class] in
      s <- get ;;
      t <- dict_get (tuple_table s) shape_arg ;;
      x <- py_index t (Z.of_nat i) ;;
      modify (set_class_sizes <[new_class := [x]]>) >>
      classes_from_tuple shape_arg rest out_eqs
  end.

(** [_get_classes_from_shape].  In the scalar branch the right-hand side
    [[args[0]]] names [args], which is neither a local of this method nor a
    global of the module: evaluating it raises [NameError], after the class
    has been allocated. *)
Definition _get_classes_from_shape (shape_arg : string) : M (list Z) :=
  s <- get ;;
  arg_typ <- dict_get (typemap s) shape_arg ;;
  match arg_typ with
  | TInteger =>
      new_class <- _get_next_class ;;
      raise NameError
  | _ =>
      count <- match arg_typ with
               | TUniTuple n => ret n
               | _ => raise AssertionError
               end ;;
      classes_from_tuple shape_arg (range count) []
  end.

(** [max] of a list of lengths; [max([])] raises [ValueError]. *)
Definition py_max (l : list nat) : M nat :=
  match l with
  | [] => raise ValueError
  | x :: l' => ret (foldl Nat.max x l')
  end.

(** [while len(e)<ndims: e.insert(0,0)]. *)
Definition pad_front (ndims : nat) (e : list Z) : list Z :=
  Nat.iter (ndims - length e) (cons 0) e.

(** The inner loop [for e in eqs] of [_broadcast_and_match_shapes] at
    dimension [i], with running candidate [c]. *)
Fixpoint match_dim (i : nat) (es : list (list Z)) (c : Z) : M Z :=
  match es with
  | [] => ret c
  | e :: es' =>
      ei <- py_index e (Z.of_nat i) ;;
      if negb (bool_decide (ei = 0)) && negb (bool_decide (ei = c)) then
        if bool_decide (c = 0) then match_dim i es' ei
        else c' <- _merge_classes c ei ;; match_dim i es' c'
      else match_dim i es' c
  end.

(** The outer loop [for i in range(ndims)]. *)
Fixpoint match_dims (idx : list nat) (eqs : list (list Z))
    (out_eq : list Z) : M (list Z) :=
  match idx with
  | [] => ret out_eq
  | i :: rest =>
      e0 <- py_index eqs 0 ;;
      c <- py_index e0 (Z.of_nat i) ;;
      c <- match_dim i eqs c ;;
      (if decide (i < length out_eq)%nat then ret tt else raise IndexError) >>
      match_dims rest eqs (<[i := c]> out_eq)
  end.

(** [_broadcast_and_match_shapes].  For an operand that is not an array
    the statement [eqs.append = [0]] assigns to the read-only attribute
    [append] of a list, which raises [AttributeError]. *)
Definition _broadcast_and_match_shapes (args : list string) : M (list Z) :=
  flags <- mapM _isarray args ;;
  assert (existsb id flags) >>
  eqs <- mapM (λ a,
           b <- _isarray a ;;
           if b then s <- get ;; dict_get (array_shape_classes s) a
           else raise AttributeError) args ;;
  ndims <- py_max (length <$> eqs) ;;
  let eqs := pad_front ndims <$> eqs in
  let out_eq := replicate ndims (-1) in
  match_dims (range ndims) eqs out_eq.

(** [a.name]. *)
Definition arg_name (a : callarg) : M string :=
  match a with
  | AVar n => ret n
  | AStr _ => raise AttributeError
  end.

Definition shape_of (name : string) : M (list Z) :=
  s <- get ;; dict_get (array_shape_classes s) name.

Section Analysis.
Variable cfg : config.

(** [_analyze_np_call]. *)
Definition _analyze_np_call (call_name : string) (args : list callarg)
  : M (list Z) :=
  if bool_decide (call_name = "transpose") then
    a0 <- py_index args 0 ;; n0 <- arg_name a0 ;;
    out_eqs <- shape_of n0 ;;
    ret (reverse out_eqs)
  else if bool_decide (call_name ∈ ["empty"; "zeros"; "ones"]) then
    a0 <- py_index args 0 ;; n0 <- arg_name a0 ;;
    _get_classes_from_shape n0
  else if bool_decide (call_name ∈ ["empty_like"; "zeros_like"; "ones_like"]) then
    a0 <- py_index args 0 ;; n0 <- arg_name a0 ;;
    shape_of n0
  else if bool_decide (call_name = "reshape") then
    a1 <- py_index args 1 ;; n1 <- arg_name a1 ;;
    _get_classes_from_shape n1
  else if bool_decide (call_name = "dot") then
    assert (bool_decide (length args = 2%nat) || bool_decide (length args = 3%nat)) >>
    a0 <- py_index args 0 ;; in1 <- arg_name a0 ;;
    a1 <- py_index args 1 ;; in2 <- arg_name a1 ;;
    ndims1 <- _get_ndims in1 ;;
    ndims2 <- _get_ndims in2 ;;
    l1 <- shape_of in1 ;;
    c1 <- py_index l1 (Z.of_nat ndims1 - 1) ;;
    l2 <- shape_of in2 ;;
    c2 <- (if bool_decide (ndims2 = 1%nat) then py_index l2 0
           else py_index l2 (Z.of_nat ndims2 - 2)) ;;
    c_inner <- _merge_classes c1 c2 ;;
    out1 <- mapM (λ i, l <- shape_of in1 ;; py_index l (Z.of_nat i))
                 (range (ndims1 - 1)) ;;
    out2 <- mapM (λ i, l <- shape_of in2 ;; py_index l (Z.of_nat i))
                 (range (ndims2 - 2)) ;;
    out3 <- (if decide (1 < ndims2)%nat then
               l <- shape_of in2 ;;
               x <- py_index l (Z.of_nat ndims2 - 1) ;; ret [x]
             else ret []) ;;
    ret (out1 ++ out2 ++ out3)
  else if bool_decide (call_name ∈ UFUNC_MAP_OP cfg) then
    names <- mapM arg_name args ;;
    _broadcast_and_match_shapes names
  else
    print (UnknownNumpyCall call_name) >>
    ret [-1].

(** [_analyze_rhs_classes]. *)
Definition _analyze_rhs_classes (n : node) : M (list Z) :=
  let no_node := print (NoShapeNode n) >> ret [] in
  match n with
  | Arg name =>
      b <- _isarray name ;; assert b >>
      _add_array_corr name
  | Var name => shape_of name
  | Expr e =>
      let no_expr := print (NoShapeExpr e) >> no_node in
      match e with
      | EUnary fn value =>
          if bool_decide (fn ∈ UNARY_MAP_OP cfg) then
            b <- _isarray value ;; assert b >>
            shape_of value
          else no_expr
      | EBinop fn lhs rhs =>
          if bool_decide (fn ∈ BINARY_MAP_OP cfg) then
            _broadcast_and_match_shapes [lhs; rhs]
          else no_expr
      | EInplaceBinop fn immutable_fn lhs rhs =>
          if bool_decide (immutable_fn ∈ BINARY_MAP_OP cfg) then
            _broadcast_and_match_shapes [lhs; rhs]
          else no_expr
      | EArrayExpr vars =>
          _broadcast_and_match_shapes (set_order cfg vars)
      | ECast value => shape_of value
      | ECall func args =>
          s <- get ;;
          if bool_decide (func ∈ map_calls s) then
            a0 <- py_index args 0 ;; shape_of a0
          else
            let '(call_name, args) :=
              match numpy_calls s !! func with
              | Some nm => (nm, AVar <$> args)
              | None =>
                  match array_attr_calls s !! func with
                  | Some (nm, arr) => (nm, AStr arr :: (AVar <$> args))
                  | None => ("NULL", AVar <$> args)
                  end
              end in
            assert (negb (bool_decide (call_name = "NULL"))) >>
            _analyze_np_call call_name args
      | EGetattr value attr =>
          b <- _isarray value ;;
          if b then
            if bool_decide (attr = "T") then
              _analyze_np_call "transpose" [AVar value]
            else no_node
          else no_expr
      | _ => no_expr
      end
  | _ => no_node
  end.

(** [mk_unique_var]: a name built from the prefix and a global counter. *)
Definition mk_unique_var (prefix : string) : M string :=
  s <- get ;;
  modify (set_unique_var_count S) >>
  ret (unique_name cfg prefix (unique_var_count s)).

(** [_gen_size_call]. *)
Definition _gen_size_call (var : string) (i : nat) : M (list inst) :=
  ndims <- _get_ndims var ;;
  let shape_attr_call := Expr (EGetattr var "shape") in
  attr_var <- mk_unique_var (var +:+ "_sh_attr" +:+ str i) ;;
  modify (set_typemap <[attr_var := TUniTuple ndims]>) >>
  let attr_assign := Assign shape_attr_call attr_var in
  let const_node := Const (KInt (Z.of_nat i)) in
  const_var <- mk_unique_var ("$const" +:+ var +:+ str i) ;;
  modify (set_typemap <[const_var := TInteger]>) >>
  let const_assign := Assign const_node const_var in
  size_var <- mk_unique_var (var +:+ "size" +:+ str i) ;;
  modify (set_typemap <[size_var := TInteger]>) >>
  let getitem_node := EStaticGetitem attr_var i const_var in
  modify (set_calltypes (λ l, l ++ [getitem_node])) >>
  let getitem_assign := Assign (Expr getitem_node) size_var in
  ret [attr_assign; const_assign; getitem_assign].

(** [self.array_size_vars[lhs][i] = v]. *)
Definition set_size_var (lhs : string) (i : nat) (v : sizeval) : M unit :=
  s <- get ;;
  l <- dict_get (array_size_vars s) lhs ;;
  if decide (i < length l)%nat then
    modify (set_array_size_vars <[lhs := <[i := v]> l]>)
  else raise IndexError.

(** The loop [for (i,corr) in enumerate(rhs_corr)] of [_analyze_assign]. *)
Fixpoint size_loop (lhs : string) (i : nat) (corrs : list Z)
    (size_calls : list inst) : M (list inst) :=
  match corrs with
  | [] => ret size_calls
  | corr :: rest =>
      s <- get ;;
      if bool_decide (corr = -1)
         || bool_decide (class_sizes s !! corr = None) then
        nodes <- _gen_size_call lhs i ;;
        let size_calls := size_calls ++ nodes in
        last <- py_index nodes (-1) ;;
        size_var <- match last with
                    | Assign _ t => ret t
                    | _ => raise AssertionError
                    end ;;
        (if bool_decide (corr = -1) then ret tt
         else modify (set_class_sizes <[corr := [SVar size_var]]>)) >>
        set_size_var lhs i (SVar size_var) >>
        size_loop lhs (S i) rest size_calls
      else
        l <- dict_get (class_sizes s) corr ;;
        x <- py_index l 0 ;;
        set_size_var lhs i x >>
        size_loop lhs (S i) rest size_calls
  end.

(** The symbol-table updates at the head of [_analyze_assign]. *)
Definition record_tables (lhs : string) (rhs : node) : M unit :=
  match rhs with
  | Global _ g =>
      (if g_is_ufunc g then modify (set_map_calls (λ l, l ++ [lhs]))
       else ret tt) >>
      match g_name g with
      | None => raise AttributeError
      | Some nm =>
          if bool_decide (nm = "numpy") then
            modify (set_numpy_globals (λ l, l ++ [lhs]))
          else ret tt
      end
  | Expr (EGetattr value attr) =>
      s <- get ;;
      if bool_decide (value ∈ numpy_globals s) then
        modify (set_numpy_calls <[lhs := attr]>)
      else
        b <- _isarray value ;;
        if b then modify (set_array_attr_calls <[lhs := (attr, value)]>)
        else ret tt
  | Expr (EBuildTuple items) =>
      modify (set_tuple_table <[lhs := SVar <$> items]>)
  | Const (KTuple items) =>
      modify (set_tuple_table <[lhs := SConst <$> items]>)
  | _ => ret tt
  end.

(** [_analyze_assign]. *)
Definition _analyze_assign (rhs : node) (lhs : string) : M (list inst) :=
  record_tables lhs rhs >>
  b <- _isarray lhs ;;
  if b then
    rhs_corr <- _analyze_rhs_classes rhs ;;
    s <- get ;;
    let conflict :=
      match array_shape_classes s !! lhs with
      | Some old => negb (bool_decide (old = rhs_corr))
      | None => false
      end in
    if conflict then
      n <- _get_ndims lhs ;;
      modify (set_array_shape_classes <[lhs := replicate n (-1)]>) >>
      modify (set_array_size_vars (delete lhs)) >>
      print IncompatibleShapes >>
      ret []
    else
      modify (set_array_shape_classes <[lhs := rhs_corr]>) >>
      n <- _get_ndims lhs ;;
      modify (set_array_size_vars
                <[lhs := replicate n (SConst (KInt (-1)))]>) >>
      size_loop lhs 0 rhs_corr []
  else ret [].

(** [_analyze_inst]. *)
Definition _analyze_inst (i : inst) : M (list inst) :=
  match i with
  | Assign rhs lhs => _analyze_assign rhs lhs
  | _ => ret []
  end.

(** The loop of [_analyze_block], with [out_body] as accumulator. *)
Fixpoint block_loop (body : list inst) (out_body : list inst)
  : M (list inst) :=
  match body with
  | [] => ret out_body
  | i :: rest =>
      generated_size_calls <- _analyze_inst i ;;
      block_loop rest ((out_body ++ [i]) ++ generated_size_calls)
  end.

(** [_analyze_block]: returns the new [block.body]. *)
Definition _analyze_block (body : list inst) : M (list inst) :=
  block_loop body [].

(** [run]: the blocks of [func_ir] in dictionary order, each with its body
    replaced. *)
Fixpoint run (blocks : list (Z * list inst)) : M (list (Z * list inst)) :=
  match blocks with
  | [] => ret []
  | (key, body) :: rest =>
      body' <- _analyze_block body ;;
      rest' <- run rest ;;
      ret ((key, body') :: rest')
  end.

End Analysis.

(** Unfolding of the monad's operations. *)
Ltac munfold :=
  unfold bind, ret, get, modify, raise, assert, dict_get in *.

(** ** Specification-level definitions *)

(** The representative list of a class, [[]] when it has no entry (the
    default of [dict.pop(c, [])]). *)
Definition sizes_of (s : state) (c : Z) : list sizeval :=
  default [] (class_sizes s !! c).

(** The state [_merge_classes] leaves behind when the classes differ. *)
Definition merged (c1 c2 : Z) (s : state) : state :=
  let c3 := next_eq_class s in
  mkState (typemap s) (calltypes s) (c3 + 1)
    ((λ l : list Z, rename_class c1 c2 c3 <$> l) <$> array_shape_classes s)
    (<[c3 := sizes_of s c1 ++ sizes_of s c2]>
       (delete c2 (delete c1 (class_sizes s))))
    (array_size_vars s) (numpy_globals s) (map_calls s) (numpy_calls s)
    (array_attr_calls s) (tuple_table s) (unique_var_count s) (printed s).


(** *** The broadcast rule as the specification words it *)

(** Left-padding with class 0 up to [ndims]. *)
Definition spec_pad (ndims : nat) (e : list Z) : list Z :=
  replicate (ndims - length e) 0 ++ e.

(** The class of a padded vector at dimension [i]. *)
Definition class_at (i : nat) (e : list Z) : Z := default 0 (e !! i).

(** One dimension: [c] is the running candidate and [others] holds the
    classes of the other operands at this dimension. *)
Fixpoint spec_dim (others : list Z) (c : Z) : M Z :=
  match others with
  | [] => ret c
  | e :: rest =>
      if decide (e ≠ 0 ∧ e ≠ c) then
        if decide (c = 0) then spec_dim rest e
        else c' <- _merge_classes c e ;; spec_dim rest c'
      else spec_dim rest c
  end.

(** All dimensions, each from the first operand's class and the other
    operands' classes at that dimension. *)
Definition spec_broadcast (shapes : list (list Z)) : M (list Z) :=
  let ndims := max_list (length <$> shapes) in
  let padded := spec_pad ndims <$> shapes in
  mapM (λ i, spec_dim (class_at i <$> tail padded)
                      (class_at i (default [] (head padded))))
       (seq 0 ndims).

(** One round of the outer loop of [_broadcast_and_match_shapes], taken out
    of [match_dims]. *)
Definition dim_code (eqs : list (list Z)) (i : nat) : M Z :=
  e0 <- py_index eqs 0 ;; c <- py_index e0 (Z.of_nat i) ;; match_dim i eqs c.

(** [a] is typed as an array and has the recorded shape vector [sh]. *)
Definition recorded_array (s : state) (a : string) (sh : list Z) : Prop :=
  is_array_ty <$> typemap s !! a = Some true
  ∧ array_shape_classes s !! a = Some sh.

(** ** Sample inputs *)

(** A configuration with a few operators and universal functions. *)
Definition sample_config : config :=
  {| UNARY_MAP_OP := ["-"; "+"; "~"];
     BINARY_MAP_OP := ["+"; "-"; "*"; "/"];
     UFUNC_MAP_OP := ["add"; "multiply"; "sin"; "exp"];
     set_order := remove_dups;
     unique_name := λ prefix n, prefix +:+ "." +:+ pretty n |}.

Definition numpy_module : glob :=
  {| g_is_ufunc := false; g_name := Some "numpy" |}.

(** [x = np.cumsum(a); y = a + x] for a rank-1 parameter [a]: [cumsum] has
    no named-function rule, so [x] gets the shape [[-1]]. *)
Definition unknown_operand_types : gmap string ty :=
  list_to_map [("np", TOther); ("f", TOther); ("a", TArray 1);
               ("x", TArray 1); ("y", TArray 1)].

Definition unknown_operand_prefix : list inst :=
  [ Assign (Global "np" numpy_module) "np";
    Assign (Expr (EGetattr "np" "cumsum")) "f";
    Assign (Arg "a") "a";
    Assign (Expr (ECall "f" ["a"])) "x" ].

Definition unknown_operand_sum : inst :=
  Assign (Expr (EBinop "+" "a" "x")) "y".



(** The state after some diagnostics: only the output has grown. *)
Definition after_print (d : list diag) (s : state) : state :=
  mkState (typemap s) (calltypes s) (next_eq_class s)
    (array_shape_classes s) (class_sizes s) (array_size_vars s)
    (numpy_globals s) (map_calls s) (numpy_calls s) (array_attr_calls s)
    (tuple_table s) (unique_var_count s) (printed s ++ d).

(** The call names [_analyze_np_call] has a rule for, besides the
    universal functions of the configuration. *)
Definition named_rules : list string :=
  ["transpose"; "empty"; "zeros"; "ones"; "empty_like"; "zeros_like";
   "ones_like"; "reshape"; "dot"].




(** *** The block loop as a sequence of instruction steps *)

(** [block_steps cfg s body gens s']: analysing the instructions of [body]
    one after the other from state [s] generates the lists [gens], one per
    instruction, and ends in [s']. *)
Inductive block_steps (cfg : config)
  : state → list inst → list (list inst) → state → Prop :=
| steps_nil s : block_steps cfg s [] [] s
| steps_cons s i g s1 rest gens s' :
    _analyze_inst cfg i s = Ok g s1 →
    block_steps cfg s1 rest gens s' →
    block_steps cfg s (i :: rest) (g :: gens) s'.

(** Each instruction followed by what it generated. *)
Definition interleave (body : list inst) (gens : list (list inst))
  : list inst :=
  concat (zip_with (λ i g, i :: g) body gens).

(** *** Size materialization *)

(** The three names [_gen_size_call] draws for dimension [i] of [var] when
    the counter of [mk_unique_var] stands at [n]. *)
Definition attr_var_name (cfg : config) (var : string) (i n : nat) : string :=
  unique_name cfg (var +:+ "_sh_attr" +:+ str i) n.
Definition const_var_name (cfg : config) (var : string) (i n : nat) : string :=
  unique_name cfg ("$const" +:+ var +:+ str i) (S n).
Definition size_var_name (cfg : config) (var : string) (i n : nat) : string :=
  unique_name cfg (var +:+ "size" +:+ str i) (S (S n)).

(** The size-materialization sequence for dimension [i] of [var]: read the
    shape attribute, bind the constant index, select the element. *)
Definition size_call_nodes (cfg : config) (var : string) (i n : nat)
  : list inst :=
  [ Assign (Expr (EGetattr var "shape")) (attr_var_name cfg var i n);
    Assign (Const (KInt (Z.of_nat i))) (const_var_name cfg var i n);
    Assign (Expr (EStaticGetitem (attr_var_name cfg var i n) i
                    (const_var_name cfg var i n)))
           (size_var_name cfg var i n) ].

(** The state [_gen_size_call] leaves: three new typed names, one more
    call-type entry, the counter advanced by three. *)
Definition after_size_call (cfg : config) (var : string) (i ndims : nat)
    (s : state) : state :=
  let n := unique_var_count s in
  set_calltypes (λ l, l ++ [EStaticGetitem (attr_var_name cfg var i n) i
                              (const_var_name cfg var i n)])
    (set_typemap (λ tm, <[size_var_name cfg var i n := TInteger]>
                          (<[const_var_name cfg var i n := TInteger]>
                             (<[attr_var_name cfg var i n := TUniTuple ndims]>
                                tm)))
       (set_unique_var_count (λ n, S (S (S n))) s)).

(** Whether the loop of [_analyze_assign] has to materialize the size of a
    dimension of class [corr]: the class is [-1], or it has no entry in the
    class-size table [cs0] the loop started with and did not occur at an
    earlier dimension. *)
Definition needs_size_call (cs0 : gmap Z (list sizeval)) (earlier : list Z)
    (corr : Z) : Prop :=
  corr = -1 ∨ (cs0 !! corr = None ∧ corr ∉ earlier).

(** The state in which the size loop of [_analyze_assign] starts: the shape
    is recorded and every size variable of [lhs] is the placeholder [-1]. *)
Definition start_sizes (lhs : string) (corrs : list Z) (s : state) : state :=
  set_array_size_vars
    <[lhs := replicate (length corrs) (SConst (KInt (-1)))]>
    (set_array_shape_classes <[lhs := corrs]> s).

(** The state after a shape conflict on [lhs]: an all-unknown shape of the
    recorded rank, no size variables for [lhs], one diagnostic. *)
Definition downgraded (lhs : string) (rank : nat) (s : state) : state :=
  after_print [IncompatibleShapes]
    (set_array_size_vars (delete lhs)
       (set_array_shape_classes <[lhs := replicate rank (-1)]> s)).

(** The final state of a run, [s0] when it raised. *)
Definition state_after {A} (r : result A) (s0 : state) : state :=
  match r with
  | Ok _ s => s
  | Err _ => s0
  end.

(** Two blocks that assign the same variable [v]: [v = p] in the first,
    [w = np.dot(p, u); v = w] in the second, for rank-2 parameters [p] and
    [u].  The product merges [p]'s second class with [u]'s first, so by the
    time of the second assignment [v] is recorded as [[1, 5]] while [w] has
    the shape [[1, 4]]. *)
Definition conflict_types : gmap string ty :=
  list_to_map [("np", TOther); ("d", TOther); ("p", TArray 2);
               ("u", TArray 2); ("v", TArray 2); ("w", TArray 2)].

Definition conflict_first_block : list inst :=
  [ Assign (Global "np" numpy_module) "np";
    Assign (Expr (EGetattr "np" "dot")) "d";
    Assign (Arg "p") "p";
    Assign (Arg "u") "u";
    Assign (Var "p") "v" ].

Definition conflict_product : inst :=
  Assign (Expr (ECall "d" ["p"; "u"])) "w".

Definition conflict_blocks : list (Z * list inst) :=
  [ (0, conflict_first_block);
    (12, [conflict_product; Assign (Var "w") "v"]) ].

(** The state in which the second assignment to [v] is analysed. *)
Definition conflict_state : state :=
  state_after
    (_analyze_block sample_config (conflict_first_block ++ [conflict_product])
       (init conflict_types [] 0))
    (init conflict_types [] 0).

(** The value a run returned, [d] when it raised. *)
Definition value_after {A} (r : result A) (d : A) : A :=
  match r with
  | Ok a _ => a
  | Err _ => d
  end.

(** The state after the first block of the two-block sample. *)
Definition product_state : state :=
  state_after
    (_analyze_block sample_config conflict_first_block
       (init conflict_types [] 0))
    (init conflict_types [] 0).

(** [a] is a rank-1 parameter and [k] an integer; the state is the one
    after [a]'s assignment. *)
Definition scalar_types : gmap string ty :=
  list_to_map [("np", TOther); ("e", TOther); ("a", TArray 1);
               ("k", TInteger); ("y", TArray 1); ("b", TArray 1)].

Definition scalar_state : state :=
  state_after
    (_analyze_block sample_config [Assign (Arg "a") "a"]
       (init scalar_types [] 0))
    (init scalar_types [] 0).

(** [y = a + k]. *)
Definition scalar_sum_blocks : list (Z * list inst) :=
  [ (0, [ Assign (Arg "a") "a";
          Assign (Expr (EBinop "+" "a" "k")) "y" ]) ].

(** [b = np.empty(k)]. *)
Definition scalar_empty_blocks : list (Z * list inst) :=
  [ (0, [ Assign (Global "np" numpy_module) "np";
          Assign (Expr (EGetattr "np" "empty")) "e";
          Assign (Expr (ECall "e" ["k"])) "b" ]) ].

(** *** Invariants of the pass *)

(** [m] keeps the state property [P] whenever it returns. *)
Definition preserves (P : state → Prop) {A} (m : M A) : Prop :=
  ∀ s a s', P s → m s = Ok a s' → P s'.

(** Class [-1] has no class-size entry and the next class is positive. *)
Definition no_unknown_entry (s : state) : Prop :=
  class_sizes s !! (-1) = None ∧ 0 < next_eq_class s.

(** [c = np.empty(tup)] for a two-element tuple [tup = (m, n)] of integer
    variables. *)
Definition tuple_types : gmap string ty :=
  list_to_map [("np", TOther); ("e", TOther); ("m", TInteger);
               ("n", TInteger); ("tup", TUniTuple 2); ("c", TArray 2)].

Definition tuple_state : state :=
  state_after
    (_analyze_block sample_config
       [ Assign (Global "np" numpy_module) "np";
         Assign (Expr (EGetattr "np" "empty")) "e";
         Assign (Expr (EBuildTuple ["m"; "n"])) "tup" ]
       (init tuple_types [] 0))
    (init tuple_types [] 0).

(** [s = a + a.T] for a rank-2 parameter [a]. *)
Definition self_transpose_types : gmap string ty :=
  list_to_map [("a", TArray 2); ("t", TArray 2); ("s", TArray 2)].

Definition self_transpose_blocks : list (Z * list inst) :=
  [ (0, [ Assign (Arg "a") "a";
          Assign (Expr (EGetattr "a" "T")) "t";
          Assign (Expr (EBinop "+" "a" "t")) "s" ]) ].

(** ** Definitions for the properties of the whole pass *)

(** All instructions of a function, block after block. *)
Definition flat_bodies (blocks : list (Z * list inst)) : list inst :=
  concat (snd <$> blocks).

(** [v] has a recorded shape vector of [n] dimensions. *)
Definition has_rank (v : string) (n : nat) (s : state) : Prop :=
  ∃ l, array_shape_classes s !! v = Some l ∧ length l = n.

(** *** Well-formed class tables *)

(** A class that may occur in a recorded shape when the counter stands at
    [n]: the unknown class or a class handed out before. *)
Definition class_ok (n c : Z) : Prop := c = -1 ∨ 0 < c < n.

(** The same, or the padding class 0 of the broadcast rule. *)
Definition class_or_pad (n c : Z) : Prop := c = 0 ∨ class_ok n c.

(** The counter is positive, recorded shapes hold only unknown or
    allocated classes, the class-size table is keyed by 0 and allocated
    classes, and class 0 has its initial entry. *)
Definition well_formed (s : state) : Prop :=
  0 < next_eq_class s
  ∧ (∀ v l, array_shape_classes s !! v = Some l →
            Forall (class_ok (next_eq_class s)) l)
  ∧ (∀ c, is_Some (class_sizes s !! c) → 0 ≤ c < next_eq_class s)
  ∧ class_sizes s !! 0 = Some [SConst (KInt 1)].

(** [s'] is well formed and its counter is not below that of [s]. *)
Definition grows (s s' : state) : Prop :=
  well_formed s' ∧ next_eq_class s ≤ next_eq_class s'.

(** [s] has the shape table, class-size table and counter of [s0]. *)
Definition same_core (s0 s : state) : Prop :=
  array_shape_classes s = array_shape_classes s0
  ∧ class_sizes s = class_sizes s0
  ∧ next_eq_class s = next_eq_class s0.

(** What a shape-returning method guarantees when it returns [r] in state
    [s'] from the well-formed state [s]. *)
Definition shape_result (s : state) (r : list Z) (s' : state) : Prop :=
  grows s s' ∧ Forall (class_ok (next_eq_class s')) r.

(** *** Call registries *)

(** The state after [np = <numpy module>; f = np.attr] when neither target
    is an array: [np] is a numpy global and [f] names the numpy function
    [attr]. *)
Definition after_numpy_lookup (np f attr : string) (s : state) : state :=
  set_numpy_calls <[f := attr]> (set_numpy_globals (λ l, l ++ [np]) s).

(** The named rules that read the shape of their first argument. *)
Definition first_argument_rules : list string :=
  ["transpose"; "empty"; "zeros"; "ones"; "empty_like"; "zeros_like";
   "ones_like"].

(** [t = a.transpose] for a rank-2 parameter [a]; [b = t()] is the call
    analysed in that state. *)
Definition method_types : gmap string ty :=
  list_to_map [("a", TArray 2); ("t", TOther); ("b", TArray 2)].

Definition method_state : state :=
  state_after
    (_analyze_block sample_config
       [ Assign (Arg "a") "a";
         Assign (Expr (EGetattr "a" "transpose")) "t" ]
       (init method_types [] 0))
    (init method_types [] 0).

(** A universal function as the value of a global. *)
Definition ufunc_global : glob :=
  {| g_is_ufunc := true; g_name := Some "add" |}.

(** *** Parameters *)

(** The [n] classes handed out from counter value [c] on. *)
Definition fresh_classes (c : Z) (n : nat) : list Z :=
  (λ j, c + Z.of_nat j) <$> seq 0 n.

(** The state after [_add_array_corr] recorded the parameter [name] of
    rank [n]. *)
Definition with_parameter (name : string) (n : nat) (s : state) : state :=
  mkState (typemap s) (calltypes s) (next_eq_class s + Z.of_nat n)
    (<[name := fresh_classes (next_eq_class s) n]> (array_shape_classes s))
    (class_sizes s) (array_size_vars s) (numpy_globals s) (map_calls s)
    (numpy_calls s) (array_attr_calls s) (tuple_table s)
    (unique_var_count s) (printed s).

(** *** What shape inference leaves alone *)

(** [s] differs from [s0] at most in the class counter, the two class
    tables and the diagnostics written. *)
Definition same_frame (s0 s : state) : Prop :=
  typemap s = typemap s0 ∧ calltypes s = calltypes s0
  ∧ array_size_vars s = array_size_vars s0
  ∧ numpy_globals s = numpy_globals s0 ∧ map_calls s = map_calls s0
  ∧ numpy_calls s = numpy_calls s0
  ∧ array_attr_calls s = array_attr_calls s0
  ∧ tuple_table s = tuple_table s0
  ∧ unique_var_count s = unique_var_count s0.

(** Every list of size variables belongs to a recorded shape of the same
    rank. *)
Definition sizes_match (s : state) : Prop :=
  ∀ v sizes, array_size_vars s !! v = Some sizes →
             has_rank v (length sizes) s.

(** *** Counting the size calls *)

(** Between [s] and [s'], [k] size calls were generated: three names
    drawn and one call-type entry added for each. *)
Definition counted (k : nat) (s s' : state) : Prop :=
  unique_var_count s' = (unique_var_count s + 3 * k)%nat
  ∧ length (calltypes s') = (length (calltypes s) + k)%nat.

(** The name counter and the call types are those of [s0]. *)
Definition same_counters (s0 s : state) : Prop :=
  unique_var_count s = unique_var_count s0 ∧ calltypes s = calltypes s0.

(** *** An operand and its transpose *)

(** The state after [a = <parameter>; t = a.T] of the sample with the
    transpose. *)
Definition transposed_state : state :=
  state_after
    (_analyze_block sample_config
       [ Assign (Arg "a") "a"; Assign (Expr (EGetattr "a" "T")) "t" ]
       (init self_transpose_types [] 0))
    (init self_transpose_types [] 0).

(** A function with a global integer constant: [n = N]. *)
Definition constant_global_blocks : list (Z * list inst) :=
  [ (0, [ Assign (Arg "a") "a" ]);
    (5, [ Assign (Global "N" {| g_is_ufunc := false; g_name := None |})
            "n" ]) ].
(** * Properties *)

(** ** Class merging *)

Lemma merge_eq (c : Z) (s : state) : _merge_classes c c s = Ok c s.
Proof. unfold _merge_classes. by rewrite bool_decide_eq_true_2. Qed.

Lemma merge_ne (c1 c2 : Z) (s : state) :
  c1 ≠ c2 → _merge_classes c1 c2 s = Ok (next_eq_class s) (merged c1 c2 s).
Proof.
  intros Hne. unfold _merge_classes.
  rewrite bool_decide_eq_false_2 by done.
  unfold merged, sizes_of, _get_next_class. munfold. simpl.
  unfold set_class_sizes, set_array_shape_classes, set_next_eq_class. simpl.
  by rewrite lookup_delete_ne.
Qed.

Lemma rename_class_hit (c1 c2 c3 x : Z) :
  x = c1 ∨ x = c2 → rename_class c1 c2 c3 x = c3.
Proof.
  intros H. unfold rename_class.
  destruct (bool_decide_reflect (x = c1)); [done|].
  destruct (bool_decide_reflect (x = c2)); [done|]. tauto.
Qed.

Lemma rename_class_miss (c1 c2 c3 x : Z) :
  x ≠ c1 → x ≠ c2 → rename_class c1 c2 c3 x = x.
Proof.
  intros H1 H2. unfold rename_class.
  by rewrite !bool_decide_eq_false_2.
Qed.


Lemma merged_shape (c1 c2 : Z) (s : state) (v : string) :
  array_shape_classes (merged c1 c2 s) !! v
  = (λ l : list Z, rename_class c1 c2 (next_eq_class s) <$> l)
      <$> array_shape_classes s !! v.
Proof. unfold merged. simpl. by rewrite lookup_fmap. Qed.


Lemma merged_sizes_other (c1 c2 c : Z) (s : state) :
  c ≠ c1 → c ≠ c2 → c ≠ next_eq_class s →
  class_sizes (merged c1 c2 s) !! c = class_sizes s !! c.
Proof.
  intros H1 H2 H3. unfold merged. simpl.
  rewrite lookup_insert_ne by done.
  by rewrite !lookup_delete_ne.
Qed.

Lemma merged_sizes_old (c1 c2 c : Z) (s : state) :
  c = c1 ∨ c = c2 → c ≠ next_eq_class s →
  class_sizes (merged c1 c2 s) !! c = None.
Proof.
  intros H H3. unfold merged. simpl.
  rewrite lookup_insert_ne by done.
  destruct (decide (c = c2)) as [->|]; [by rewrite lookup_delete_eq|].
  rewrite lookup_delete_ne by done.
  destruct H as [->| ->]; [by rewrite lookup_delete_eq | done].
Qed.


(** ** Generic facts about the monad *)

Lemma py_index_nat {A} (l : list A) (i : nat) (x : A) (s : state) :
  l !! i = Some x → py_index l (Z.of_nat i) s = Ok x s.
Proof.
  intros Hl. unfold py_index.
  pose proof (lookup_lt_Some _ _ _ Hl).
  destruct (decide (Z.of_nat i < 0)); [lia|].
  destruct (decide (0 ≤ Z.of_nat i < Z.of_nat (length l))); [|lia].
  by rewrite Nat2Z.id, Hl.
Qed.

Lemma mapM_ext {A B} (f g : A → M B) (l : list A) (s : state) :
  (∀ x s, x ∈ l → f x s = g x s) → mapM f l s = mapM g l s.
Proof.
  revert s. induction l as [|x l IH]; intros s Hfg; [done|].
  simpl. unfold bind. rewrite Hfg by left.
  destruct (g x s) as [y s1|e]; [|done].
  rewrite IH; [done|]. intros z s2 Hz. apply Hfg. by right.
Qed.

Lemma mapM_length {A B} (f : A → M B) (l : list A) (s s' : state) res :
  mapM f l s = Ok res s' → length res = length l.
Proof.
  revert s res. induction l as [|x l IH]; intros s res; simpl.
  - by intros [= <- _].
  - unfold bind, ret. destruct (f x s) as [y s1|e]; [|done].
    destruct (mapM f l s1) as [ys s2|e] eqn:Hm; [|done].
    intros [= <- <-]. simpl. f_equal. eauto.
Qed.

Lemma mapM_total {A B} (f : A → M B) (l : list A) (s : state) :
  (∀ x s, ∃ y s', f x s = Ok y s') → ∃ ys s', mapM f l s = Ok ys s'.
Proof.
  intros Hf. revert s. induction l as [|x l IH]; intros s; simpl.
  - by eexists _, _.
  - unfold bind, ret. destruct (Hf x s) as (y & s1 & ->).
    destruct (IH s1) as (ys & s2 & ->). by eexists _, _.
Qed.

Lemma bind_ok {A B} (m : M A) (k : A → M B) (s : state) (a : A) (s1 : state) :
  m s = Ok a s1 → bind m k s = k a s1.
Proof. intros H. unfold bind. by rewrite H. Qed.

Lemma dict_get_ok {K} `{Countable K} {V} (d : gmap K V) (k : K) (v : V)
    (s : state) :
  d !! k = Some v → dict_get d k s = Ok v s.
Proof. intros Hd. unfold dict_get. by rewrite Hd. Qed.

Lemma get_next_class_ok (s : state) :
  _get_next_class s
  = Ok (next_eq_class s) (set_next_eq_class (λ n, n + 1) s).
Proof. reflexivity. Qed.

Lemma mapM_cons_eq {A B} (f : A → M B) (x : A) (l : list A) (s : state) :
  mapM f (x :: l) s
  = match f x s with
    | Ok y s1 =>
        match mapM f l s1 with
        | Ok ys s2 => Ok (y :: ys) s2
        | Err e => Err e
        end
    | Err e => Err e
    end.
Proof.
  simpl. unfold bind. destruct (f x s) as [y s1|]; [|done].
  by destruct (mapM f l s1).
Qed.

Lemma mapM_cons_ok {A B} (f : A → M B) (x : A) (l : list A) (y : B)
    (ys : list B) (s s1 s2 : state) :
  f x s = Ok y s1 → mapM f l s1 = Ok ys s2 →
  mapM f (x :: l) s = Ok (y :: ys) s2.
Proof. intros Hx Hl. simpl. unfold bind. by rewrite Hx, Hl. Qed.

(** [mapM] of a computation that reads the state without changing it. *)
Lemma mapM_pure {A B} (f : A → M B) (g : A → B) (l : list A) (s : state) :
  (∀ x, x ∈ l → f x s = Ok (g x) s) → mapM f l s = Ok (g <$> l) s.
Proof.
  induction l as [|x l IH]; intros Hf; [done|].
  simpl. unfold bind, ret. rewrite Hf by left.
  rewrite IH; [done|]. intros z Hz. apply Hf. by right.
Qed.

(** ** Broadcasting *)

Lemma pad_front_spec (ndims : nat) (e : list Z) :
  pad_front ndims e = spec_pad ndims e.
Proof.
  unfold pad_front, spec_pad.
  induction (ndims - length e)%nat as [|n IH]; [done|].
  simpl. by rewrite IH.
Qed.

Lemma spec_pad_length (ndims : nat) (e : list Z) :
  (length e ≤ ndims)%nat → length (spec_pad ndims e) = ndims.
Proof.
  intros H. unfold spec_pad. rewrite length_app, length_replicate. lia.
Qed.

Lemma foldl_max_list (x : nat) (l : list nat) :
  foldl Nat.max x l = max_list (x :: l).
Proof.
  revert x. induction l as [|y l IH]; intros x; simpl in *; [lia|].
  rewrite IH. simpl. lia.
Qed.

Lemma spec_dim_total (others : list Z) (c : Z) (s : state) :
  ∃ r s', spec_dim others c s = Ok r s'.
Proof.
  revert c s. induction others as [|e rest IH]; intros c s; simpl.
  - by eexists _, _.
  - destruct (decide (e ≠ 0 ∧ e ≠ c)) as [[He Hec]|_]; [|apply IH].
    destruct (decide (c = 0)); [apply IH|].
    unfold bind. rewrite merge_ne by done. apply IH.
Qed.

(** The code's inner loop over operands that all reach dimension [i]. *)
Lemma match_dim_spec (i : nat) (es : list (list Z)) (c : Z) (s : state) :
  Forall (λ e, (i < length e)%nat) es →
  match_dim i es c s = spec_dim (class_at i <$> es) c s.
Proof.
  intros Hes. revert c s. induction Hes as [|e es He _ IH]; intros c s; [done|].
  simpl. unfold bind.
  destruct (lookup_lt_is_Some_2 e i He) as [x Hx].
  rewrite (py_index_nat _ _ _ _ Hx).
  assert (class_at i e = x) as -> by (unfold class_at; by rewrite Hx).
  destruct (bool_decide_reflect (x = 0)); simpl.
  { destruct (decide (x ≠ 0 ∧ x ≠ c)); [tauto|]. apply IH. }
  destruct (bool_decide_reflect (x = c)); simpl.
  { destruct (decide (x ≠ 0 ∧ x ≠ c)); [tauto|]. apply IH. }
  destruct (decide (x ≠ 0 ∧ x ≠ c)); [|tauto].
  destruct (bool_decide_reflect (c = 0)); destruct (decide (c = 0));
    try done; try apply IH.
  destruct (_merge_classes c x s); [apply IH|done].
Qed.


Lemma dim_code_spec (e0 : list Z) (es : list (list Z)) (i : nat) (s : state) :
  Forall (λ e, (i < length e)%nat) (e0 :: es) →
  dim_code (e0 :: es) i s
  = spec_dim (class_at i <$> es) (class_at i e0) s.
Proof.
  intros Hall. unfold dim_code, bind.
  change (py_index (e0 :: es) 0 s) with (Ok e0 s).
  pose proof (Forall_inv Hall) as He0. simpl in He0.
  destruct (lookup_lt_is_Some_2 e0 i He0) as [x Hx].
  rewrite (py_index_nat _ _ _ _ Hx).
  rewrite match_dim_spec by done. simpl.
  assert (class_at i e0 = x) as -> by (unfold class_at; by rewrite Hx).
  destruct (decide (x ≠ 0 ∧ x ≠ x)); [tauto|done].
Qed.

Lemma match_dims_cons (i : nat) (rest : list nat) (eqs : list (list Z))
    (out : list Z) (s : state) :
  match_dims (i :: rest) eqs out s
  = match dim_code eqs i s with
    | Ok c s1 =>
        if decide (i < length out)%nat
        then match_dims rest eqs (<[i:=c]> out) s1
        else Err IndexError
    | Err e => Err e
    end.
Proof.
  simpl. unfold dim_code, bind.
  destruct (py_index eqs 0 s) as [e0 s1|]; [|done].
  destruct (py_index e0 (Z.of_nat i) s1) as [c s2|]; [|done].
  destruct (match_dim i eqs c s2) as [c' s3|]; [|done].
  by destruct (decide (i < length out)%nat).
Qed.

Lemma match_dims_mapM (eqs : list (list Z)) (m k : nat) (out res : list Z)
    (s s' : state) :
  (k + m ≤ length out)%nat →
  mapM (dim_code eqs) (seq k m) s = Ok res s' →
  match_dims (seq k m) eqs out s
  = Ok (take k out ++ res ++ drop (k + m) out) s'.
Proof.
  revert k out res s. induction m as [|m IH]; intros k out res s Hlen.
  - simpl. intros [= <- <-]. simpl. by rewrite Nat.add_0_r, take_drop.
  - cbn [seq]. rewrite match_dims_cons. cbn [mapM]. unfold bind at 1 2.
    destruct (dim_code eqs k s) as [c s1|e]; [|done].
    destruct (mapM (dim_code eqs) (seq (S k) m) s1) as [res' s2|e] eqn:Hm;
      [|done].
    unfold ret at 1. intros [= <- <-].
    destruct (decide (k < length out)%nat); [|lia].
    rewrite (IH (S k) _ res' s1) by (rewrite ?length_insert; lia || done).
    f_equal.
    rewrite (take_S_r (<[k:=c]> out) k c)
      by (apply list_lookup_insert_eq; lia).
    rewrite take_insert_ge by lia.
    rewrite drop_insert_lt by lia.
    rewrite <- app_assoc. simpl. by rewrite Nat.add_succ_r.
Qed.

Lemma isarray_recorded (s : state) (a : string) (sh : list Z) :
  recorded_array s a sh → _isarray a s = Ok true s.
Proof.
  intros [Ht _]. unfold _isarray. munfold.
  destruct (typemap s !! a) as [t|]; [|done].
  simpl in *. injection Ht as Ht. by rewrite Ht.
Qed.

Lemma collect_shapes (s : state) (args : list string) (shapes : list (list Z)) :
  Forall2 (recorded_array s) args shapes →
  mapM _isarray args s = Ok ((λ _, true) <$> args) s
  ∧ mapM (λ a, b <- _isarray a ;;
               if b then s <- get ;; dict_get (array_shape_classes s) a
               else raise AttributeError) args s = Ok shapes s.
Proof.
  induction 1 as [|a sh args shapes Ha _ [IH1 IH2]]; [done|].
  split.
  - rewrite fmap_cons. eapply mapM_cons_ok; [|exact IH1].
    by eapply isarray_recorded.
  - eapply mapM_cons_ok; [|exact IH2].
    unfold bind. rewrite (isarray_recorded _ _ _ Ha).
    unfold get, dict_get. by rewrite (proj2 Ha).
Qed.

(** C1. When every operand is an array variable with a recorded shape
    vector, [_broadcast_and_match_shapes] returns a vector whose length is
    the largest operand rank, and that vector and the state it leaves are
    the ones obtained from the operand vectors left-padded with class 0 by
    taking, at each dimension in turn, the first operand's class as the
    candidate and then, for each other operand's class [e] that is neither
    0 nor the candidate, adopting [e] when the candidate is 0 and merging
    the two otherwise.  For the shapes [[c_a, 0]] and [[0, c_b]] with
    nonzero [c_a], [c_b] the result is [[c_a, c_b]] and nothing is merged. *)
Theorem broadcast_and_match_shapes_spec (s : state) (args : list string)
    (shapes : list (list Z)) :
  args ≠ [] →
  Forall2 (recorded_array s) args shapes →
  ∃ out s',
    _broadcast_and_match_shapes args s = Ok out s'
    ∧ length out = max_list (length <$> shapes)
    ∧ spec_broadcast shapes s = Ok out s'
    ∧ (∀ c_a c_b, shapes = [[c_a; 0]; [0; c_b]] → c_a ≠ 0 → c_b ≠ 0 →
         out = [c_a; c_b] ∧ s' = s).
Proof.
  intros Hne Hall.
  destruct (collect_shapes _ _ _ Hall) as [Hflags Heqs].
  destruct Hall as [|a sh0 args shs Ha Hall]; [done|]. clear Hne.
  set (shapes := sh0 :: shs) in *.
  set (ndims := max_list (length <$> shapes)).
  assert (Forall (λ e, length (spec_pad ndims e) = ndims) shapes) as Hlen.
  { apply Forall_forall. intros e He. apply spec_pad_length.
    apply max_list_elem_of_le. apply list_elem_of_fmap. eauto. }
  destruct (mapM_total
              (λ i, spec_dim (class_at i <$> (spec_pad ndims <$> shs))
                             (class_at i (spec_pad ndims sh0)))
              (seq 0 ndims) s) as (out & s' & Hspec).
  { intros i s0. apply spec_dim_total. }
  assert (mapM (dim_code (spec_pad ndims <$> shapes)) (seq 0 ndims) s
          = Ok out s') as Hcode.
  { rewrite <- Hspec. apply mapM_ext. intros i s0 Hi.
    apply elem_of_seq in Hi. subst shapes. rewrite fmap_cons.
    rewrite dim_code_spec; [done|].
    rewrite <- fmap_cons. apply Forall_fmap.
    eapply Forall_impl; [exact Hlen|]. simpl. intros e ->. lia. }
  exists out, s'.
  assert (length out = ndims) as Hout.
  { apply mapM_length in Hspec. by rewrite length_seq in Hspec. }
  split.
  { unfold _broadcast_and_match_shapes.
    erewrite bind_ok; [|exact Hflags].
    erewrite bind_ok; [|done].
    erewrite bind_ok; [|exact Heqs].
    erewrite (bind_ok _ _ _ ndims);
      [|subst shapes ndims; simpl py_max; by rewrite foldl_max_list].
    cbv zeta.
    rewrite (list_fmap_ext (pad_front ndims) (spec_pad ndims))
      by (intros; apply pad_front_spec).
    unfold range.
    rewrite (match_dims_mapM _ ndims 0 _ out s s');
      [|by rewrite length_replicate|done].
    simpl. rewrite drop_ge by (rewrite length_replicate; lia).
    by rewrite app_nil_r. }
  split; [done|].
  split; [done|].
  intros c_a c_b Hsh Hca Hcb.
  subst shapes. injection Hsh as -> ->. revert Hspec.
  subst ndims. simpl. unfold spec_pad, class_at. simpl.
  unfold bind, ret.
  repeat (case_decide; try tauto; try lia).
  by intros [= <- <-].
Qed.

(** ** Matrix product *)

Lemma shape_of_ok (s : state) (a : string) (l : list Z) :
  array_shape_classes s !! a = Some l → shape_of a s = Ok l s.
Proof. intros H. unfold shape_of. munfold. by rewrite H. Qed.

Lemma get_ndims_ok (s : state) (a : string) (l : list Z) :
  array_shape_classes s !! a = Some l → _get_ndims a s = Ok (length l) s.
Proof. intros H. unfold _get_ndims. munfold. by rewrite H. Qed.

Lemma read_prefix (s : state) (a : string) (l : list Z) (n : nat) :
  array_shape_classes s !! a = Some l → (n ≤ length l)%nat →
  mapM (λ i, l <- shape_of a ;; py_index l (Z.of_nat i)) (range n) s
  = Ok (take n l) s.
Proof.
  intros Ha Hn.
  rewrite (mapM_pure _ (λ i, default 0 (l !! i))).
  - f_equal. apply list_eq. intros i. unfold range.
    rewrite list_lookup_fmap.
    destruct (decide (i < n)%nat).
    + rewrite lookup_seq_lt, lookup_take_lt by done. simpl.
      destruct (lookup_lt_is_Some_2 l i ltac:(lia)) as [x ->]. done.
    + rewrite lookup_seq_ge, lookup_take_ge by lia. done.
  - intros i Hi. apply elem_of_seq in Hi.
    erewrite bind_ok; [|by apply shape_of_ok].
    destruct (lookup_lt_is_Some_2 l i ltac:(lia)) as [x Hx].
    rewrite Hx. by apply py_index_nat.
Qed.

Lemma dot_dispatch (cfg : config) (args : list callarg) :
  _analyze_np_call cfg "dot" args
  = (assert (bool_decide (length args = 2%nat) || bool_decide (length args = 3%nat)) >>
    a0 <- py_index args 0 ;; in1 <- arg_name a0 ;;
    a1 <- py_index args 1 ;; in2 <- arg_name a1 ;;
    ndims1 <- _get_ndims in1 ;;
    ndims2 <- _get_ndims in2 ;;
    l1 <- shape_of in1 ;;
    c1 <- py_index l1 (Z.of_nat ndims1 - 1) ;;
    l2 <- shape_of in2 ;;
    c2 <- (if bool_decide (ndims2 = 1%nat) then py_index l2 0
           else py_index l2 (Z.of_nat ndims2 - 2)) ;;
    c_inner <- _merge_classes c1 c2 ;;
    out1 <- mapM (λ i, l <- shape_of in1 ;; py_index l (Z.of_nat i))
                 (range (ndims1 - 1)) ;;
    out2 <- mapM (λ i, l <- shape_of in2 ;; py_index l (Z.of_nat i))
                 (range (ndims2 - 2)) ;;
    out3 <- (if decide (1 < ndims2)%nat then
               l <- shape_of in2 ;;
               x <- py_index l (Z.of_nat ndims2 - 1) ;; ret [x]
             else ret []) ;;
    ret (out1 ++ out2 ++ out3)).
Proof. reflexivity. Qed.

(** The shape vectors after [_merge_classes c1 c2]. *)
Lemma merge_result (c1 c2 : Z) (s : state) :
  ∃ c s', _merge_classes c1 c2 s = Ok c s'
    ∧ (c1 = c2 → c = c1 ∧ s' = s)
    ∧ (c1 ≠ c2 → c = next_eq_class s ∧ s' = merged c1 c2 s)
    ∧ ∀ v l, array_shape_classes s !! v = Some l →
        ∃ l', array_shape_classes s' !! v = Some l' ∧ length l' = length l.
Proof.
  destruct (decide (c1 = c2)) as [->|Hne].
  - exists c2, s. rewrite merge_eq. repeat split; try done. eauto.
  - exists (next_eq_class s), (merged c1 c2 s). rewrite merge_ne by done.
    repeat split; try done.
    intros v l Hl. rewrite merged_shape, Hl. simpl.
    eexists. split; [done|]. by rewrite length_fmap.
Qed.

(** C3 as stated fails on the product of a square matrix with itself: [p]
    has the shape [[1,2]], so [m = 1], [k = 2], [k2 = 1], [n = 2] with
    [k], [k2] distinct, and [dot(p, p)] returns [[5,5]], the class that
    replaced both 1 and 2, not [[m,n] = [1,2]]. *)
Lemma dot_self_product :
  array_shape_classes product_state !! "p" = Some [1; 2]
  ∧ _analyze_np_call sample_config "dot" [AVar "p"; AVar "p"] product_state
    = Ok [5; 5] (merged 2 1 product_state).
Proof. split; vm_compute; reflexivity. Qed.

(** C3, amended.  For [dot(a, b)] with two or three arguments and recorded
    shapes of ranks [r1], [r2], both at least 1, the class of [a]'s last
    dimension is merged with the class of [b]'s only dimension when
    [r2 = 1] and of [b]'s second-to-last dimension otherwise; the shape
    returned is read from the vectors as they stand after that merge:
    [a]'s first [r1-1] classes, then [b]'s first [r2-2] classes, then [b]'s
    last class when [r2 >= 2], so the contracted dimension has no position
    in it.  For [a] of shape [[m,k]] and [b] of shape [[k2,n]] with [k],
    [k2] distinct, [k] and [k2] are merged into the next class [c] and the
    result is [[m',n']], where [m'] is [c] when [m] is [k] or [k2] and [m]
    otherwise, and likewise [n']; it is [[m,n]] itself when neither [m] nor
    [n] is [k] or [k2].  An operand recorded with rank 0 makes the call
    raise [IndexError]. *)
Theorem dot_shape_spec (cfg : config) (s : state) (a b : string)
    (rest : list callarg) (l1 l2 : list Z) :
  (length rest ≤ 1)%nat →
  array_shape_classes s !! a = Some l1 →
  array_shape_classes s !! b = Some l2 →
  (l1 = [] ∨ l2 = [] →
     _analyze_np_call cfg "dot" (AVar a :: AVar b :: rest) s
     = Err IndexError)
  ∧ ∀ c1 c2,
      l1 !! (length l1 - 1)%nat = Some c1 →
      l2 !! (if decide (length l2 = 1%nat) then 0 else length l2 - 2)%nat
        = Some c2 →
      ∃ c_inner s' l1' l2' out,
        _merge_classes c1 c2 s = Ok c_inner s'
        ∧ array_shape_classes s' !! a = Some l1'
        ∧ array_shape_classes s' !! b = Some l2'
        ∧ _analyze_np_call cfg "dot" (AVar a :: AVar b :: rest) s = Ok out s'
        ∧ out = take (length l1 - 1) l1' ++ take (length l2 - 2) l2'
                ++ (if decide (1 < length l2)%nat
                    then drop (length l2 - 1) l2' else [])
        ∧ length out = (if decide (1 < length l2)%nat
                        then length l1 - 1 + (length l2 - 1)
                        else length l1 - 1)%nat
        ∧ (∀ m k k2 n, l1 = [m; k] → l2 = [k2; n] → k ≠ k2 →
             c1 = k ∧ c2 = k2 ∧ c_inner = next_eq_class s
             ∧ s' = merged k k2 s
             ∧ out = [rename_class k k2 c_inner m;
                      rename_class k k2 c_inner n]
             ∧ (m ≠ k → m ≠ k2 → n ≠ k → n ≠ k2 → out = [m; n])).
Proof.
  intros Hrest Ha Hb. split.
  { intros Hzero. rewrite dot_dispatch.
    erewrite bind_ok; [|by destruct rest as [|? [|? ?]]; simpl in *; try lia].
    erewrite bind_ok; [|by apply (py_index_nat _ 0)].
    erewrite bind_ok; [|done].
    erewrite bind_ok; [|by apply (py_index_nat _ 1)].
    erewrite bind_ok; [|done].
    erewrite bind_ok; [|by apply get_ndims_ok].
    erewrite bind_ok; [|by apply get_ndims_ok].
    erewrite bind_ok; [|by apply shape_of_ok].
    destruct l1 as [|x1 l1]; [done|].
    destruct Hzero as [?| ->]; [done|].
    destruct (lookup_lt_is_Some_2 (x1 :: l1) (length (x1 :: l1) - 1)
                ltac:(simpl; lia)) as [c1 Hc1].
    erewrite (bind_ok _ _ _ c1).
    2:{ replace (Z.of_nat (length (x1 :: l1)) - 1)
          with (Z.of_nat (length (x1 :: l1) - 1)) by (simpl; lia).
        by apply py_index_nat. }
    erewrite bind_ok; [|by apply shape_of_ok].
    done. }
  intros c1 c2 Hc1 Hc2.
  pose proof (lookup_lt_Some _ _ _ Hc1) as Hr1.
  pose proof (lookup_lt_Some _ _ _ Hc2) as Hr2.
  destruct (merge_result c1 c2 s) as (c & s' & Hm & Heq & Hneq & Hsh).
  destruct (Hsh _ _ Ha) as (l1' & Ha' & Hl1').
  destruct (Hsh _ _ Hb) as (l2' & Hb' & Hl2').
  exists c, s', l1', l2'. eexists.
  split; [done|]. split; [done|]. split; [done|].
  assert (_analyze_np_call cfg "dot" (AVar a :: AVar b :: rest) s
          = Ok (take (length l1 - 1) l1' ++ take (length l2 - 2) l2'
                ++ (if decide (1 < length l2)%nat
                    then drop (length l2 - 1) l2' else [])) s') as Hcall.
  { rewrite dot_dispatch.
    erewrite bind_ok; [|by destruct rest as [|? [|? ?]]; simpl in *; try lia].
    erewrite bind_ok; [|by apply (py_index_nat _ 0)].
    erewrite bind_ok; [|done].
    erewrite bind_ok; [|by apply (py_index_nat _ 1)].
    erewrite bind_ok; [|done].
    erewrite bind_ok; [|by apply get_ndims_ok].
    erewrite bind_ok; [|by apply get_ndims_ok].
    erewrite bind_ok; [|by apply shape_of_ok].
    erewrite (bind_ok _ _ _ c1).
    2:{ replace (Z.of_nat (length l1) - 1) with (Z.of_nat (length l1 - 1))
          by lia. by apply py_index_nat. }
    erewrite bind_ok; [|by apply shape_of_ok].
    erewrite (bind_ok _ _ _ c2).
    2:{ destruct (decide (length l2 = 1%nat)) as [E|E].
        - rewrite bool_decide_eq_true_2 by done.
          by apply (py_index_nat l2 0).
        - rewrite bool_decide_eq_false_2 by done.
          replace (Z.of_nat (length l2) - 2) with (Z.of_nat (length l2 - 2))
            by lia. by apply py_index_nat. }
    erewrite bind_ok; [|exact Hm].
    erewrite bind_ok; [|apply read_prefix; [done|lia]].
    erewrite bind_ok; [|apply read_prefix; [done|lia]].
    destruct (decide (1 < length l2)%nat) as [Hgt|Hle].
    - destruct (lookup_lt_is_Some_2 l2' (length l2 - 1) ltac:(lia)) as [x Hx].
      erewrite (bind_ok _ _ _ [x]).
      2:{ erewrite bind_ok; [|by apply shape_of_ok].
          erewrite bind_ok; [done|].
          replace (Z.of_nat (length l2) - 1) with (Z.of_nat (length l2 - 1))
            by lia. by apply py_index_nat. }
      unfold ret. do 3 f_equal.
      rewrite (drop_S _ _ _ Hx), drop_ge by lia. done.
    - erewrite bind_ok; [|done]. done. }
  split; [exact Hcall|]. split; [done|].
  split.
  { rewrite !length_app, !length_take.
    destruct (decide (1 < length l2)%nat);
      [rewrite length_drop|simpl]; lia. }
  intros m k k2 n -> -> Hk.
  simpl in Hc1, Hc2. injection Hc1 as <-. injection Hc2 as <-.
  destruct (Hneq Hk) as [-> ->].
  rewrite merged_shape, Ha in Ha'. rewrite merged_shape, Hb in Hb'.
  simpl in Ha', Hb'. injection Ha' as <-. injection Hb' as <-.
  simpl. repeat split; try done.
  intros ? ? ? ?. by rewrite !rename_class_miss.
Qed.

(** ** Scalar operands of a broadcast *)

Lemma isarray_typed (s : state) (a : string) (t : ty) :
  typemap s !! a = Some t → _isarray a s = Ok (is_array_ty t) s.
Proof. intros H. unfold _isarray. munfold. by rewrite H. Qed.

Lemma collect_scalar_raises (s : state) (args : list string) :
  (∀ a, a ∈ args → is_Some (typemap s !! a)) →
  (∀ a, a ∈ args → is_array_ty <$> typemap s !! a = Some true →
        is_Some (array_shape_classes s !! a)) →
  (∃ a, a ∈ args ∧ is_array_ty <$> typemap s !! a = Some false) →
  mapM (λ a, b <- _isarray a ;;
             if b then s <- get ;; dict_get (array_shape_classes s) a
             else raise AttributeError) args s = Err AttributeError.
Proof.
  set (f := λ a, b <- _isarray a ;;
                 if b then s <- get ;; dict_get (array_shape_classes s) a
                 else raise AttributeError).
  induction args as [|a args IH]; intros Hty Hsh (x & Hx & Hxs).
  { by apply elem_of_nil in Hx. }
  destruct (Hty a ltac:(left)) as [t Ht].
  rewrite mapM_cons_eq.
  destruct (is_array_ty t) eqn:Harr.
  - destruct (Hsh a ltac:(left) ltac:(by rewrite Ht; simpl; rewrite Harr))
      as [sh Hs].
    assert (f a s = Ok sh s) as ->.
    { unfold f, bind. rewrite (isarray_typed _ _ _ Ht), Harr.
      unfold get, dict_get. by rewrite Hs. }
    rewrite IH; [done| | |].
    + intros y Hy. apply Hty. by right.
    + intros y Hy. apply Hsh. by right.
    + exists x. split; [|done].
      apply elem_of_cons in Hx as [->|Hx]; [|done].
      rewrite Ht in Hxs. simpl in Hxs. congruence.
  - assert (f a s = Err AttributeError) as ->; [|done].
    unfold f, bind. by rewrite (isarray_typed _ _ _ Ht), Harr.
Qed.

(** C7 (the code departs from it).  With every operand typed, at least
    one array operand, every array operand's shape recorded and at least
    one operand that is not an array, [_broadcast_and_match_shapes] raises
    [AttributeError] at the first non-array operand instead of treating it
    as a class-0 operand. *)
Theorem broadcast_scalar_operand_raises (s : state) (args : list string) :
  (∀ a, a ∈ args → is_Some (typemap s !! a)) →
  (∀ a, a ∈ args → is_array_ty <$> typemap s !! a = Some true →
        is_Some (array_shape_classes s !! a)) →
  (∃ a, a ∈ args ∧ is_array_ty <$> typemap s !! a = Some true) →
  (∃ a, a ∈ args ∧ is_array_ty <$> typemap s !! a = Some false) →
  _broadcast_and_match_shapes args s = Err AttributeError.
Proof.
  intros Hty Hsh (x & Hx & Hxa) Hscalar.
  unfold _broadcast_and_match_shapes.
  erewrite (bind_ok _ _ _
              ((λ a, is_array_ty (default TOther (typemap s !! a))) <$> args)).
  2:{ apply mapM_pure. intros a Ha. destruct (Hty a Ha) as [t Ht].
      rewrite Ht. by apply isarray_typed. }
  erewrite bind_ok.
  2:{ unfold assert.
      replace (existsb id _) with true; [done|].
      symmetry. apply existsb_exists.
      exists true. split; [|done].
      apply list_elem_of_In, list_elem_of_fmap. exists x. split; [|done].
      destruct (typemap s !! x); simpl in *; congruence. }
  unfold bind. by rewrite collect_scalar_raises.
Qed.

(** ** Shape arguments of array-creation calls *)

Lemma creation_dispatch (cfg : config) (call_name : string)
    (args : list callarg) :
  call_name ∈ ["empty"; "zeros"; "ones"] →
  _analyze_np_call cfg call_name args
  = (a0 <- py_index args 0 ;; n0 <- arg_name a0 ;;
     _get_classes_from_shape n0).
Proof.
  intros Hname.
  repeat (apply elem_of_cons in Hname as [->|Hname]); try reflexivity.
  by apply elem_of_nil in Hname.
Qed.

(** C8 (the code departs from it).  For [empty], [zeros] or [ones] whose
    shape argument is typed as a scalar integer, the scalar branch of
    [_get_classes_from_shape] raises [NameError]: no shape is returned and
    no class-size entry is recorded. *)
Theorem scalar_shape_argument_raises (cfg : config) (s : state)
    (call_name shape_arg : string) (rest : list callarg) :
  call_name ∈ ["empty"; "zeros"; "ones"] →
  typemap s !! shape_arg = Some TInteger →
  _analyze_np_call cfg call_name (AVar shape_arg :: rest) s = Err NameError.
Proof.
  intros Hname Hty.
  assert (_get_classes_from_shape shape_arg s = Err NameError) as Hraise.
  { unfold _get_classes_from_shape. munfold. by rewrite Hty. }
  rewrite creation_dispatch by done.
  erewrite bind_ok; [|by apply (py_index_nat _ 0)].
  erewrite bind_ok; [|done]. exact Hraise.
Qed.

(** The tuple branch, for comparison: one fresh class per element, each
    backed by the element the tuple table holds at that position. *)
Lemma classes_from_tuple_spec (shape_arg : string) (t : list sizeval)
    (m k : nat) (acc : list Z) (s : state) :
  tuple_table s !! shape_arg = Some t →
  (k + m ≤ length t)%nat →
  ∃ s', classes_from_tuple shape_arg (seq k m) acc s
        = Ok (acc ++ ((λ j, next_eq_class s + Z.of_nat j) <$> seq 0 m)) s'
    ∧ next_eq_class s' = next_eq_class s + Z.of_nat m
    ∧ tuple_table s' = tuple_table s
    ∧ (∀ j, (j < m)%nat →
         class_sizes s' !! (next_eq_class s + Z.of_nat j)
         = (λ x, [x]) <$> t !! (k + j)%nat)
    ∧ (∀ c, c < next_eq_class s → class_sizes s' !! c = class_sizes s !! c).
Proof.
  revert k acc s. induction m as [|m IH]; intros k acc s Ht Hlen.
  - exists s. simpl. rewrite app_nil_r. repeat split; try done.
    + lia.
    + intros j Hj. lia.
  - destruct (lookup_lt_is_Some_2 t k ltac:(lia)) as [x Hx].
    set (s1 := set_class_sizes <[next_eq_class s := [x]]>
                 (set_next_eq_class (λ n, n + 1) s)).
    destruct (IH (S k) (acc ++ [next_eq_class s]) s1) as (s' & Hrun & Hn & Htt & Hnew & Hold);
      [done|lia|].
    exists s'. split.
    { cbn [seq classes_from_tuple].
      erewrite bind_ok; [|apply get_next_class_ok].
      erewrite bind_ok; [|reflexivity].
      erewrite bind_ok; [|by apply dict_get_ok].
      erewrite bind_ok; [|by apply py_index_nat].
      erewrite bind_ok; [|reflexivity].
      fold s1. rewrite Hrun. f_equal. rewrite <- app_assoc. f_equal.
      simpl. f_equal; [lia|].
      rewrite <- fmap_S_seq, <- list_fmap_compose.
      apply list_fmap_ext. intros ? j _. simpl. lia. }
    split; [rewrite Hn; simpl; lia|].
    split; [by rewrite Htt|].
    split.
    + intros j Hj. destruct j as [|j].
      * rewrite Z.add_0_r, Nat.add_0_r, Hx. simpl.
        rewrite Hold by (simpl; lia). simpl. by rewrite lookup_insert_eq.
      * replace (next_eq_class s + Z.of_nat (S j))
          with (next_eq_class s1 + Z.of_nat j) by (simpl; lia).
        rewrite Hnew by lia. f_equal. f_equal. lia.
    + intros c Hc. rewrite Hold by (simpl; lia). simpl.
      rewrite lookup_insert_ne by lia. done.
Qed.

(** ** The unknown class *)

(** C9 (the code departs from it).  After the prefix of the sample block
    the parameter [a] has shape [[1]] and the result [x] of the unknown
    call has shape [[-1]]; analysing [y = a + x] then calls
    [_merge_classes 1 (-1)], after which both [a] and [x] are recorded
    with the new class 2, every [-1] having been rewritten, and class 2
    inherits [a]'s representative; class [-1] itself still has no entry in
    the class-size table. *)
Theorem unknown_class_is_merged :
  ∃ out1 s1 out2 s2,
    _analyze_block sample_config unknown_operand_prefix
      (init unknown_operand_types [] 0) = Ok out1 s1
    ∧ array_shape_classes s1 !! "a" = Some [1]
    ∧ array_shape_classes s1 !! "x" = Some [-1]
    ∧ _broadcast_and_match_shapes ["a"; "x"] s1
      = (c <- _merge_classes 1 (-1) ;; ret [c]) s1
    ∧ _analyze_inst sample_config unknown_operand_sum s1 = Ok out2 s2
    ∧ array_shape_classes s2 !! "a" = Some [2]
    ∧ array_shape_classes s2 !! "x" = Some [2]
    ∧ array_shape_classes s2 !! "y" = Some [2]
    ∧ class_sizes s2 !! 2 = Some [SVar "asize0.2"]
    ∧ class_sizes s2 !! (-1) = None.
Proof.
  eexists _, _, _, _.
  split; [vm_compute; reflexivity|].
  split; [vm_compute; reflexivity|].
  split; [vm_compute; reflexivity|].
  split; [vm_compute; reflexivity|].
  split; [vm_compute; reflexivity|].
  repeat split; vm_compute; reflexivity.
Qed.

(** ** Constructs without an inference rule *)

Lemma print_ok (d : diag) (s : state) :
  print d s = Ok tt (mkState (typemap s) (calltypes s) (next_eq_class s)
    (array_shape_classes s) (class_sizes s) (array_size_vars s)
    (numpy_globals s) (map_calls s) (numpy_calls s) (array_attr_calls s)
    (tuple_table s) (unique_var_count s) (printed s ++ [d])).
Proof. reflexivity. Qed.






(** ** Blocks *)

Lemma record_tables_typemap (lhs : string) (rhs : node)
    (s s1 : state) (u : unit) :
  record_tables lhs rhs s = Ok u s1 → typemap s1 = typemap s.
Proof.
  unfold record_tables.
  destruct rhs as [| |nm g|k|e|]; try (by intros [= _ <-]).
  - unfold bind. destruct (g_is_ufunc g); simpl;
      destruct (g_name g); try done;
      case_bool_decide; by intros [= _ <-].
  - destruct k; by intros [= _ <-].
  - destruct e; try (by intros [= _ <-]).
    unfold bind, get. case_bool_decide; [by intros [= _ <-]|].
    unfold _isarray, bind, get, dict_get.
    destruct (typemap s !! value) as [t|]; [|done]. simpl.
    destruct (is_array_ty t); by intros [= _ <-].
Qed.

Lemma block_loop_steps (cfg : config) (body acc out : list inst)
    (s s' : state) :
  block_loop cfg body acc s = Ok out s' →
  ∃ gens, block_steps cfg s body gens s' ∧ out = acc ++ interleave body gens.
Proof.
  revert acc s. induction body as [|i rest IH]; intros acc s; simpl.
  - intros [= <- <-]. exists []. split; [constructor|].
    unfold interleave. simpl. by rewrite app_nil_r.
  - unfold bind. destruct (_analyze_inst cfg i s) as [g s1|] eqn:Hi; [|done].
    intros (gens & Hsteps & ->)%IH.
    exists (g :: gens). split; [by econstructor|].
    unfold interleave. simpl. by rewrite <- !app_assoc.
Qed.

Lemma block_steps_length (cfg : config) (s s' : state) body gens :
  block_steps cfg s body gens s' → length gens = length body.
Proof. induction 1; simpl; congruence. Qed.

Lemma interleave_sublist (body : list inst) (gens : list (list inst)) :
  length gens = length body → sublist body (interleave body gens).
Proof.
  revert gens. induction body as [|i rest IH]; intros [|g gens] Hlen;
    try done.
  unfold interleave. simpl. apply sublist_skip.
  apply sublist_inserts_l. apply IH. simpl in Hlen. lia.
Qed.

(** C10.  When [_analyze_block] returns, the new body is the old body with
    the list each instruction generated put directly behind it, the lists
    being those [_analyze_inst] returned for the instructions in order; so
    the original instructions all occur, unchanged and in their order.  An
    instruction that is not an assignment generates nothing and leaves the
    state alone, and so does, as far as generated instructions go, an
    assignment whose target is typed as something other than an array. *)
Theorem analyze_block_frame (cfg : config) (body out : list inst)
    (s s' : state) :
  _analyze_block cfg body s = Ok out s' →
  (∃ gens,
     block_steps cfg s body gens s'
     ∧ length gens = length body
     ∧ out = interleave body gens
     ∧ sublist body out)
  ∧ (∀ kind st, _analyze_inst cfg (OtherInst kind) st = Ok [] st)
  ∧ (∀ rhs lhs st g st1,
       is_array_ty <$> typemap st !! lhs = Some false →
       _analyze_inst cfg (Assign rhs lhs) st = Ok g st1 → g = []).
Proof.
  intros Hrun. split; [|split].
  - apply block_loop_steps in Hrun as (gens & Hsteps & ->).
    pose proof (block_steps_length _ _ _ _ _ Hsteps) as Hlen.
    exists gens. repeat split; try done.
    by apply interleave_sublist.
  - done.
  - intros rhs lhs st g st1 Hty. simpl. unfold _analyze_assign, bind.
    destruct (record_tables lhs rhs st) as [[] st2|] eqn:Hrec; [|done].
    apply record_tables_typemap in Hrec.
    unfold _isarray, bind, get, dict_get. rewrite Hrec.
    destruct (typemap st !! lhs) as [t|]; [|done].
    simpl in *. injection Hty as ->. by intros [= <- _].
Qed.

(** ** Size materialization *)

Lemma gen_size_call_ok (cfg : config) (lhs : string) (i : nat) (s : state)
    (shp : list Z) :
  array_shape_classes s !! lhs = Some shp →
  _gen_size_call cfg lhs i s
  = Ok (size_call_nodes cfg lhs i (unique_var_count s))
       (after_size_call cfg lhs i (length shp) s).
Proof.
  intros Hs. unfold _gen_size_call.
  erewrite bind_ok; [|by apply get_ndims_ok]. reflexivity.
Qed.

Lemma set_size_var_ok (lhs : string) (i : nat) (v : sizeval)
    (l : list sizeval) (s : state) :
  array_size_vars s !! lhs = Some l → (i < length l)%nat →
  set_size_var lhs i v s
  = Ok tt (set_array_size_vars <[lhs := <[i := v]> l]> s).
Proof.
  intros Hl Hi. unfold set_size_var.
  erewrite bind_ok; [|reflexivity].
  erewrite bind_ok; [|by apply dict_get_ok].
  by destruct (decide (i < length l)%nat).
Qed.

(** One round of the loop that has to materialize the size. *)
Lemma size_loop_gen (cfg : config) (lhs : string) (i : nat) (corr : Z)
    (rest : list Z) (acc : list inst) (s : state) (shp : list Z)
    (l : list sizeval) :
  corr = -1 ∨ class_sizes s !! corr = None →
  array_shape_classes s !! lhs = Some shp →
  array_size_vars s !! lhs = Some l → (i < length l)%nat →
  let n := unique_var_count s in
  let v := SVar (size_var_name cfg lhs i n) in
  size_loop cfg lhs i (corr :: rest) acc s
  = size_loop cfg lhs (S i) rest (acc ++ size_call_nodes cfg lhs i n)
      (set_array_size_vars <[lhs := <[i := v]> l]>
         ((if bool_decide (corr = -1) then id
           else set_class_sizes <[corr := [v]]>)
            (after_size_call cfg lhs i (length shp) s))).
Proof.
  intros Hneed Hs Hl Hi n v. cbn [size_loop].
  erewrite bind_ok; [|reflexivity].
  assert (bool_decide (corr = -1) || bool_decide (class_sizes s !! corr = None)
          = true) as ->.
  { destruct Hneed as [->|Hnone]; [done|].
    rewrite (bool_decide_eq_true_2 _ Hnone). apply orb_true_r. }
  erewrite bind_ok; [|by apply gen_size_call_ok].
  erewrite bind_ok; [|reflexivity].
  erewrite bind_ok; [|reflexivity].
  destruct (bool_decide (corr = -1)).
  - erewrite bind_ok; [|reflexivity].
    erewrite bind_ok; [|by apply set_size_var_ok]. done.
  - erewrite bind_ok; [|reflexivity].
    erewrite bind_ok; [|by apply set_size_var_ok]. done.
Qed.

(** One round that finds the class backed: its first representative is
    reused; an entry with an empty list makes the index fail. *)
Lemma size_loop_reuse (cfg : config) (lhs : string) (i : nat) (corr : Z)
    (rest : list Z) (acc : list inst) (s : state) (reps : list sizeval)
    (l : list sizeval) :
  corr ≠ -1 → class_sizes s !! corr = Some reps →
  array_size_vars s !! lhs = Some l → (i < length l)%nat →
  size_loop cfg lhs i (corr :: rest) acc s
  = match reps with
    | x :: _ =>
        size_loop cfg lhs (S i) rest acc
          (set_array_size_vars <[lhs := <[i := x]> l]> s)
    | [] => Err IndexError
    end.
Proof.
  intros Hcorr Hreps Hl Hi. cbn [size_loop].
  erewrite bind_ok; [|reflexivity].
  assert (bool_decide (corr = -1) || bool_decide (class_sizes s !! corr = None)
          = false) as ->.
  { rewrite (bool_decide_eq_false_2 (corr = -1)) by done.
    rewrite bool_decide_eq_false_2; [done|]. by rewrite Hreps. }
  erewrite bind_ok; [|by apply dict_get_ok].
  destruct reps as [|x reps']; [done|].
  erewrite bind_ok; [|by apply (py_index_nat _ 0)].
  erewrite bind_ok; [|by apply set_size_var_ok]. done.
Qed.

Lemma take_S_eq {A} (l1 l2 : list A) (i : nat) :
  take (S i) l1 = take (S i) l2 → take i l1 = take i l2.
Proof.
  intros H.
  assert (take i (take (S i) l1) = take i (take (S i) l2)) as H' by congruence.
  rewrite !take_take in H'. by replace (i `min` S i)%nat with i in H' by lia.
Qed.

Lemma needs_size_call_step (cs cs1 : gmap Z (list sizeval)) (corr : Z)
    (earlier : list Z) (corr' : Z) :
  (cs1 = cs ∧ (corr = -1 ∨ is_Some (cs !! corr)))
  ∨ (corr ≠ -1 ∧ cs !! corr = None ∧ ∃ r, cs1 = <[corr := r]> cs) →
  needs_size_call cs (corr :: earlier) corr'
  ↔ needs_size_call cs1 earlier corr'.
Proof.
  unfold needs_size_call. rewrite not_elem_of_cons.
  intros [[-> [->|[r Hr]]]|(Hne & Hnone & r & ->)].
  - destruct (decide (corr' = -1)); tauto.
  - destruct (decide (corr' = corr)) as [->|]; [|tauto].
    rewrite Hr. split; (intros [?|[? ?]]; [by left|done]).
  - destruct (decide (corr' = corr)) as [->|].
    + rewrite lookup_insert_eq.
      split; (intros [?|[? ?]]; [by left|]); [tauto|done].
    + rewrite lookup_insert_ne by done. tauto.
Qed.

(** The loop of [_analyze_assign] from dimension [i0] on. *)
Lemma size_loop_spec (cfg : config) (lhs : string) (rest : list Z) :
  ∀ (i0 : nat) (acc : list inst) (s : state) (shp : list Z)
    (l : list sizeval) (calls : list inst) (s' : state),
  array_shape_classes s !! lhs = Some shp →
  array_size_vars s !! lhs = Some l →
  length l = (i0 + length rest)%nat →
  size_loop cfg lhs i0 rest acc s = Ok calls s' →
  ∃ gens l',
    calls = acc ++ concat gens ∧ length gens = length rest
    ∧ array_size_vars s' !! lhs = Some l' ∧ length l' = length l
    ∧ take i0 l' = take i0 l
    ∧ array_shape_classes s' = array_shape_classes s
    ∧ (∀ c r, class_sizes s !! c = Some r → class_sizes s' !! c = Some r)
    ∧ class_sizes s' !! (-1) = class_sizes s !! (-1)
    ∧ ∀ k corr, rest !! k = Some corr →
        ∃ g v, gens !! k = Some g ∧ l' !! (i0 + k)%nat = Some v
          ∧ (needs_size_call (class_sizes s) (take k rest) corr →
               ∃ n, g = size_call_nodes cfg lhs (i0 + k) n
                    ∧ v = SVar (size_var_name cfg lhs (i0 + k) n)
                    ∧ (corr ≠ -1 → class_sizes s' !! corr = Some [v]))
          ∧ (¬ needs_size_call (class_sizes s) (take k rest) corr →
               g = []
               ∧ ∃ reps, class_sizes s' !! corr = Some reps
                         ∧ head reps = Some v).
Proof.
  induction rest as [|corr rest IH]; intros i0 acc s shp l calls s' Hs Hl Hlen.
  { simpl. intros [= <- <-]. exists [], l. simpl. rewrite app_nil_r.
    repeat split; try done. }
  simpl in Hlen.
  destruct (decide (corr = -1 ∨ class_sizes s !! corr = None)) as [Hneed|Hback].
  - rewrite (size_loop_gen cfg lhs i0 corr rest acc s shp l) by (done || lia).
    cbv zeta.
    set (n := unique_var_count s).
    set (v := SVar (size_var_name cfg lhs i0 n)).
    set (s1 := set_array_size_vars _ _).
    intros Hrun.
    assert (array_shape_classes s1 = array_shape_classes s) as Hs1.
    { subst s1. by destruct (bool_decide (corr = -1)). }
    assert (array_size_vars s1 !! lhs = Some (<[i0 := v]> l)) as Hl1.
    { subst s1. simpl. by rewrite lookup_insert_eq. }
    assert ((class_sizes s1 = class_sizes s ∧ corr = -1)
            ∨ (corr ≠ -1 ∧ class_sizes s !! corr = None
               ∧ class_sizes s1 = <[corr := [v]]> (class_sizes s))) as Hcs1.
    { subst s1. destruct (bool_decide_reflect (corr = -1)); [by left|].
      right. repeat split; try done. tauto. }
    destruct (IH (S i0) (acc ++ size_call_nodes cfg lhs i0 n) s1 shp
                (<[i0 := v]> l) calls s')
      as (gens & l' & Hcalls & Hgl & Hl' & Hll & Htake & Hasc & Hmono & Hm1 & Hdims);
      [by rewrite Hs1|done|rewrite length_insert; lia|done|].
    exists (size_call_nodes cfg lhs i0 n :: gens), l'.
    assert (l' !! i0 = Some v) as Hv.
    { rewrite <- (lookup_take_lt l' (S i0) i0), Htake by lia.
      rewrite lookup_take_lt by lia. apply list_lookup_insert_eq. lia. }
    assert (∀ c r, class_sizes s !! c = Some r → class_sizes s1 !! c = Some r)
      as Hmono1.
    { intros c r Hc. destruct Hcs1 as [[-> _]|(? & Hnone & ->)]; [done|].
      rewrite lookup_insert_ne; [done|]. congruence. }
    split; [rewrite Hcalls; simpl; by rewrite <- app_assoc|].
    split; [simpl; congruence|].
    split; [done|]. split; [by rewrite Hll, length_insert|].
    split.
    { rewrite (take_S_eq _ _ _ Htake). apply take_insert_ge. lia. }
    split; [congruence|].
    split; [eauto|].
    split.
    { rewrite Hm1. destruct Hcs1 as [[-> _]|(? & _ & ->)]; [done|].
      by rewrite lookup_insert_ne. }
    intros [|k] corr' Hk.
    + simpl in Hk. injection Hk as <-.
      exists (size_call_nodes cfg lhs i0 n), v.
      rewrite Nat.add_0_r. split; [done|]. split; [done|].
      split.
      * intros _. exists n. repeat split; try done.
        intros Hne. apply Hmono.
        destruct Hcs1 as [[_ ?]|(_ & _ & ->)]; [done|].
        apply lookup_insert_eq.
      * intros Hno. exfalso. apply Hno. unfold needs_size_call. simpl.
        destruct Hneed; [by left|right]. split; [done|apply not_elem_of_nil].
    + simpl in Hk. destruct (Hdims k corr' Hk) as (g & v' & Hg & Hv' & Hyes & Hno).
      exists g, v'. rewrite Nat.add_succ_r. split; [done|]. split; [done|].
      assert (needs_size_call (class_sizes s) (corr :: take k rest) corr'
              ↔ needs_size_call (class_sizes s1) (take k rest) corr') as Hiff.
      { apply needs_size_call_step.
        destruct Hcs1 as [[-> ->]|(? & ? & ->)]; [left|right]; eauto. }
      simpl take. rewrite Hiff. split; [done|done].
  - assert (corr ≠ -1) as Hne by tauto.
    destruct (class_sizes s !! corr) as [reps|] eqn:Hreps; [|tauto].
    rewrite (size_loop_reuse cfg lhs i0 corr rest acc s reps l)
      by (done || lia).
    destruct reps as [|x reps']; [done|].
    set (s1 := set_array_size_vars _ _).
    intros Hrun.
    destruct (IH (S i0) acc s1 shp (<[i0 := x]> l) calls s')
      as (gens & l' & Hcalls & Hgl & Hl' & Hll & Htake & Hasc & Hmono & Hm1 & Hdims);
      [done|subst s1; simpl; by rewrite lookup_insert_eq
       |rewrite length_insert; lia|done|].
    exists ([] :: gens), l'.
    assert (l' !! i0 = Some x) as Hv.
    { rewrite <- (lookup_take_lt l' (S i0) i0), Htake by lia.
      rewrite lookup_take_lt by lia. apply list_lookup_insert_eq. lia. }
    split; [done|]. split; [simpl; congruence|].
    split; [done|]. split; [by rewrite Hll, length_insert|].
    split.
    { rewrite (take_S_eq _ _ _ Htake). apply take_insert_ge. lia. }
    split; [done|]. split; [done|]. split; [done|].
    intros [|k] corr' Hk.
    + simpl in Hk. injection Hk as <-.
      exists [], x. rewrite Nat.add_0_r. split; [done|]. split; [done|].
      split.
      * intros [?|[? _]]; congruence.
      * intros _. split; [done|]. exists (x :: reps'). split; [|done].
        by apply Hmono.
    + simpl in Hk. destruct (Hdims k corr' Hk) as (g & v' & Hg & Hv' & Hyes & Hno).
      exists g, v'. rewrite Nat.add_succ_r. split; [done|]. split; [done|].
      assert (needs_size_call (class_sizes s) (corr :: take k rest) corr'
              ↔ needs_size_call (class_sizes s1) (take k rest) corr') as Hiff.
      { apply needs_size_call_step. left. split; [done|]. right. by eexists. }
      simpl take. rewrite Hiff. split; [done|done].
Qed.

(** ** Assignments to arrays *)

(** [_analyze_assign] once the tables are updated and the right-hand side
    is analysed. *)
Lemma analyze_assign_array (cfg : config) (rhs : node) (lhs : string)
    (s s1 s2 : state) (corrs : list Z) :
  record_tables lhs rhs s = Ok tt s1 →
  is_array_ty <$> typemap s1 !! lhs = Some true →
  _analyze_rhs_classes cfg rhs s1 = Ok corrs s2 →
  _analyze_assign cfg rhs lhs s
  = match array_shape_classes s2 !! lhs with
    | Some old =>
        if decide (old = corrs)
        then size_loop cfg lhs 0 corrs [] (start_sizes lhs corrs s2)
        else Ok [] (downgraded lhs (length old) s2)
    | None => size_loop cfg lhs 0 corrs [] (start_sizes lhs corrs s2)
    end.
Proof.
  intros Hrec Hty Hrhs. unfold _analyze_assign.
  erewrite bind_ok; [|exact Hrec].
  destruct (typemap s1 !! lhs) as [t|] eqn:Ht; [|done].
  simpl in Hty. injection Hty as Hty.
  erewrite bind_ok; [|by apply isarray_typed]. rewrite Hty.
  erewrite bind_ok; [|exact Hrhs].
  erewrite bind_ok; [|reflexivity].
  assert (∀ st, (modify (set_array_shape_classes <[lhs := corrs]>) >>
                 n <- _get_ndims lhs ;;
                 modify (set_array_size_vars
                           <[lhs := replicate n (SConst (KInt (-1)))]>) >>
                 size_loop cfg lhs 0 corrs []) st
                = size_loop cfg lhs 0 corrs [] (start_sizes lhs corrs st))
    as Hstart.
  { intros st. erewrite bind_ok; [|reflexivity].
    erewrite bind_ok; [|apply get_ndims_ok; simpl; apply lookup_insert_eq].
    erewrite bind_ok; [|reflexivity]. done. }
  destruct (array_shape_classes s2 !! lhs) as [old|] eqn:Hold;
    [|apply Hstart].
  destruct (decide (old = corrs)) as [->|Hne].
  - rewrite bool_decide_eq_true_2 by done. apply Hstart.
  - rewrite bool_decide_eq_false_2 by done.
    change (negb false) with true. cbv iota.
    erewrite bind_ok; [|by apply get_ndims_ok].
    reflexivity.
Qed.

Lemma needs_size_call_dec (cs : gmap Z (list sizeval)) (earlier : list Z)
    (corr : Z) :
  needs_size_call cs earlier corr ∨ ¬ needs_size_call cs earlier corr.
Proof.
  unfold needs_size_call.
  destruct (decide (corr = -1)); [by left; left|].
  destruct (cs !! corr); [right; intros [?|[? _]]; done|].
  destruct (decide (corr ∈ earlier)); [right|left]; tauto.
Qed.

(** C4.  For an array-typed assignment recorded without conflict, the
    instructions returned are the concatenation of one list per dimension
    of the inferred shape.  The list of a dimension is nonempty if and only
    if its class is [-1] or had no class-size entry when the dimension was
    reached (none before the assignment and not set by an earlier dimension
    of the same class); it is then the three instructions that read the
    target's shape attribute, bind the dimension index and select that
    element into a new variable, which becomes the dimension's size
    variable and, unless the class is [-1], the only representative of the
    class.  Otherwise nothing is emitted and the dimension's size variable
    is the first representative of the class, unchanged by the loop.  Class
    [-1] gets no entry. *)
Theorem size_materialization_spec (cfg : config) (rhs : node) (lhs : string)
    (s s1 s2 s' : state) (corrs : list Z) (calls : list inst) :
  record_tables lhs rhs s = Ok tt s1 →
  is_array_ty <$> typemap s1 !! lhs = Some true →
  _analyze_rhs_classes cfg rhs s1 = Ok corrs s2 →
  array_shape_classes s2 !! lhs = None
  ∨ array_shape_classes s2 !! lhs = Some corrs →
  _analyze_assign cfg rhs lhs s = Ok calls s' →
  ∃ gens sizes,
    calls = concat gens ∧ length gens = length corrs
    ∧ array_shape_classes s' !! lhs = Some corrs
    ∧ array_size_vars s' !! lhs = Some sizes
    ∧ length sizes = length corrs
    ∧ class_sizes s' !! (-1) = class_sizes s2 !! (-1)
    ∧ ∀ i corr, corrs !! i = Some corr →
        ∃ g v, gens !! i = Some g ∧ sizes !! i = Some v
          ∧ (g ≠ [] ↔ needs_size_call (class_sizes s2) (take i corrs) corr)
          ∧ (needs_size_call (class_sizes s2) (take i corrs) corr →
               ∃ n, g = size_call_nodes cfg lhs i n
                    ∧ v = SVar (size_var_name cfg lhs i n)
                    ∧ (corr ≠ -1 → class_sizes s' !! corr = Some [v]))
          ∧ (¬ needs_size_call (class_sizes s2) (take i corrs) corr →
               g = []
               ∧ (∃ reps, class_sizes s' !! corr = Some reps
                          ∧ head reps = Some v)
               ∧ (∀ reps0, class_sizes s2 !! corr = Some reps0 →
                           head reps0 = Some v)).
Proof.
  intros Hrec Hty Hrhs Hnoconf.
  rewrite (analyze_assign_array cfg rhs lhs s s1 s2 corrs) by done.
  assert (size_loop cfg lhs 0 corrs [] (start_sizes lhs corrs s2)
          = Ok calls s' →
          ∃ gens sizes,
            calls = concat gens ∧ length gens = length corrs
            ∧ array_shape_classes s' !! lhs = Some corrs
            ∧ array_size_vars s' !! lhs = Some sizes
            ∧ length sizes = length corrs
            ∧ class_sizes s' !! (-1) = class_sizes s2 !! (-1)
            ∧ ∀ i corr, corrs !! i = Some corr →
                ∃ g v, gens !! i = Some g ∧ sizes !! i = Some v
                  ∧ (g ≠ [] ↔ needs_size_call (class_sizes s2) (take i corrs) corr)
                  ∧ (needs_size_call (class_sizes s2) (take i corrs) corr →
                       ∃ n, g = size_call_nodes cfg lhs i n
                            ∧ v = SVar (size_var_name cfg lhs i n)
                            ∧ (corr ≠ -1 → class_sizes s' !! corr = Some [v]))
                  ∧ (¬ needs_size_call (class_sizes s2) (take i corrs) corr →
                       g = []
                       ∧ (∃ reps, class_sizes s' !! corr = Some reps
                                  ∧ head reps = Some v)
                       ∧ (∀ reps0, class_sizes s2 !! corr = Some reps0 →
                                   head reps0 = Some v))) as Hloop.
  { intros Hrun.
    destruct (size_loop_spec cfg lhs corrs 0 [] (start_sizes lhs corrs s2)
                corrs (replicate (length corrs) (SConst (KInt (-1))))
                calls s')
      as (gens & sizes & Hcalls & Hgl & Hsz & Hlen & _ & Hasc & Hmono & Hm1 & Hdims);
      [apply lookup_insert_eq|apply lookup_insert_eq
       |by rewrite length_replicate|done|].
    exists gens, sizes.
    split; [done|]. split; [done|].
    split; [rewrite Hasc; apply lookup_insert_eq|].
    split; [done|]. split; [by rewrite Hlen, length_replicate|].
    split; [done|].
    intros i corr Hi.
    destruct (Hdims i corr Hi) as (g & v & Hg & Hv & Hyes & Hno).
    exists g, v. simpl in *. split; [done|]. split; [done|].
    split; [|split; [done|]].
    - destruct (needs_size_call_dec (class_sizes s2) (take i corrs) corr)
        as [Hn|Hn].
      + destruct (Hyes Hn) as (n & -> & _). split; [done|]. by intros _.
      + destruct (Hno Hn) as [-> _]. split; [done|]. by intros ?.
    - intros Hn. destruct (Hno Hn) as (-> & reps & Hreps & Hhead).
      split; [done|]. split; [eauto|].
      intros reps0 Hreps0. apply Hmono in Hreps0. congruence. }
  destruct Hnoconf as [->| ->]; [exact Hloop|].
  destruct (decide (corrs = corrs)); [exact Hloop|done].
Qed.

(** C5.  When the target already has a recorded shape [old] and the
    right-hand side is inferred to have the shape [new]: if the two differ,
    [_analyze_assign] returns no instructions and leaves the target with a
    shape of [length old] entries [-1], without size variables, with the
    diagnostic written and nothing raised; if they are equal, the recorded
    shape is still [old] whenever the size loop completes.  In a block that
    assigns to [v], recorded as [[cX, cY]], a variable of shape [[cX, cZ]]
    with [cY] and [cZ] different, the run completes, [v] ends with the shape
    [[-1, -1]] and has no size variables. *)
Theorem shape_conflict_spec (cfg : config) (rhs : node) (lhs : string)
    (s s1 s2 : state) (new old : list Z) :
  record_tables lhs rhs s = Ok tt s1 →
  is_array_ty <$> typemap s1 !! lhs = Some true →
  _analyze_rhs_classes cfg rhs s1 = Ok new s2 →
  array_shape_classes s2 !! lhs = Some old →
  (old ≠ new →
     _analyze_assign cfg rhs lhs s = Ok [] (downgraded lhs (length old) s2)
     ∧ array_shape_classes (downgraded lhs (length old) s2) !! lhs
       = Some (replicate (length old) (-1))
     ∧ array_size_vars (downgraded lhs (length old) s2) !! lhs = None
     ∧ printed (downgraded lhs (length old) s2)
       = printed s2 ++ [IncompatibleShapes])
  ∧ (old = new → ∀ calls s',
       _analyze_assign cfg rhs lhs s = Ok calls s' →
       array_shape_classes s' !! lhs = Some old)
  ∧ (∀ (cX cY cZ key : Z) (q v : string) (st : state),
       cY ≠ cZ →
       is_array_ty <$> typemap st !! v = Some true →
       array_shape_classes st !! v = Some [cX; cY] →
       array_shape_classes st !! q = Some [cX; cZ] →
       ∃ st',
         run cfg [(key, [Assign (Var q) v])] st
         = Ok [(key, [Assign (Var q) v])] st'
         ∧ array_shape_classes st' !! v = Some [-1; -1]
         ∧ array_size_vars st' !! v = None).
Proof.
  intros Hrec Hty Hrhs Hold.
  pose proof (analyze_assign_array cfg rhs lhs s s1 s2 new Hrec Hty Hrhs)
    as Hassign.
  rewrite Hold in Hassign.
  split; [|split].
  - intros Hne. destruct (decide (old = new)); [done|].
    split; [done|]. unfold downgraded. simpl.
    split; [apply lookup_insert_eq|]. split; [apply lookup_delete_eq|done].
  - intros <- calls s'. rewrite Hassign.
    destruct (decide (old = old)); [|done]. intros Hrun.
    destruct (size_loop_spec cfg lhs old 0 [] (start_sizes lhs old s2)
                old (replicate (length old) (SConst (KInt (-1))))
                calls s')
      as (_ & _ & _ & _ & _ & _ & _ & Hasc & _);
      [apply lookup_insert_eq|apply lookup_insert_eq
       |by rewrite length_replicate|done|].
    rewrite Hasc. apply lookup_insert_eq.
  - intros cX cY cZ key q v st HYZ Hv Hvs Hqs.
    exists (downgraded v 2 st).
    assert (_analyze_assign cfg (Var q) v st = Ok [] (downgraded v 2 st))
      as Hconf.
    { rewrite (analyze_assign_array cfg (Var q) v st st st [cX; cZ]);
        [|done|done|by apply shape_of_ok].
      rewrite Hvs. destruct (decide ([cX; cY] = [cX; cZ])); [congruence|done]. }
    split.
    + simpl. unfold _analyze_block. simpl. unfold bind.
      by rewrite Hconf.
    + unfold downgraded. simpl.
      split; [apply lookup_insert_eq|apply lookup_delete_eq].
Qed.

(** The two-block scenario run from the initial state. *)
Example conflict_two_blocks :
  ∃ out s',
    run sample_config conflict_blocks (init conflict_types [] 0) = Ok out s'
    ∧ array_shape_classes s' !! "p" = Some [1; 5]
    ∧ array_shape_classes s' !! "w" = Some [1; 4]
    ∧ array_shape_classes s' !! "v" = Some [-1; -1]
    ∧ array_size_vars s' !! "v" = None
    ∧ printed s' = [IncompatibleShapes].
Proof.
  eexists _, _. split; [vm_compute; reflexivity|].
  repeat split; vm_compute; reflexivity.
Qed.

(** The size loop returns unless it meets a class whose class-size entry
    is an empty list. *)
Lemma size_loop_completes (cfg : config) (lhs : string) (rest : list Z) :
  ∀ (i0 : nat) (acc : list inst) (s : state) (shp : list Z)
    (l : list sizeval),
  array_shape_classes s !! lhs = Some shp →
  array_size_vars s !! lhs = Some l →
  length l = (i0 + length rest)%nat →
  (∀ c, c ∈ rest → c ≠ -1 → class_sizes s !! c ≠ Some []) →
  ∃ calls s', size_loop cfg lhs i0 rest acc s = Ok calls s'.
Proof.
  induction rest as [|corr rest IH]; intros i0 acc s shp l Hs Hl Hlen Hne.
  { by eexists _, _. }
  simpl in Hlen.
  destruct (decide (corr = -1 ∨ class_sizes s !! corr = None)) as [Hneed|Hback].
  - rewrite (size_loop_gen cfg lhs i0 corr rest acc s shp l) by (done || lia).
    cbv zeta. eapply (IH (S i0) _ _ shp).
    + by destruct (bool_decide (corr = -1)).
    + simpl. apply lookup_insert_eq.
    + rewrite length_insert. lia.
    + intros c Hc Hc1. simpl.
      destruct (bool_decide_reflect (corr = -1)); simpl.
      * apply Hne; [by right|done].
      * destruct (decide (c = corr)) as [->|].
        -- by rewrite lookup_insert_eq.
        -- rewrite lookup_insert_ne by done. apply Hne; [by right|done].
  - assert (corr ≠ -1) as Hc1 by tauto.
    destruct (class_sizes s !! corr) as [reps|] eqn:Hreps; [|tauto].
    rewrite (size_loop_reuse cfg lhs i0 corr rest acc s reps l)
      by (done || lia).
    destruct reps as [|x reps'].
    { exfalso. apply (Hne corr); [by left|done|done]. }
    eapply (IH (S i0) _ _ shp).
    + done.
    + simpl. apply lookup_insert_eq.
    + rewrite length_insert. lia.
    + intros c Hc Hc1'. simpl. apply Hne; [by right|done].
Qed.

(** X4.  An assignment recorded without conflict returns when no class of
    the inferred shape has an empty class-size entry. *)
Lemma analyze_assign_completes (cfg : config) (rhs : node) (lhs : string)
    (s s1 s2 : state) (corrs : list Z) :
  record_tables lhs rhs s = Ok tt s1 →
  is_array_ty <$> typemap s1 !! lhs = Some true →
  _analyze_rhs_classes cfg rhs s1 = Ok corrs s2 →
  array_shape_classes s2 !! lhs = None
  ∨ array_shape_classes s2 !! lhs = Some corrs →
  (∀ c, c ∈ corrs → c ≠ -1 → class_sizes s2 !! c ≠ Some []) →
  ∃ calls s', _analyze_assign cfg rhs lhs s = Ok calls s'.
Proof.
  intros Hrec Hty Hrhs Hnoconf Hne.
  rewrite (analyze_assign_array cfg rhs lhs s s1 s2 corrs) by done.
  assert (∃ calls s',
            size_loop cfg lhs 0 corrs [] (start_sizes lhs corrs s2)
            = Ok calls s') as Hloop.
  { eapply (size_loop_completes cfg lhs corrs 0 [] _ corrs).
    - apply lookup_insert_eq.
    - apply lookup_insert_eq.
    - by rewrite length_replicate.
    - done. }
  destruct Hnoconf as [->| ->]; [exact Hloop|].
  by destruct (decide (corrs = corrs)).
Qed.

(** ** What every run keeps *)

Section Preserves.
Context (P : state → Prop).

Lemma preserves_ret {A} (a : A) : preserves P (ret a).
Proof. by intros s a' s' HP [= _ <-]. Qed.

Lemma preserves_raise {A} (e : exn) : preserves P (@raise A e).
Proof. by intros s a s' HP. Qed.

Lemma preserves_get : preserves P get.
Proof. by intros s a s' HP [= _ <-]. Qed.

Lemma preserves_bind {A B} (m : M A) (k : A → M B) :
  preserves P m → (∀ a, preserves P (k a)) → preserves P (bind m k).
Proof.
  intros Hm Hk s b s' HP. unfold bind.
  destruct (m s) as [a s1|] eqn:Hms; [|done].
  intros Hks. eapply Hk; [|exact Hks]. by eapply Hm.
Qed.

Lemma preserves_modify (f : state → state) :
  (∀ s, P s → P (f s)) → preserves P (modify f).
Proof. intros Hf s a s' HP [= _ <-]. by apply Hf. Qed.

Lemma preserves_assert (b : bool) : preserves P (assert b).
Proof. destruct b; [apply preserves_ret|apply preserves_raise]. Qed.

Lemma preserves_dict_get {K} `{Countable K} {V} (d : gmap K V) (k : K) :
  preserves P (dict_get d k).
Proof.
  unfold dict_get. destruct (d !! k); [apply preserves_ret|apply preserves_raise].
Qed.

Lemma preserves_py_index {A} (l : list A) (i : Z) : preserves P (py_index l i).
Proof.
  unfold py_index. case_decide; [|apply preserves_raise].
  destruct (l !! _); [apply preserves_ret|apply preserves_raise].
Qed.

Lemma preserves_mapM {A B} (f : A → M B) (l : list A) :
  (∀ x, preserves P (f x)) → preserves P (mapM f l).
Proof.
  intros Hf. induction l as [|x l IH]; simpl; [apply preserves_ret|].
  apply preserves_bind; [done|]. intros y.
  apply preserves_bind; [done|]. intros ys. apply preserves_ret.
Qed.

Lemma preserves_for_each {A} (l : list A) (body : A → M unit) :
  (∀ x, preserves P (body x)) → preserves P (for_each l body).
Proof.
  intros Hb. induction l as [|x l IH]; simpl; [apply preserves_ret|].
  apply preserves_bind; [done|]. by intros _.
Qed.

End Preserves.

(** Steps through a computation built from the monad's operations, leaving
    the state updates and the calls of other methods as goals. *)
Ltac pres_step :=
  first
    [ apply preserves_ret
    | apply preserves_raise
    | apply preserves_get
    | apply preserves_assert
    | apply preserves_dict_get
    | apply preserves_py_index
    | apply preserves_bind; [|intros ?]
    | apply preserves_mapM; intros ?
    | apply preserves_for_each; intros ?
    | apply preserves_modify; intros ? ?
    | match goal with
      | |- preserves _ (if ?b then _ else _) => destruct b
      | |- preserves _ (match ?x with _ => _ end) => destruct x
      end ].
Ltac pres := repeat pres_step.

(** *** Class [-1] never gets a class-size entry *)

Create HintDb nue discriminated.

Ltac nue_state :=
  match goal with
  | H : no_unknown_entry _ |- no_unknown_entry _ =>
      destruct H as [? ?]; split; simpl; try done; try lia
  end.

Ltac nue :=
  repeat first [ solve [auto with nue] | pres_step ]; try nue_state.

Lemma nue_isarray (a : string) : preserves no_unknown_entry (_isarray a).
Proof. unfold _isarray. nue. Qed.

Lemma nue_get_next_class : preserves no_unknown_entry _get_next_class.
Proof. unfold _get_next_class. nue. Qed.

Lemma nue_get_ndims (a : string) : preserves no_unknown_entry (_get_ndims a).
Proof. unfold _get_ndims. nue. Qed.

Lemma nue_shape_of (a : string) : preserves no_unknown_entry (shape_of a).
Proof. unfold shape_of. nue. Qed.

Lemma nue_arg_name (a : callarg) : preserves no_unknown_entry (arg_name a).
Proof. unfold arg_name. nue. Qed.

#[local] Hint Resolve nue_isarray nue_get_next_class nue_get_ndims
  nue_shape_of nue_arg_name : nue.

Lemma nue_merge_classes (c1 c2 : Z) :
  preserves no_unknown_entry (_merge_classes c1 c2).
Proof.
  intros s c s' [Hm1 Hpos].
  destruct (decide (c1 = c2)) as [->|Hne].
  - rewrite merge_eq. by intros [= _ <-].
  - rewrite merge_ne by done. intros [= _ <-].
    split; [|simpl; lia]. unfold merged. simpl.
    rewrite lookup_insert_ne by lia.
    rewrite !lookup_delete. repeat case_decide; done.
Qed.

Lemma nue_add_array_corr (a : string) :
  preserves no_unknown_entry (_add_array_corr a).
Proof. unfold _add_array_corr. nue. Qed.

#[local] Hint Resolve nue_merge_classes nue_add_array_corr : nue.

Lemma nue_classes_from_tuple (shape_arg : string) (idx : list nat)
    (out_eqs : list Z) :
  preserves no_unknown_entry (classes_from_tuple shape_arg idx out_eqs).
Proof.
  revert out_eqs. induction idx as [|i idx IH]; intros out_eqs; simpl.
  { nue. }
  intros s r s' [Hm1 Hpos]. unfold bind at 1. rewrite get_next_class_ok.
  match goal with
  | |- ?m ?s0 = Ok _ _ → _ =>
      intros Hrun;
      enough (preserves no_unknown_entry m) as Hk
        by (eapply Hk; [|exact Hrun]; split; simpl; [done|lia])
  end.
  pres; [|apply IH].
  nue_state. by rewrite lookup_insert_ne by lia.
Qed.

#[local] Hint Resolve nue_classes_from_tuple : nue.

Lemma nue_get_classes_from_shape (shape_arg : string) :
  preserves no_unknown_entry (_get_classes_from_shape shape_arg).
Proof. unfold _get_classes_from_shape. nue. Qed.

Lemma nue_match_dim (i : nat) (es : list (list Z)) (c : Z) :
  preserves no_unknown_entry (match_dim i es c).
Proof. revert c. induction es as [|e es IH]; intros c; simpl; nue. Qed.

#[local] Hint Resolve nue_get_classes_from_shape nue_match_dim : nue.

Lemma nue_match_dims (idx : list nat) (eqs : list (list Z))
    (out_eq : list Z) :
  preserves no_unknown_entry (match_dims idx eqs out_eq).
Proof.
  revert out_eq. induction idx as [|i idx IH]; intros out_eq; simpl; nue.
Qed.

#[local] Hint Resolve nue_match_dims : nue.

Lemma nue_py_max (l : list nat) : preserves no_unknown_entry (py_max l).
Proof. unfold py_max. nue. Qed.

#[local] Hint Resolve nue_py_max : nue.

Lemma nue_broadcast (args : list string) :
  preserves no_unknown_entry (_broadcast_and_match_shapes args).
Proof. unfold _broadcast_and_match_shapes. nue. Qed.

#[local] Hint Resolve nue_broadcast : nue.

Lemma nue_print (d : diag) : preserves no_unknown_entry (print d).
Proof. unfold print. nue. Qed.

#[local] Hint Resolve nue_print : nue.

Lemma nue_analyze_np_call (cfg : config) (call_name : string)
    (args : list callarg) :
  preserves no_unknown_entry (_analyze_np_call cfg call_name args).
Proof. unfold _analyze_np_call. nue. Qed.

#[local] Hint Resolve nue_analyze_np_call : nue.

Lemma nue_analyze_rhs_classes (cfg : config) (n : node) :
  preserves no_unknown_entry (_analyze_rhs_classes cfg n).
Proof. unfold _analyze_rhs_classes. nue. Qed.

Lemma nue_gen_size_call (cfg : config) (var : string) (i : nat) :
  preserves no_unknown_entry (_gen_size_call cfg var i).
Proof. unfold _gen_size_call, mk_unique_var. nue. Qed.

Lemma nue_set_size_var (lhs : string) (i : nat) (v : sizeval) :
  preserves no_unknown_entry (set_size_var lhs i v).
Proof. unfold set_size_var. nue. Qed.

Lemma nue_record_tables (lhs : string) (rhs : node) :
  preserves no_unknown_entry (record_tables lhs rhs).
Proof. unfold record_tables. nue. Qed.

#[local] Hint Resolve nue_analyze_rhs_classes nue_gen_size_call
  nue_set_size_var nue_record_tables : nue.

Lemma nue_size_loop (cfg : config) (lhs : string) (corrs : list Z) :
  ∀ (i : nat) (acc : list inst),
    preserves no_unknown_entry (size_loop cfg lhs i corrs acc).
Proof.
  induction corrs as [|corr corrs IH]; intros i acc; cbn [size_loop].
  { nue. }
  apply preserves_bind; [apply preserves_get|]. intros s0.
  destruct (bool_decide (corr = -1) || bool_decide (class_sizes s0 !! corr = None)).
  - apply preserves_bind; [apply nue_gen_size_call|]. intros nodes.
    apply preserves_bind; [apply preserves_py_index|]. intros last.
    apply preserves_bind; [destruct last; nue|]. intros size_var.
    apply preserves_bind.
    { destruct (bool_decide_reflect (corr = -1)); [nue|].
      apply preserves_modify. intros s [Hm1 Hpos]. split; simpl; [|done].
      by rewrite lookup_insert_ne. }
    intros _. apply preserves_bind; [apply nue_set_size_var|].
    intros _. apply IH.
  - nue.
Qed.

#[local] Hint Resolve nue_size_loop : nue.

Lemma nue_analyze_assign (cfg : config) (rhs : node) (lhs : string) :
  preserves no_unknown_entry (_analyze_assign cfg rhs lhs).
Proof. unfold _analyze_assign. nue. Qed.

Lemma nue_analyze_inst (cfg : config) (i : inst) :
  preserves no_unknown_entry (_analyze_inst cfg i).
Proof. destruct i; simpl; [apply nue_analyze_assign|nue]. Qed.

Lemma nue_block_loop (cfg : config) (body : list inst) :
  ∀ acc, preserves no_unknown_entry (block_loop cfg body acc).
Proof.
  induction body as [|i body IH]; intros acc; simpl; [nue|].
  apply preserves_bind; [apply nue_analyze_inst|]. intros g. apply IH.
Qed.

Lemma nue_run (cfg : config) (blocks : list (Z * list inst)) :
  preserves no_unknown_entry (run cfg blocks).
Proof.
  induction blocks as [|[key body] blocks IH]; simpl; [nue|].
  apply preserves_bind; [apply nue_block_loop|]. intros body'.
  apply preserves_bind; [exact IH|]. intros rest'. nue.
Qed.

(** X1.  From the initial state of the analysis object, a run that returns
    leaves class [-1] without a class-size entry, whatever the function. *)
Theorem unknown_class_never_backed (cfg : config) (tm : gmap string ty)
    (ct : list expr) (uniq : nat) (blocks out : list (Z * list inst))
    (s' : state) :
  run cfg blocks (init tm ct uniq) = Ok out s' →
  class_sizes s' !! (-1) = None.
Proof.
  intros Hrun.
  assert (no_unknown_entry (init tm ct uniq)) as Hinit.
  { split; [|done]. simpl. by rewrite lookup_singleton_ne. }
  by destruct (nue_run cfg blocks _ _ _ Hinit Hrun).
Qed.

(** ** Further rules *)

(** X2.  [empty], [zeros] and [ones] with a shape argument typed as a tuple of
    [count] elements that the tuple table resolves: the result has one
    newly allocated class per element, in allocation order, each backed by
    exactly the tuple element at its position; older classes keep their
    entries. *)
Theorem tuple_shape_argument_spec (cfg : config) (s : state)
    (call_name shape_arg : string) (rest : list callarg) (count : nat)
    (t : list sizeval) :
  call_name ∈ ["empty"; "zeros"; "ones"] →
  typemap s !! shape_arg = Some (TUniTuple count) →
  tuple_table s !! shape_arg = Some t →
  (count ≤ length t)%nat →
  ∃ s',
    _analyze_np_call cfg call_name (AVar shape_arg :: rest) s
    = Ok ((λ j, next_eq_class s + Z.of_nat j) <$> seq 0 count) s'
    ∧ next_eq_class s' = next_eq_class s + Z.of_nat count
    ∧ (∀ j, (j < count)%nat →
         class_sizes s' !! (next_eq_class s + Z.of_nat j)
         = (λ x, [x]) <$> t !! j)
    ∧ (∀ c, c < next_eq_class s → class_sizes s' !! c = class_sizes s !! c).
Proof.
  intros Hname Hty Ht Hlen.
  destruct (classes_from_tuple_spec shape_arg t count 0 [] s Ht Hlen)
    as (s' & Hrun & Hnext & _ & Hnew & Hold).
  exists s'. split; [|by repeat split].
  rewrite creation_dispatch by done.
  erewrite bind_ok; [|by apply (py_index_nat _ 0)].
  erewrite bind_ok; [|done].
  unfold _get_classes_from_shape.
  erewrite bind_ok; [|reflexivity].
  erewrite bind_ok; [|by apply dict_get_ok].
  cbv beta iota.
  erewrite bind_ok; [|reflexivity]. exact Hrun.
Qed.

(** X3.  The transpose rules reverse the operand's shape vector and leave the
    state alone, both for the attribute [T] and for the call; transposing
    the result gives back the original vector. *)
Theorem transpose_shape_spec (cfg : config) (s : state) (a : string)
    (l : list Z) :
  is_array_ty <$> typemap s !! a = Some true →
  array_shape_classes s !! a = Some l →
  _analyze_rhs_classes cfg (Expr (EGetattr a "T")) s = Ok (reverse l) s
  ∧ (∀ rest, _analyze_np_call cfg "transpose" (AVar a :: rest) s
             = Ok (reverse l) s)
  ∧ (∀ t s1 rest, array_shape_classes s1 !! t = Some (reverse l) →
       _analyze_np_call cfg "transpose" (AVar t :: rest) s1 = Ok l s1).
Proof.
  intros Hty Hl.
  assert (∀ t s1 rest k, array_shape_classes s1 !! t = Some k →
            _analyze_np_call cfg "transpose" (AVar t :: rest) s1
            = Ok (reverse k) s1) as Hcall.
  { intros t s1 rest k Hk.
    change (_analyze_np_call cfg "transpose" (AVar t :: rest))
      with (a0 <- py_index (AVar t :: rest) 0 ;; n0 <- arg_name a0 ;;
            out_eqs <- shape_of n0 ;; ret (reverse out_eqs)).
    erewrite bind_ok; [|by apply (py_index_nat _ 0)].
    erewrite bind_ok; [|done].
    erewrite bind_ok; [|by apply shape_of_ok]. done. }
  split; [|split].
  - destruct (typemap s !! a) as [ty|] eqn:Ht; [|done].
    simpl in Hty. injection Hty as Hty.
    simpl. erewrite bind_ok; [|by apply isarray_typed]. rewrite Hty.
    by apply Hcall.
  - intros rest. by apply Hcall.
  - intros t s1 rest Ht. rewrite (Hcall t s1 rest _ Ht).
    by rewrite reverse_involutive.
Qed.

(** Broadcasting a rank-2 parameter with its own transpose stops the run:
    the second dimension is matched on the vectors copied before the first
    dimension's merge, so classes 2 and 1, both already merged away, are
    merged again into a class with an empty class-size entry, and indexing
    that entry for the target's size variable raises [IndexError]. *)
Example self_transpose_run :
  run sample_config self_transpose_blocks (init self_transpose_types [] 0)
  = Err IndexError.
Proof. vm_compute. reflexivity. Qed.

(** * Instances on sample inputs *)

(** Broadcasting the operands [p] and [u] of the two-block sample after
    the product. *)
Lemma broadcast_witness :
  ∃ out s',
    _broadcast_and_match_shapes ["p"; "u"] conflict_state = Ok out s'
    ∧ length out = max_list (length <$> [[1; 5]; [5; 4]])
    ∧ spec_broadcast [[1; 5]; [5; 4]] conflict_state = Ok out s'
    ∧ (∀ c_a c_b, [[1; 5]; [5; 4]] = [[c_a; 0]; [0; c_b]] →
         c_a ≠ 0 → c_b ≠ 0 → out = [c_a; c_b] ∧ s' = conflict_state).
Proof.
  apply (broadcast_and_match_shapes_spec conflict_state ["p"; "u"]
           [[1; 5]; [5; 4]]).
  - discriminate.
  - repeat constructor; vm_compute; reflexivity.
Defined.


(** [np.dot(p, u)] for [p] of shape [[1, 2]] and [u] of shape [[3, 4]]. *)
Lemma dot_shape_witness :
  ∃ s', _analyze_np_call sample_config "dot" [AVar "p"; AVar "u"] product_state
        = Ok [1; 4] s'
        ∧ array_shape_classes s' !! "p" = Some [1; 5]
        ∧ array_shape_classes s' !! "u" = Some [5; 4].
Proof.
  destruct (dot_shape_spec sample_config product_state "p" "u" []
              [1; 2] [3; 4])
    as [_ Hdot];
    [simpl; lia|vm_compute; reflexivity|vm_compute; reflexivity|].
  destruct (Hdot 2 3 eq_refl eq_refl)
    as (c & s' & l1' & l2' & out & Hm & Ha & Hb & Hcall & Hout & Hlen & Hex).
  destruct (Hex 1 2 3 4 eq_refl eq_refl ltac:(discriminate))
    as (_ & _ & _ & Hs' & _ & Hmn).
  exists s'. split.
  - rewrite Hcall. f_equal. apply Hmn; discriminate.
  - rewrite Hs'. split; vm_compute; reflexivity.
Defined.

(** The first assignment of the two-block sample, [p = arg(p)]. *)
Lemma size_materialization_witness :
  ∃ sizes,
    array_size_vars
      (state_after (_analyze_assign sample_config (Arg "p") "p"
                      (init conflict_types [] 0))
                   (init conflict_types [] 0)) !! "p" = Some sizes
    ∧ length sizes = 2%nat.
Proof.
  destruct (size_materialization_spec sample_config (Arg "p") "p"
              (init conflict_types [] 0) (init conflict_types [] 0)
              (state_after (_analyze_rhs_classes sample_config (Arg "p")
                              (init conflict_types [] 0))
                           (init conflict_types [] 0))
              (state_after (_analyze_assign sample_config (Arg "p") "p"
                              (init conflict_types [] 0))
                           (init conflict_types [] 0))
              [1; 2]
              (size_call_nodes sample_config "p" 0 0
               ++ size_call_nodes sample_config "p" 1 3))
    as (gens & sizes & _ & _ & _ & Hsizes & Hlen & _);
    [reflexivity|vm_compute; reflexivity|vm_compute; reflexivity
     |right; vm_compute; reflexivity|vm_compute; reflexivity|].
  exists sizes. split; [exact Hsizes|exact Hlen].
Defined.

(** The second assignment to [v] in the two-block sample. *)
Lemma shape_conflict_witness :
  _analyze_assign sample_config (Var "w") "v" conflict_state
  = Ok [] (downgraded "v" 2 conflict_state)
  ∧ array_shape_classes (downgraded "v" 2 conflict_state) !! "v"
    = Some [-1; -1]
  ∧ array_size_vars (downgraded "v" 2 conflict_state) !! "v" = None.
Proof.
  destruct (shape_conflict_spec sample_config (Var "w") "v" conflict_state
              conflict_state conflict_state [1; 4] [1; 5])
    as (Hconf & _ & _);
    [reflexivity|vm_compute; reflexivity|vm_compute; reflexivity
     |vm_compute; reflexivity|].
  destruct (Hconf ltac:(discriminate)) as (Hrun & Hshape & Hvars & _).
  split; [exact Hrun|]. split; [exact Hshape|exact Hvars].
Defined.


(** [a + k] with the integer [k]. *)
Lemma broadcast_scalar_witness :
  _broadcast_and_match_shapes ["a"; "k"] scalar_state = Err AttributeError.
Proof.
  apply (broadcast_scalar_operand_raises scalar_state ["a"; "k"]).
  - intros x Hx. apply (bool_decide_unpack _).
    repeat (apply elem_of_cons in Hx as [->|Hx]); [| |by apply elem_of_nil in Hx];
      vm_compute; exact I.
  - intros x Hx Harr.
    repeat (apply elem_of_cons in Hx as [->|Hx]); [| |by apply elem_of_nil in Hx].
    + apply (bool_decide_unpack _). vm_compute. exact I.
    + vm_compute in Harr. discriminate Harr.
  - exists "a". split; [left|vm_compute; reflexivity].
  - exists "k". split; [right; left|vm_compute; reflexivity].
Defined.

(** The same operand seen from the whole pass: [y = a + k] stops the run. *)
Example scalar_sum_run :
  run sample_config scalar_sum_blocks (init scalar_types [] 0)
  = Err AttributeError.
Proof. vm_compute. reflexivity. Qed.

(** [np.empty(k)] with the integer [k]. *)
Lemma scalar_shape_witness :
  _analyze_np_call sample_config "empty" [AVar "k"] scalar_state
  = Err NameError.
Proof.
  apply (scalar_shape_argument_raises sample_config scalar_state "empty" "k" []).
  - left.
  - vm_compute. reflexivity.
Defined.

(** The same call seen from the whole pass: [b = np.empty(k)] stops the
    run. *)
Example scalar_empty_run :
  run sample_config scalar_empty_blocks (init scalar_types [] 0)
  = Err NameError.
Proof. vm_compute. reflexivity. Qed.

(** The prefix of the unknown-operand sample keeps its instructions. *)
Lemma analyze_block_witness :
  sublist unknown_operand_prefix
    (value_after (_analyze_block sample_config unknown_operand_prefix
                    (init unknown_operand_types [] 0)) []).
Proof.
  destruct (analyze_block_frame sample_config unknown_operand_prefix
              (value_after (_analyze_block sample_config unknown_operand_prefix
                              (init unknown_operand_types [] 0)) [])
              (init unknown_operand_types [] 0)
              (state_after (_analyze_block sample_config unknown_operand_prefix
                              (init unknown_operand_types [] 0))
                           (init unknown_operand_types [] 0)))
    as [(gens & _ & _ & _ & Hsub) _]; [vm_compute; reflexivity|].
  exact Hsub.
Defined.

(** The whole unknown-operand sample, the sum included. *)
Lemma unknown_class_never_backed_witness :
  class_sizes
    (state_after
       (run sample_config
          [(0, unknown_operand_prefix ++ [unknown_operand_sum])]
          (init unknown_operand_types [] 0))
       (init unknown_operand_types [] 0)) !! (-1) = None.
Proof.
  apply (unknown_class_never_backed sample_config unknown_operand_types [] 0
           [(0, unknown_operand_prefix ++ [unknown_operand_sum])]
           (value_after
              (run sample_config
                 [(0, unknown_operand_prefix ++ [unknown_operand_sum])]
                 (init unknown_operand_types [] 0)) [])).
  vm_compute. reflexivity.
Defined.

(** [np.empty((m, n))]. *)
Lemma tuple_shape_witness :
  ∃ s', _analyze_np_call sample_config "empty" [AVar "tup"] tuple_state
        = Ok [1; 2] s'
        ∧ class_sizes s' !! 1 = Some [SVar "m"]
        ∧ class_sizes s' !! 2 = Some [SVar "n"].
Proof.
  destruct (tuple_shape_argument_spec sample_config tuple_state "empty" "tup"
              [] 2 [SVar "m"; SVar "n"])
    as (s' & Hrun & _ & Hnew & _);
    [left|vm_compute; reflexivity|vm_compute; reflexivity|simpl; lia|].
  exists s'. split; [exact Hrun|].
  split; [exact (Hnew 0%nat ltac:(lia))|exact (Hnew 1%nat ltac:(lia))].
Defined.

(** [p.T] in the state after the first block of the two-block sample. *)
Lemma transpose_shape_witness :
  _analyze_rhs_classes sample_config (Expr (EGetattr "p" "T")) product_state
  = Ok [2; 1] product_state.
Proof.
  apply (proj1 (transpose_shape_spec sample_config product_state "p" [1; 2]
                  ltac:(vm_compute; reflexivity)
                  ltac:(vm_compute; reflexivity))).
Defined.

(** [p = arg(p)] from the initial state. *)
Lemma analyze_assign_completes_witness :
  ∃ calls s',
    _analyze_assign sample_config (Arg "p") "p" (init conflict_types [] 0)
    = Ok calls s'.
Proof.
  apply (analyze_assign_completes sample_config (Arg "p") "p"
           (init conflict_types [] 0) (init conflict_types [] 0)
           (state_after (_analyze_rhs_classes sample_config (Arg "p")
                           (init conflict_types [] 0))
                        (init conflict_types [] 0))
           [1; 2]).
  - reflexivity.
  - vm_compute. reflexivity.
  - vm_compute. reflexivity.
  - right. vm_compute. reflexivity.
  - intros c Hc _.
    repeat (apply elem_of_cons in Hc as [->|Hc]);
      [| |by apply elem_of_nil in Hc]; vm_compute; discriminate.
Defined.

(** * The pass as a whole *)

Lemma bind_inv {A B} (m : M A) (k : A → M B) (s : state) (b : B) (s' : state) :
  bind m k s = Ok b s' → ∃ a s1, m s = Ok a s1 ∧ k a s1 = Ok b s'.
Proof.
  unfold bind. destruct (m s) as [a s1|]; [|done]. intros H. by exists a, s1.
Qed.

Lemma bind_err {A B} (m : M A) (k : A → M B) (s : state) (e : exn) :
  m s = Err e → bind m k s = Err e.
Proof. intros H. unfold bind. by rewrite H. Qed.

(** ** Block boundaries *)

(** The accumulator of the block loop is a prefix of its result. *)
Lemma block_loop_prefix (cfg : config) (body pre acc : list inst) (s : state) :
  block_loop cfg body (pre ++ acc) s
  = (out <- block_loop cfg body acc ;; ret (pre ++ out)) s.
Proof.
  revert acc s. induction body as [|i rest IH]; intros acc s; [done|].
  simpl. unfold bind.
  destruct (_analyze_inst cfg i s) as [g s1|]; [|done].
  replace (((pre ++ acc) ++ [i]) ++ g) with (pre ++ ((acc ++ [i]) ++ g))
    by (by rewrite !app_assoc).
  rewrite IH. done.
Qed.

Lemma block_loop_acc (cfg : config) (body acc : list inst) (s : state) :
  block_loop cfg body acc s
  = (out <- block_loop cfg body [] ;; ret (acc ++ out)) s.
Proof. rewrite <- (app_nil_r acc) at 1. apply block_loop_prefix. Qed.

Lemma analyze_block_cons (cfg : config) (i : inst) (rest : list inst)
    (s : state) :
  _analyze_block cfg (i :: rest) s
  = (g <- _analyze_inst cfg i ;; out <- _analyze_block cfg rest ;;
     ret (i :: g ++ out)) s.
Proof.
  unfold _analyze_block. simpl. unfold bind.
  destruct (_analyze_inst cfg i s) as [g s1|]; [|done].
  rewrite block_loop_acc. unfold bind, ret.
  by destruct (block_loop cfg rest [] s1).
Qed.

Lemma analyze_block_app (cfg : config) (b1 b2 : list inst) (s : state) :
  _analyze_block cfg (b1 ++ b2) s
  = (o1 <- _analyze_block cfg b1 ;; o2 <- _analyze_block cfg b2 ;;
     ret (o1 ++ o2)) s.
Proof.
  revert s. induction b1 as [|i b1 IH]; intros s.
  - simpl. unfold _analyze_block at 2. simpl. unfold bind, ret.
    by destruct (_analyze_block cfg b2 s).
  - rewrite <- app_comm_cons, analyze_block_cons.
    unfold bind at 3. rewrite analyze_block_cons. unfold bind.
    destruct (_analyze_inst cfg i s) as [g s1|]; [|done].
    rewrite IH. unfold bind, ret.
    destruct (_analyze_block cfg b1 s1) as [o1 s2|]; [|done].
    destruct (_analyze_block cfg b2 s2) as [o2 s3|]; [|done].
    simpl. by rewrite <- ?app_assoc.
Qed.

(** X5.  Block boundaries do not matter: running the pass over the blocks of a
    function has the same outcome (exception, or final state and emitted
    instructions in order) as analysing all their instructions as one
    block; in particular a block may be split in two at any point. *)
Theorem run_ignores_block_boundaries (cfg : config)
    (blocks : list (Z * list inst)) (s : state) :
  (out <- run cfg blocks ;; ret (flat_bodies out)) s
  = _analyze_block cfg (flat_bodies blocks) s
  ∧ ∀ b1 b2,
      _analyze_block cfg (b1 ++ b2) s
      = (o1 <- _analyze_block cfg b1 ;; o2 <- _analyze_block cfg b2 ;;
         ret (o1 ++ o2)) s.
Proof.
  split; [|intros; apply analyze_block_app].
  revert s. induction blocks as [|[key body] blocks IH]; intros s; [done|].
  unfold flat_bodies in *. simpl. rewrite analyze_block_app.
  unfold bind.
  destruct (_analyze_block cfg body s) as [o1 s1|]; [|done].
  specialize (IH s1). unfold bind, ret in IH.
  change (list_fmap (Z * list inst)%type (list inst) snd blocks)
    with (snd <$> blocks).
  rewrite <- IH.
  by destruct (run cfg blocks s1).
Qed.

(** ** Recorded ranks *)

Create HintDb rank discriminated.

Ltac rk_state :=
  match goal with
  | H : has_rank _ _ _ |- has_rank _ _ _ => exact H
  end.

Ltac rk := repeat first [ solve [auto with rank] | pres_step ]; try rk_state.

Section Rank.
Context (v : string) (n : nat).

Lemma rk_isarray (a : string) : preserves (has_rank v n) (_isarray a).
Proof. unfold _isarray. rk. Qed.

Lemma rk_get_next_class : preserves (has_rank v n) _get_next_class.
Proof. unfold _get_next_class. rk. Qed.

Lemma rk_get_ndims (a : string) : preserves (has_rank v n) (_get_ndims a).
Proof. unfold _get_ndims. rk. Qed.

Lemma rk_shape_of (a : string) : preserves (has_rank v n) (shape_of a).
Proof. unfold shape_of. rk. Qed.

Lemma rk_arg_name (a : callarg) : preserves (has_rank v n) (arg_name a).
Proof. unfold arg_name. rk. Qed.

Lemma rk_print (d : diag) : preserves (has_rank v n) (print d).
Proof. unfold print. rk. Qed.

Lemma rk_py_max (l : list nat) : preserves (has_rank v n) (py_max l).
Proof. unfold py_max. rk. Qed.

Hint Resolve rk_isarray rk_get_next_class rk_get_ndims rk_shape_of
  rk_arg_name rk_print rk_py_max : rank.

Lemma rk_merge_classes (c1 c2 : Z) : preserves (has_rank v n) (_merge_classes c1 c2).
Proof.
  intros s c s' (l & Hl & Hn).
  destruct (decide (c1 = c2)) as [->|Hne].
  - rewrite merge_eq. intros [= _ <-]. by exists l.
  - rewrite merge_ne by done. intros [= _ <-].
    eexists. rewrite merged_shape, Hl. simpl. split; [done|].
    by rewrite length_fmap.
Qed.

Lemma rk_add_array_corr (a : string) : preserves (has_rank v n) (_add_array_corr a).
Proof.
  destruct (decide (v = a)) as [<-|Hne].
  - intros s r s' (l & Hl & Hn). unfold _add_array_corr.
    unfold bind at 1. unfold get at 1. unfold bind at 1.
    rewrite bool_decide_eq_false_2 by (by rewrite Hl). done.
  - unfold _add_array_corr. rk;
      match goal with
      | H : has_rank _ _ _ |- _ =>
          destruct H as (l' & Hl' & Hn'); exists l'; split; [|done];
          simpl; by rewrite lookup_insert_ne
      end.
Qed.

Hint Resolve rk_merge_classes rk_add_array_corr : rank.

Lemma rk_classes_from_tuple (shape_arg : string) (idx : list nat)
    (out_eqs : list Z) :
  preserves (has_rank v n) (classes_from_tuple shape_arg idx out_eqs).
Proof.
  revert out_eqs. induction idx as [|i idx IH]; intros out_eqs; simpl; rk.
Qed.

Hint Resolve rk_classes_from_tuple : rank.

Lemma rk_get_classes_from_shape (shape_arg : string) :
  preserves (has_rank v n) (_get_classes_from_shape shape_arg).
Proof. unfold _get_classes_from_shape. rk. Qed.

Lemma rk_match_dim (i : nat) (es : list (list Z)) (c : Z) :
  preserves (has_rank v n) (match_dim i es c).
Proof. revert c. induction es as [|e es IH]; intros c; simpl; rk. Qed.

Hint Resolve rk_get_classes_from_shape rk_match_dim : rank.

Lemma rk_match_dims (idx : list nat) (eqs : list (list Z)) (out_eq : list Z) :
  preserves (has_rank v n) (match_dims idx eqs out_eq).
Proof.
  revert out_eq. induction idx as [|i idx IH]; intros out_eq; simpl; rk.
Qed.

Hint Resolve rk_match_dims : rank.

Lemma rk_broadcast (args : list string) :
  preserves (has_rank v n) (_broadcast_and_match_shapes args).
Proof. unfold _broadcast_and_match_shapes. rk. Qed.

Hint Resolve rk_broadcast : rank.

Lemma rk_analyze_np_call (cfg : config) (call_name : string)
    (args : list callarg) :
  preserves (has_rank v n) (_analyze_np_call cfg call_name args).
Proof. unfold _analyze_np_call. rk. Qed.

Hint Resolve rk_analyze_np_call : rank.

Lemma rk_analyze_rhs_classes (cfg : config) (nd : node) :
  preserves (has_rank v n) (_analyze_rhs_classes cfg nd).
Proof. unfold _analyze_rhs_classes. rk. Qed.

Lemma rk_gen_size_call (cfg : config) (var : string) (i : nat) :
  preserves (has_rank v n) (_gen_size_call cfg var i).
Proof. unfold _gen_size_call, mk_unique_var. rk. Qed.

Lemma rk_set_size_var (lhs : string) (i : nat) (x : sizeval) :
  preserves (has_rank v n) (set_size_var lhs i x).
Proof. unfold set_size_var. rk. Qed.

Lemma rk_record_tables (lhs : string) (rhs : node) :
  preserves (has_rank v n) (record_tables lhs rhs).
Proof. unfold record_tables. rk. Qed.

Hint Resolve rk_analyze_rhs_classes rk_gen_size_call rk_set_size_var
  rk_record_tables : rank.

Lemma rk_size_loop (cfg : config) (lhs : string) (corrs : list Z) :
  ∀ (i : nat) (acc : list inst), preserves (has_rank v n) (size_loop cfg lhs i corrs acc).
Proof.
  induction corrs as [|corr corrs IH]; intros i acc; cbn [size_loop]; rk.
Qed.

Hint Resolve rk_size_loop : rank.

Lemma isarray_inv (a : string) (s s' : state) (b : bool) :
  _isarray a s = Ok b s' →
  s' = s ∧ is_array_ty <$> typemap s !! a = Some b.
Proof.
  unfold _isarray, bind, get, dict_get.
  destruct (typemap s !! a) as [t|]; [|done]. by intros [= <- <-].
Qed.

Lemma rk_analyze_assign (cfg : config) (rhs : node) (lhs : string) :
  preserves (has_rank v n) (_analyze_assign cfg rhs lhs).
Proof.
  intros s r s' HP Hrun. pose proof Hrun as Hrun0.
  unfold _analyze_assign in Hrun.
  apply bind_inv in Hrun as ([] & s1 & Hrec & Hrun).
  pose proof (rk_record_tables _ _ _ _ _ HP Hrec) as HP1.
  apply bind_inv in Hrun as (b & s1' & Harr & Hrun).
  apply isarray_inv in Harr as [-> Hty].
  destruct b; [|by injection Hrun as _ <-].
  apply bind_inv in Hrun as (corrs & s2 & Hrhs & _).
  pose proof (rk_analyze_rhs_classes _ _ _ _ _ HP1 Hrhs) as (l & Hl & Hn).
  rewrite (analyze_assign_array cfg rhs lhs s s1 s2 corrs) in Hrun0 by done.
  assert (∀ old, array_shape_classes s2 !! lhs = Some old → old = corrs →
            has_rank v n (start_sizes lhs corrs s2)) as Hsame.
  { intros old Hold ->. unfold start_sizes, has_rank. simpl.
    destruct (decide (v = lhs)) as [->|Hne].
    - exists corrs. rewrite lookup_insert_eq. split; [done|]. congruence.
    - exists l. by rewrite lookup_insert_ne. }
  destruct (array_shape_classes s2 !! lhs) as [old|] eqn:Hold.
  - destruct (decide (old = corrs)) as [Heq|Hdiff].
    + eapply rk_size_loop; [|exact Hrun0]. by eapply Hsame.
    + injection Hrun0 as _ <-. unfold downgraded, has_rank. simpl.
      destruct (decide (v = lhs)) as [->|Hne].
      * eexists. rewrite lookup_insert_eq. split; [done|].
        rewrite length_replicate. congruence.
      * exists l. by rewrite lookup_insert_ne.
  - eapply rk_size_loop; [|exact Hrun0].
    unfold start_sizes, has_rank. simpl. exists l.
    rewrite lookup_insert_ne; [done|]. congruence.
Qed.

Lemma rk_analyze_inst (cfg : config) (i : inst) :
  preserves (has_rank v n) (_analyze_inst cfg i).
Proof. destruct i; simpl; [apply rk_analyze_assign|rk]. Qed.

Lemma rk_block_loop (cfg : config) (body : list inst) :
  ∀ acc, preserves (has_rank v n) (block_loop cfg body acc).
Proof.
  induction body as [|i body IH]; intros acc; simpl; [rk|].
  apply preserves_bind; [apply rk_analyze_inst|]. intros g. apply IH.
Qed.

Lemma rk_run (cfg : config) (blocks : list (Z * list inst)) :
  preserves (has_rank v n) (run cfg blocks).
Proof.
  induction blocks as [|[key body] blocks IH]; simpl; [rk|].
  apply preserves_bind; [apply rk_block_loop|]. intros body'.
  apply preserves_bind; [exact IH|]. intros rest'. rk.
Qed.

End Rank.

(** X6.  The rank of a recorded shape vector never changes: whatever a method,
    a block or a whole run that returns does (merges, a conflict, a second
    assignment), a variable recorded with [n] dimensions is still recorded
    with [n] dimensions afterwards. *)
Theorem recorded_rank_is_kept (cfg : config) (v : string) (l : list Z)
    (blocks out : list (Z * list inst)) (s s' : state) :
  array_shape_classes s !! v = Some l →
  run cfg blocks s = Ok out s' →
  ∃ l', array_shape_classes s' !! v = Some l' ∧ length l' = length l.
Proof.
  intros Hl Hrun.
  apply (rk_run v (length l) cfg blocks s out s'); [|done]. by exists l.
Qed.

(** ** Allocated classes *)

Lemma class_ok_mono (n n' c : Z) : n ≤ n' → class_ok n c → class_ok n' c.
Proof. unfold class_ok. lia. Qed.

Lemma class_or_pad_mono (n n' c : Z) :
  n ≤ n' → class_or_pad n c → class_or_pad n' c.
Proof. unfold class_or_pad, class_ok. lia. Qed.

Lemma grows_refl (s : state) : well_formed s → grows s s.
Proof. intros H. split; [done|lia]. Qed.

Lemma grows_trans (s1 s2 s3 : state) : grows s1 s2 → grows s2 s3 → grows s1 s3.
Proof. intros [_ H12] [H3 H23]. split; [done|lia]. Qed.

Lemma same_core_grows (s s' : state) :
  well_formed s → same_core s s' → grows s s'.
Proof.
  intros (Hpos & Hsh & Hkeys & H0) (Ha & Hc & Hn).
  split; [|lia]. unfold well_formed. rewrite Ha, Hc, Hn. done.
Qed.

(** *** Methods that leave the class tables alone *)

Create HintDb samecore discriminated.

Ltac sc_state :=
  match goal with
  | H : same_core _ _ |- same_core _ _ => exact H
  end.

Ltac sc := repeat first [ solve [auto with samecore] | pres_step ]; try sc_state.

Section SameCore.
Context (s0 : state).

Lemma sc_isarray (a : string) : preserves (same_core s0) (_isarray a).
Proof. unfold _isarray. sc. Qed.

Lemma sc_get_ndims (a : string) : preserves (same_core s0) (_get_ndims a).
Proof. unfold _get_ndims. sc. Qed.

Lemma sc_shape_of (a : string) : preserves (same_core s0) (shape_of a).
Proof. unfold shape_of. sc. Qed.

Lemma sc_arg_name (a : callarg) : preserves (same_core s0) (arg_name a).
Proof. unfold arg_name. sc. Qed.

Lemma sc_print (d : diag) : preserves (same_core s0) (print d).
Proof. unfold print. sc. Qed.

Lemma sc_py_max (l : list nat) : preserves (same_core s0) (py_max l).
Proof. unfold py_max. sc. Qed.

Hint Resolve sc_isarray sc_get_ndims sc_shape_of sc_arg_name sc_print
  sc_py_max : samecore.

Lemma sc_gen_size_call (cfg : config) (var : string) (i : nat) :
  preserves (same_core s0) (_gen_size_call cfg var i).
Proof. unfold _gen_size_call, mk_unique_var. sc. Qed.

Lemma sc_set_size_var (lhs : string) (i : nat) (x : sizeval) :
  preserves (same_core s0) (set_size_var lhs i x).
Proof. unfold set_size_var. sc. Qed.

Lemma sc_record_tables (lhs : string) (rhs : node) :
  preserves (same_core s0) (record_tables lhs rhs).
Proof. unfold record_tables. sc. Qed.

End SameCore.

Lemma same_core_refl (s : state) : same_core s s.
Proof. done. Qed.

(** *** Merging *)

Lemma wf_merged (c1 c2 : Z) (s : state) :
  well_formed s → c1 ≠ 0 → c2 ≠ 0 → grows s (merged c1 c2 s).
Proof.
  intros (Hpos & Hsh & Hkeys & H0) Hc1 Hc2.
  split; [|simpl; lia].
  split; [simpl; lia|]. split; [|split].
  - intros v l. rewrite merged_shape.
    destruct (array_shape_classes s !! v) as [l0|] eqn:Hl0; [|done].
    simpl. intros [= <-]. apply Forall_fmap.
    eapply Forall_impl; [exact (Hsh v l0 Hl0)|].
    intros x Hx. simpl. unfold rename_class.
    destruct (bool_decide (x = c1) || bool_decide (x = c2)).
    + right. lia.
    + eapply class_ok_mono; [|exact Hx]. lia.
  - intros c. unfold merged. simpl.
    destruct (decide (c = next_eq_class s)) as [->|Hne]; [lia|].
    rewrite lookup_insert_ne by done.
    intros Hsome.
    assert (is_Some (class_sizes s !! c)) as Hc.
    { revert Hsome. rewrite !lookup_delete. by repeat case_decide. }
    apply Hkeys in Hc. lia.
  - unfold merged. simpl.
    rewrite lookup_insert_ne by lia.
    by rewrite !lookup_delete_ne.
Qed.

Lemma wf_merge_classes (c1 c2 c : Z) (s s' : state) :
  well_formed s → class_ok (next_eq_class s) c1 →
  class_ok (next_eq_class s) c2 →
  _merge_classes c1 c2 s = Ok c s' →
  grows s s' ∧ class_ok (next_eq_class s') c.
Proof.
  intros Hwf Hc1 Hc2.
  destruct (decide (c1 = c2)) as [->|Hne].
  - rewrite merge_eq. intros [= <- <-]. split; [by apply grows_refl|done].
  - rewrite merge_ne by done. intros [= <- <-].
    split.
    + apply wf_merged; [done| |]; unfold class_ok in *; lia.
    + right. destruct Hwf as [? _]. simpl. lia.
Qed.

(** *** Broadcasting *)

Lemma py_index_inv_nat {A} (l : list A) (i : nat) (x : A) (s s' : state) :
  py_index l (Z.of_nat i) s = Ok x s' → s' = s ∧ l !! i = Some x.
Proof.
  unfold py_index. destruct (decide (Z.of_nat i < 0)); [lia|].
  case_decide; [|done]. rewrite Nat2Z.id.
  destruct (l !! i); [|done]. by intros [= <- <-].
Qed.

Lemma mapM_inv_pure {A B} (f : A → M B) (Q : B → Prop) (l : list A)
    (s s' : state) (r : list B) :
  (∀ x a s1, f x s = Ok a s1 → s1 = s ∧ Q a) →
  mapM f l s = Ok r s' → s' = s ∧ Forall Q r.
Proof.
  intros Hf. revert r. induction l as [|x l IH]; intros r.
  - simpl. by intros [= <- <-].
  - rewrite mapM_cons_eq.
    destruct (f x s) as [a s1|] eqn:Hx; [|done].
    apply Hf in Hx as [-> Ha].
    destruct (mapM f l s) as [ys s2|]; [|done].
    intros [= <- <-]. destruct (IH ys eq_refl) as [-> Hys].
    split; [done|]. by constructor.
Qed.

Lemma wf_match_dim (i : nat) (es : list (list Z)) :
  ∀ (c : Z) (s : state) (r : Z) (s' : state),
  well_formed s →
  Forall (λ e, ∃ x, e !! i = Some x ∧ class_or_pad (next_eq_class s) x) es →
  class_or_pad (next_eq_class s) c →
  match_dim i es c s = Ok r s' →
  grows s s' ∧ class_or_pad (next_eq_class s') r
  ∧ (r = 0 → c = 0 ∧ Forall (λ e, e !! i = Some 0) es).
Proof.
  induction es as [|e es IH]; intros c s r s' Hwf Hall Hc.
  { simpl. intros [= <- <-]. split; [by apply grows_refl|]. by split. }
  apply Forall_cons in Hall as [(x & Hx & Hxok) Hall].
  cbn [match_dim]. erewrite bind_ok; [|by apply py_index_nat].
  destruct (bool_decide_reflect (x = 0)) as [->|Hx0]; simpl.
  { intros Hrun.
    destruct (IH _ _ _ _ Hwf Hall Hc Hrun) as (Hg & Hr & Hzero).
    split; [done|]. split; [done|]. intros Hr0.
    destruct (Hzero Hr0). split; [done|]. by constructor. }
  destruct (bool_decide_reflect (x = c)) as [->|Hxc]; simpl.
  { intros Hrun.
    destruct (IH _ _ _ _ Hwf Hall Hc Hrun) as (Hg & Hr & Hzero).
    split; [done|]. split; [done|]. intros Hr0.
    destruct (Hzero Hr0). done. }
  destruct (bool_decide_reflect (c = 0)) as [->|Hc0].
  { intros Hrun.
    destruct (IH _ _ _ _ Hwf Hall Hxok Hrun) as (Hg & Hr & Hzero).
    split; [done|]. split; [done|]. intros Hr0.
    destruct (Hzero Hr0). done. }
  intros Hrun. apply bind_inv in Hrun as (c' & s1 & Hm & Hrun).
  destruct Hxok as [?|Hxok]; [done|]. destruct Hc as [?|Hc]; [done|].
  destruct (wf_merge_classes _ _ _ _ _ Hwf Hc Hxok Hm) as [[Hwf1 Hn1] Hc'].
  assert (Forall (λ e0, ∃ y, e0 !! i = Some y
                             ∧ class_or_pad (next_eq_class s1) y) es)
    as Hall1.
  { eapply Forall_impl; [exact Hall|]. simpl.
    intros e0 (y & Hy & Hyok). exists y. split; [done|].
    by eapply class_or_pad_mono. }
  destruct (IH _ _ _ _ Hwf1 Hall1 (or_intror Hc') Hrun) as (Hg & Hr & Hzero).
  split; [eapply grows_trans; [by split|done]|].
  split; [done|]. intros Hr0. destruct (Hzero Hr0) as [Hc'0 _].
  destruct Hc' as [?|?]; lia.
Qed.

Lemma wf_match_dims (eqs : list (list Z)) (idx : list nat) :
  ∀ (out_eq : list Z) (s : state) (r : list Z) (s' : state),
  well_formed s →
  (∀ i, i ∈ idx →
     Forall (λ e, ∃ x, e !! i = Some x ∧ class_or_pad (next_eq_class s) x) eqs
     ∧ Exists (λ e, ∃ x, e !! i = Some x ∧ x ≠ 0) eqs) →
  Forall (class_ok (next_eq_class s)) out_eq →
  match_dims idx eqs out_eq s = Ok r s' →
  grows s s' ∧ Forall (class_ok (next_eq_class s')) r.
Proof.
  induction idx as [|i idx IH]; intros out_eq s r s' Hwf Hdims Hout.
  { simpl. intros [= <- <-]. split; [by apply grows_refl|done]. }
  rewrite match_dims_cons.
  destruct (dim_code eqs i s) as [c s1|] eqn:Hdim; [|done].
  destruct (decide (i < length out_eq)%nat); [|done].
  intros Hrun.
  destruct (Hdims i ltac:(left)) as [Hall Hex].
  unfold dim_code in Hdim.
  apply bind_inv in Hdim as (e0 & s0 & He0 & Hdim).
  apply (py_index_inv_nat eqs 0) in He0 as [-> He0].
  apply bind_inv in Hdim as (c0 & s0 & Hc0 & Hdim).
  apply py_index_inv_nat in Hc0 as [-> Hc0].
  assert (class_or_pad (next_eq_class s) c0) as Hc0ok.
  { apply list_elem_of_lookup_2 in He0.
    rewrite Forall_forall in Hall.
    destruct (Hall e0 He0) as (x & Hx & Hxok). congruence. }
  destruct (wf_match_dim _ _ _ _ _ _ Hwf Hall Hc0ok Hdim)
    as ([Hwf1 Hn1] & Hc & Hzero).
  assert (class_ok (next_eq_class s1) c) as Hcok.
  { destruct Hc as [->|Hc]; [|done].
    destruct (Hzero eq_refl) as [_ Hallzero].
    apply Exists_exists in Hex as (e & He & x & Hx & Hx0).
    rewrite Forall_forall in Hallzero. specialize (Hallzero e He).
    congruence. }
  destruct (IH (<[i:=c]> out_eq) s1 r s') as [Hg Hr]; [done| | |done|].
  - intros j Hj. destruct (Hdims j ltac:(by right)) as [Hallj Hexj].
    split; [|done].
    eapply Forall_impl; [exact Hallj|]. simpl.
    intros e (y & Hy & Hyok). exists y. split; [done|].
    by eapply class_or_pad_mono.
  - apply Forall_insert; [|done].
    eapply Forall_impl; [exact Hout|]. intros y Hy.
    by eapply class_ok_mono.
  - split; [|done]. eapply grows_trans; [by split|done].
Qed.

Lemma spec_pad_lookup (ndims : nat) (e : list Z) (i : nat) :
  (length e ≤ ndims)%nat → (i < ndims)%nat →
  spec_pad ndims e !! i
  = if decide (i < ndims - length e)%nat then Some 0
    else e !! (i - (ndims - length e))%nat.
Proof.
  intros Hlen Hi. unfold spec_pad.
  case_decide.
  - rewrite lookup_app_l by (rewrite length_replicate; lia).
    by apply lookup_replicate_2.
  - rewrite lookup_app_r by (rewrite length_replicate; lia).
    by rewrite length_replicate.
Qed.

Lemma py_max_inv (l : list nat) (n : nat) (s s' : state) :
  py_max l s = Ok n s' → s' = s ∧ l ≠ [] ∧ n = max_list l.
Proof.
  destruct l as [|x l]; [done|]. simpl. intros [= <- <-].
  split; [done|]. split; [done|]. apply foldl_max_list.
Qed.

Lemma wf_broadcast (args : list string) (s : state) (r : list Z) (s' : state) :
  well_formed s →
  _broadcast_and_match_shapes args s = Ok r s' →
  grows s s' ∧ Forall (class_ok (next_eq_class s')) r.
Proof.
  intros Hwf Hrun. unfold _broadcast_and_match_shapes in Hrun.
  apply bind_inv in Hrun as (flags & s1 & Hflags & Hrun).
  apply (mapM_inv_pure _ (λ _, True)) in Hflags as [-> _].
  2:{ intros x a sx Hx. by apply isarray_inv in Hx as [-> _]. }
  apply bind_inv in Hrun as ([] & s1 & Hassert & Hrun).
  assert (s1 = s) as ->.
  { revert Hassert. unfold assert. destruct (existsb id flags); [|done].
    by intros [= <-]. }
  apply bind_inv in Hrun as (eqs & s1 & Heqs & Hrun).
  apply (mapM_inv_pure _ (Forall (class_ok (next_eq_class s)))) in Heqs
    as [-> Heqs].
  2:{ intros x a sx Hx. apply bind_inv in Hx as (b & s2 & Hb & Hx).
      apply isarray_inv in Hb as [-> _]. destruct b; [|done].
      unfold bind, get, dict_get in Hx.
      destruct (array_shape_classes s !! x) as [l|] eqn:Hl; [|done].
      injection Hx as <- <-. split; [done|].
      destruct Hwf as (_ & Hsh & _). by eapply Hsh. }
  apply bind_inv in Hrun as (ndims & s1 & Hmax & Hrun).
  apply py_max_inv in Hmax as (-> & Hne & Hndims).
  assert (∀ e, e ∈ eqs → (length e ≤ ndims)%nat) as Hle.
  { intros e He. rewrite Hndims.
    apply max_list_elem_of_le, list_elem_of_fmap. eauto. }
  eapply wf_match_dims; [done| |by apply Forall_replicate; left|exact Hrun].
  intros i Hi. apply elem_of_seq in Hi. split.
  - apply Forall_fmap, Forall_forall. intros e He. unfold compose.
    rewrite pad_front_spec, spec_pad_lookup by (first [by apply Hle | lia]).
    case_decide; [exists 0; split; [done|by left]|].
    destruct (lookup_lt_is_Some_2 e (i - (ndims - length e)))
      as [x Hx]; [specialize (Hle e He); lia|].
    exists x. split; [done|]. right.
    rewrite Forall_forall in Heqs. specialize (Heqs e He).
    rewrite Forall_forall in Heqs. apply Heqs.
    by eapply list_elem_of_lookup_2.
  - assert (ndims ∈ length <$> eqs) as Hin
      by (rewrite Hndims; by apply max_list_elem_of).
    apply list_elem_of_fmap in Hin as (e & Hlen & He).
    apply Exists_exists. exists (pad_front ndims e).
    split; [apply list_elem_of_fmap; eauto|].
    rewrite pad_front_spec, spec_pad_lookup by lia.
    destruct (decide (i < ndims - length e)%nat); [lia|].
    destruct (lookup_lt_is_Some_2 e (i - (ndims - length e)))
      as [x Hx]; [lia|].
    exists x. split; [done|].
    rewrite Forall_forall in Heqs. specialize (Heqs e He).
    rewrite Forall_forall in Heqs.
    destruct (Heqs x ltac:(by eapply list_elem_of_lookup_2)); lia.
Qed.

(** *** Recording shapes *)

Lemma same_core_inv {A} (m : M A) (s : state) (a : A) (s' : state) :
  preserves (same_core s) m → m s = Ok a s' → same_core s s'.
Proof. intros Hm Hrun. by eapply Hm. Qed.

Lemma shape_of_inv (a : string) (s s' : state) (l : list Z) :
  shape_of a s = Ok l s' → s' = s ∧ array_shape_classes s !! a = Some l.
Proof.
  unfold shape_of, bind, get, dict_get.
  destruct (array_shape_classes s !! a); [|done]. by intros [= <- <-].
Qed.

Lemma get_ndims_inv (a : string) (s s' : state) (n : nat) :
  _get_ndims a s = Ok n s' →
  s' = s ∧ ∃ l, array_shape_classes s !! a = Some l ∧ n = length l.
Proof.
  unfold _get_ndims, bind, get, dict_get.
  destruct (array_shape_classes s !! a) as [l|]; [|done].
  intros [= <- <-]. eauto.
Qed.

Lemma arg_name_inv (a : callarg) (s s' : state) (n : string) :
  arg_name a s = Ok n s' → s' = s ∧ a = AVar n.
Proof. destruct a; [|done]. by intros [= <- <-]. Qed.

Lemma py_index_inv {A} (l : list A) (i : Z) (x : A) (s s' : state) :
  py_index l i s = Ok x s' → s' = s ∧ x ∈ l.
Proof.
  unfold py_index. case_decide; [|done].
  destruct (l !! _) eqn:Hl; [|done]. intros [= <- <-].
  split; [done|]. by eapply list_elem_of_lookup_2.
Qed.

Lemma dict_get_inv {K} `{Countable K} {V} (d : gmap K V) (k : K) (x : V)
    (s s' : state) :
  dict_get d k s = Ok x s' → s' = s ∧ d !! k = Some x.
Proof. unfold dict_get. destruct (d !! k); [|done]. by intros [= <- <-]. Qed.

Lemma assert_inv (b : bool) (s s' : state) (u : unit) :
  assert b s = Ok u s' → s' = s ∧ b = true.
Proof. destruct b; [|done]. by intros [= <-]. Qed.

Lemma wf_shape_of (a : string) (s s' : state) (l : list Z) :
  well_formed s → shape_of a s = Ok l s' → shape_result s l s'.
Proof.
  intros Hwf [-> Hl]%shape_of_inv.
  split; [by apply grows_refl|]. destruct Hwf as (_ & Hsh & _). by eapply Hsh.
Qed.

Lemma wf_insert_shape (a : string) (l : list Z) (s : state) :
  well_formed s → Forall (class_ok (next_eq_class s)) l →
  well_formed (set_array_shape_classes <[a := l]> s).
Proof.
  intros (Hpos & Hsh & Hkeys & H0) Hl.
  split; [done|]. split; [|by split].
  intros v l'. simpl. destruct (decide (a = v)) as [->|Hne].
  - rewrite lookup_insert_eq. by intros [= <-].
  - rewrite lookup_insert_ne by done. apply Hsh.
Qed.

Lemma wf_next_class (s : state) :
  well_formed s → grows s (set_next_eq_class (λ n, n + 1) s).
Proof.
  intros (Hpos & Hsh & Hkeys & H0). split; [|simpl; lia].
  split; [simpl; lia|]. split; [|split; [|done]].
  - intros v l Hl. simpl. eapply Forall_impl; [by eapply Hsh|].
    intros x Hx. eapply class_ok_mono; [|done]. lia.
  - intros c Hc. apply Hkeys in Hc. simpl. lia.
Qed.

Lemma wf_add_array_corr (a : string) (s s' : state) (r : list Z) :
  well_formed s → _add_array_corr a s = Ok r s' → shape_result s r s'.
Proof.
  intros Hwf Hrun. unfold _add_array_corr in Hrun.
  apply bind_inv in Hrun as (s0 & sx & [= <- <-] & Hrun).
  apply bind_inv in Hrun as ([] & sx & Hassert & Hrun).
  apply assert_inv in Hassert as [-> _].
  apply bind_inv in Hrun as ([] & s1 & [= <-] & Hrun).
  apply bind_inv in Hrun as (s1' & sx & [= <- <-] & Hrun).
  apply bind_inv in Hrun as (t & sx & Ht & Hrun).
  apply dict_get_inv in Ht as [-> Ht].
  apply bind_inv in Hrun as (ndim & sx & Hnd & Hrun).
  assert (sx = set_array_shape_classes <[a:=[]]> s) as ->.
  { destruct t; try done. by injection Hnd as _ <-. }
  apply bind_inv in Hrun as ([] & s2 & Hloop & Hrun).
  assert (grows (set_array_shape_classes <[a:=[]]> s) s2) as Hg.
  { assert (well_formed (set_array_shape_classes <[a:=[]]> s)) as Hwf1
      by (by apply wf_insert_shape).
    revert Hwf1 Hloop. generalize (set_array_shape_classes <[a:=[]]> s).
    generalize (range ndim). clear.
    intros idx. induction idx as [|i idx IH]; intros s Hwf.
    { simpl. intros [= <-]. by apply grows_refl. }
    simpl. intros Hrun.
    apply bind_inv in Hrun as ([] & s1 & Hbody & Hrun).
    apply bind_inv in Hbody as (new & sx & Hnew & Hbody).
    rewrite get_next_class_ok in Hnew. injection Hnew as <- <-.
    apply bind_inv in Hbody as (s0 & sx & [= <- <-] & Hbody).
    apply bind_inv in Hbody as (l & sx & Hl & Hbody).
    apply dict_get_inv in Hl as [-> Hl0]. simpl in Hl0.
    injection Hbody as <-.
    destruct (wf_next_class s Hwf) as [Hwf1 Hn1].
    eapply grows_trans; [split; [exact Hwf|lia]|].
    eapply grows_trans; [|apply IH; [|exact Hrun]].
    - split; [|simpl; lia]. apply wf_insert_shape; [done|].
      simpl. apply Forall_app. split.
      + destruct Hwf1 as (_ & Hsh & _). by eapply (Hsh a).
      + constructor; [|done]. right. destruct Hwf as [? _]. lia.
    - apply wf_insert_shape; [done|].
      simpl. apply Forall_app. split.
      + destruct Hwf1 as (_ & Hsh & _). by eapply (Hsh a).
      + constructor; [|done]. right. destruct Hwf as [? _]. lia. }
  apply bind_inv in Hrun as (s2' & sx & [= <- <-] & Hrun).
  apply dict_get_inv in Hrun as [-> Hl].
  split.
  - destruct Hg as [Hwf2 Hn]. split; [done|]. simpl in Hn. lia.
  - destruct Hg as [(_ & Hsh & _) _]. by eapply Hsh.
Qed.

Lemma wf_classes_from_tuple (shape_arg : string) (idx : list nat) :
  ∀ (acc : list Z) (s : state) (r : list Z) (s' : state),
  well_formed s → Forall (class_ok (next_eq_class s)) acc →
  classes_from_tuple shape_arg idx acc s = Ok r s' → shape_result s r s'.
Proof.
  induction idx as [|i idx IH]; intros acc s r s' Hwf Hacc.
  { simpl. intros [= <- <-]. split; [by apply grows_refl|done]. }
  simpl. intros Hrun.
  apply bind_inv in Hrun as (new & sx & Hnew & Hrun).
  rewrite get_next_class_ok in Hnew. injection Hnew as <- <-.
  apply bind_inv in Hrun as (s0 & sx & [= <- <-] & Hrun).
  apply bind_inv in Hrun as (t & sx & Ht & Hrun).
  apply dict_get_inv in Ht as [-> Ht].
  apply bind_inv in Hrun as (x & sx & Hx & Hrun).
  apply py_index_inv in Hx as [-> _].
  apply bind_inv in Hrun as ([] & s1 & [= <-] & Hrun).
  destruct (wf_next_class s Hwf) as [(Hpos1 & Hsh1 & Hkeys1 & H01) Hn1].
  destruct Hwf as (Hpos & _).
  apply IH in Hrun as [[Hwf' Hn'] Hr].
  - split; [|done]. split; [done|]. simpl in Hn'. lia.
  - split; [done|]. split; [done|]. split.
    + intros c. simpl. destruct (decide (c = next_eq_class s)) as [->|Hne].
      * intros _. lia.
      * rewrite lookup_insert_ne by done. apply Hkeys1.
    + simpl. rewrite lookup_insert_ne by lia. done.
  - simpl. apply Forall_app. split.
    + eapply Forall_impl; [exact Hacc|]. intros y Hy.
      eapply class_ok_mono; [|done]. lia.
    + constructor; [|done]. right. lia.
Qed.

Lemma wf_get_classes_from_shape (shape_arg : string) (s s' : state)
    (r : list Z) :
  well_formed s → _get_classes_from_shape shape_arg s = Ok r s' →
  shape_result s r s'.
Proof.
  intros Hwf Hrun. unfold _get_classes_from_shape in Hrun.
  apply bind_inv in Hrun as (s0 & sx & [= <- <-] & Hrun).
  apply bind_inv in Hrun as (t & sx & Ht & Hrun).
  apply dict_get_inv in Ht as [-> Ht].
  destruct t; try done.
  apply bind_inv in Hrun as (cnt & sx & [= <- <-] & Hrun).
  by eapply wf_classes_from_tuple.
Qed.

(** *** The inference rules *)

Lemma print_inv (d : diag) (s s' : state) (u : unit) :
  print d s = Ok u s' → same_core s s'.
Proof. destruct u. rewrite print_ok. intros [= <-]. done. Qed.

Lemma wf_no_rule (ds : list diag) (s s' : state) (r : list Z) :
  well_formed s →
  foldr (λ d (k : M (list Z)), print d >> k) (ret []) ds s = Ok r s' →
  shape_result s r s'.
Proof.
  intros Hwf. revert s Hwf. induction ds as [|d ds IH]; intros s Hwf; simpl.
  { intros [= <- <-]. split; [by apply grows_refl|done]. }
  intros Hrun. apply bind_inv in Hrun as ([] & s1 & Hp & Hrun).
  apply print_inv in Hp.
  destruct (same_core_grows _ _ Hwf Hp) as [Hwf1 Hn1].
  destruct (IH _ Hwf1 Hrun) as [[Hwf' Hn'] Hr].
  split; [|done]. split; [done|lia].
Qed.

Lemma read_class_inv (a : string) (i : Z) (s s' : state) (x : Z) :
  well_formed s →
  (l <- shape_of a ;; py_index l i) s = Ok x s' →
  s' = s ∧ class_ok (next_eq_class s) x.
Proof.
  intros Hwf Hrun. apply bind_inv in Hrun as (l & sx & Hl & Hx).
  apply shape_of_inv in Hl as [-> Hl]. apply py_index_inv in Hx as [-> Hx].
  split; [done|]. destruct Hwf as (_ & Hsh & _).
  specialize (Hsh a l Hl). rewrite Forall_forall in Hsh. by apply Hsh.
Qed.

Lemma wf_analyze_np_call (cfg : config) (call_name : string)
    (args : list callarg) (s s' : state) (r : list Z) :
  well_formed s → _analyze_np_call cfg call_name args s = Ok r s' →
  shape_result s r s'.
Proof.
  intros Hwf Hrun. unfold _analyze_np_call in Hrun.
  destruct (bool_decide (call_name = "transpose")).
  { apply bind_inv in Hrun as (a0 & sx & Ha0 & Hrun).
    apply py_index_inv in Ha0 as [-> _].
    apply bind_inv in Hrun as (n0 & sx & Hn0 & Hrun).
    apply arg_name_inv in Hn0 as [-> _].
    apply bind_inv in Hrun as (l & sx & Hl & Hrun).
    destruct (wf_shape_of _ _ _ _ Hwf Hl) as [Hg Hok].
    injection Hrun as <- <-. split; [done|]. by apply Forall_reverse. }
  destruct (bool_decide (call_name ∈ ["empty"; "zeros"; "ones"])).
  { apply bind_inv in Hrun as (a0 & sx & Ha0 & Hrun).
    apply py_index_inv in Ha0 as [-> _].
    apply bind_inv in Hrun as (n0 & sx & Hn0 & Hrun).
    apply arg_name_inv in Hn0 as [-> _].
    by eapply wf_get_classes_from_shape. }
  destruct (bool_decide (call_name ∈ ["empty_like"; "zeros_like"; "ones_like"])).
  { apply bind_inv in Hrun as (a0 & sx & Ha0 & Hrun).
    apply py_index_inv in Ha0 as [-> _].
    apply bind_inv in Hrun as (n0 & sx & Hn0 & Hrun).
    apply arg_name_inv in Hn0 as [-> _].
    by eapply wf_shape_of. }
  destruct (bool_decide (call_name = "reshape")).
  { apply bind_inv in Hrun as (a0 & sx & Ha0 & Hrun).
    apply py_index_inv in Ha0 as [-> _].
    apply bind_inv in Hrun as (n0 & sx & Hn0 & Hrun).
    apply arg_name_inv in Hn0 as [-> _].
    by eapply wf_get_classes_from_shape. }
  destruct (bool_decide (call_name = "dot")).
  { apply bind_inv in Hrun as ([] & sx & Has & Hrun).
    apply assert_inv in Has as [-> _].
    apply bind_inv in Hrun as (a0 & sx & Ha0 & Hrun).
    apply py_index_inv in Ha0 as [-> _].
    apply bind_inv in Hrun as (in1 & sx & Hn0 & Hrun).
    apply arg_name_inv in Hn0 as [-> _].
    apply bind_inv in Hrun as (a1 & sx & Ha1 & Hrun).
    apply py_index_inv in Ha1 as [-> _].
    apply bind_inv in Hrun as (in2 & sx & Hn1 & Hrun).
    apply arg_name_inv in Hn1 as [-> _].
    apply bind_inv in Hrun as (nd1 & sx & Hnd1 & Hrun).
    apply get_ndims_inv in Hnd1 as [-> _].
    apply bind_inv in Hrun as (nd2 & sx & Hnd2 & Hrun).
    apply get_ndims_inv in Hnd2 as [-> _].
    apply bind_inv in Hrun as (l1 & sx & Hl1 & Hrun).
    apply shape_of_inv in Hl1 as [-> Hl1].
    apply bind_inv in Hrun as (c1 & sx & Hc1 & Hrun).
    apply py_index_inv in Hc1 as [-> Hc1].
    apply bind_inv in Hrun as (l2 & sx & Hl2 & Hrun).
    apply shape_of_inv in Hl2 as [-> Hl2].
    apply bind_inv in Hrun as (c2 & sx & Hc2 & Hrun).
    assert (sx = s ∧ c2 ∈ l2) as [-> Hc2'].
    { destruct (bool_decide (nd2 = 1%nat)); by apply py_index_inv in Hc2. }
    pose proof Hwf as (_ & Hsh & _).
    pose proof (Hsh _ _ Hl1) as Hok1. pose proof (Hsh _ _ Hl2) as Hok2.
    rewrite Forall_forall in Hok1, Hok2.
    apply bind_inv in Hrun as (c_inner & s1 & Hm & Hrun).
    destruct (wf_merge_classes _ _ _ _ _ Hwf (Hok1 _ Hc1) (Hok2 _ Hc2') Hm)
      as [[Hwf1 Hn1] _].
    apply bind_inv in Hrun as (out1 & sx & Ho1 & Hrun).
    apply (mapM_inv_pure _ (class_ok (next_eq_class s1))) in Ho1 as [-> Ho1];
      [|intros i a sy Hi; by eapply read_class_inv].
    apply bind_inv in Hrun as (out2 & sx & Ho2 & Hrun).
    apply (mapM_inv_pure _ (class_ok (next_eq_class s1))) in Ho2 as [-> Ho2];
      [|intros i a sy Hi; by eapply read_class_inv].
    apply bind_inv in Hrun as (out3 & sx & Ho3 & Hrun).
    assert (sx = s1 ∧ Forall (class_ok (next_eq_class s1)) out3) as [-> Ho3'].
    { destruct (decide (1 < nd2)%nat); [|by injection Ho3 as <- <-].
      apply bind_inv in Ho3 as (l3 & sy & Hl3 & Ho3).
      apply bind_inv in Ho3 as (x & sz & Hx & Ho3).
      injection Ho3 as <- <-.
      destruct (read_class_inv in2 (Z.of_nat nd2 - 1) s1 sz x Hwf1) as [-> Hxok].
      { unfold bind. rewrite Hl3. exact Hx. }
      split; [done|]. by constructor. }
    injection Hrun as <- <-.
    split; [by split|]. rewrite !Forall_app. by repeat split. }
  destruct (bool_decide (call_name ∈ UFUNC_MAP_OP cfg)).
  { apply bind_inv in Hrun as (names & sx & Hnames & Hrun).
    apply (mapM_inv_pure _ (λ _, True)) in Hnames as [-> _];
      [|intros a n sy Ha; by apply arg_name_inv in Ha as [-> _]].
    by eapply wf_broadcast. }
  apply bind_inv in Hrun as ([] & s1 & Hp & Hrun).
  apply print_inv in Hp. injection Hrun as <- <-.
  split; [by apply same_core_grows|].
  constructor; [by left|done].
Qed.

Lemma wf_analyze_rhs_classes (cfg : config) (nd : node) (s s' : state)
    (r : list Z) :
  well_formed s → _analyze_rhs_classes cfg nd s = Ok r s' →
  shape_result s r s'.
Proof.
  intros Hwf Hrun.
  assert (∀ ds, foldr (λ d (k : M (list Z)), print d >> k) (ret []) ds s
                = Ok r s' → shape_result s r s') as Hnone
    by (intros ds; by apply wf_no_rule).
  destruct nd as [nm|nm|nm g|k|e|kind]; simpl in Hrun;
    try (exact (Hnone [_] Hrun)).
  - apply bind_inv in Hrun as (b & sx & Hb & Hrun).
    apply isarray_inv in Hb as [-> _].
    apply bind_inv in Hrun as ([] & sx & Has & Hrun).
    apply assert_inv in Has as [-> _].
    by eapply wf_add_array_corr.
  - by eapply wf_shape_of.
  - destruct e; simpl in Hrun; try (exact (Hnone [_; _] Hrun)).
    + apply bind_inv in Hrun as (b & sx & Hb & Hrun).
      apply isarray_inv in Hb as [-> _]. destruct b.
      * destruct (bool_decide (attr = "T")); [|exact (Hnone [_] Hrun)].
        by eapply wf_analyze_np_call.
      * exact (Hnone [_; _] Hrun).
    + destruct (bool_decide (fn ∈ UNARY_MAP_OP cfg));
        [|exact (Hnone [_; _] Hrun)].
      apply bind_inv in Hrun as (b & sx & Hb & Hrun).
      apply isarray_inv in Hb as [-> _].
      apply bind_inv in Hrun as ([] & sx & Has & Hrun).
      apply assert_inv in Has as [-> _].
      by eapply wf_shape_of.
    + destruct (bool_decide (fn ∈ BINARY_MAP_OP cfg));
        [|exact (Hnone [_; _] Hrun)].
      by eapply wf_broadcast.
    + destruct (bool_decide (immutable_fn ∈ BINARY_MAP_OP cfg));
        [|exact (Hnone [_; _] Hrun)].
      by eapply wf_broadcast.
    + by eapply wf_broadcast.
    + by eapply wf_shape_of.
    + apply bind_inv in Hrun as (s0 & sx & [= <- <-] & Hrun).
      destruct (bool_decide (func ∈ map_calls s)).
      * apply bind_inv in Hrun as (a0 & sx & Ha0 & Hrun).
        apply py_index_inv in Ha0 as [-> _]. by eapply wf_shape_of.
      * destruct (numpy_calls s !! func) as [nm|].
        { apply bind_inv in Hrun as ([] & sx & Has & Hrun).
          apply assert_inv in Has as [-> _]. by eapply wf_analyze_np_call. }
        destruct (array_attr_calls s !! func) as [[nm arr]|].
        { apply bind_inv in Hrun as ([] & sx & Has & Hrun).
          apply assert_inv in Has as [-> _]. by eapply wf_analyze_np_call. }
        apply bind_inv in Hrun as ([] & sx & Has & Hrun).
        by apply assert_inv in Has as [_ ?].
Qed.

(** *** Assignments and the run *)

Lemma same_core_wf (s s' : state) :
  well_formed s → same_core s s' →
  well_formed s' ∧ next_eq_class s' = next_eq_class s.
Proof.
  intros Hwf Hsc. destruct (same_core_grows _ _ Hwf Hsc) as [Hwf' _].
  split; [done|]. by destruct Hsc as (_ & _ & ?).
Qed.

Lemma wf_size_loop (cfg : config) (lhs : string) (corrs : list Z) :
  ∀ (i : nat) (acc : list inst) (s : state) (r : list inst) (s' : state),
  well_formed s → Forall (class_ok (next_eq_class s)) corrs →
  size_loop cfg lhs i corrs acc s = Ok r s' →
  well_formed s' ∧ next_eq_class s' = next_eq_class s.
Proof.
  induction corrs as [|corr corrs IH]; intros i acc s r s' Hwf Hok.
  { simpl. by intros [= _ <-]. }
  apply Forall_cons in Hok as [Hcorr Hok].
  cbn [size_loop]. intros Hrun.
  apply bind_inv in Hrun as (s0 & sx & [= <- <-] & Hrun).
  destruct (bool_decide (corr = -1)
            || bool_decide (class_sizes s !! corr = None)) eqn:Hcond.
  - apply bind_inv in Hrun as (nodes & s1 & Hgen & Hrun).
    apply (same_core_inv _ _ _ _ (sc_gen_size_call s cfg lhs i)) in Hgen.
    destruct (same_core_wf _ _ Hwf Hgen) as [Hwf1 Hn1].
    apply bind_inv in Hrun as (last & sx & Hlast & Hrun).
    apply py_index_inv in Hlast as [-> _].
    apply bind_inv in Hrun as (size_var & sx & Hsv & Hrun).
    assert (sx = s1) as ->.
    { destruct last; [by injection Hsv as _ <-|done]. }
    apply bind_inv in Hrun as ([] & s2 & Hrec & Hrun).
    assert (well_formed s2 ∧ next_eq_class s2 = next_eq_class s1)
      as [Hwf2 Hn2].
    { destruct (bool_decide_reflect (corr = -1)) as [->|Hne].
      - by injection Hrec as <-.
      - injection Hrec as <-. simpl. split; [|done].
        destruct Hwf1 as (Hpos & Hsh & Hkeys & H0).
        destruct Hcorr as [?|Hcorr]; [done|].
        split; [done|]. split; [done|]. split.
        + intros c. simpl. destruct (decide (c = corr)) as [->|Hc].
          * intros _. lia.
          * rewrite lookup_insert_ne by done. apply Hkeys.
        + simpl. rewrite lookup_insert_ne by lia. done. }
    apply bind_inv in Hrun as ([] & s3 & Hset & Hrun).
    apply (same_core_inv _ _ _ _ (sc_set_size_var s2 lhs i _)) in Hset.
    destruct (same_core_wf _ _ Hwf2 Hset) as [Hwf3 Hn3].
    apply IH in Hrun as [Hwf' Hn']; [|done|].
    + split; [done|]. congruence.
    + by rewrite Hn3, Hn2, Hn1.
  - apply bind_inv in Hrun as (l & sx & Hl & Hrun).
    apply dict_get_inv in Hl as [-> _].
    apply bind_inv in Hrun as (x & sx & Hx & Hrun).
    apply py_index_inv in Hx as [-> _].
    apply bind_inv in Hrun as ([] & s3 & Hset & Hrun).
    apply (same_core_inv _ _ _ _ (sc_set_size_var s lhs i _)) in Hset.
    destruct (same_core_wf _ _ Hwf Hset) as [Hwf3 Hn3].
    apply IH in Hrun as [Hwf' Hn']; [|done|].
    + split; [done|]. congruence.
    + by rewrite Hn3.
Qed.

Lemma wf_analyze_assign (cfg : config) (rhs : node) (lhs : string)
    (s s' : state) (r : list inst) :
  well_formed s → _analyze_assign cfg rhs lhs s = Ok r s' → grows s s'.
Proof.
  intros Hwf Hrun. pose proof Hrun as Hrun0.
  unfold _analyze_assign in Hrun.
  apply bind_inv in Hrun as ([] & s1 & Hrec & Hrun).
  pose proof (same_core_inv _ _ _ _ (sc_record_tables s lhs rhs)
                Hrec) as Hsc1.
  destruct (same_core_wf _ _ Hwf Hsc1) as [Hwf1 Hn1].
  apply bind_inv in Hrun as (b & s1' & Harr & Hrun).
  apply isarray_inv in Harr as [-> Hty].
  destruct b; [|injection Hrun as _ <-; split; [done|lia]].
  apply bind_inv in Hrun as (corrs & s2 & Hrhs & _).
  destruct (wf_analyze_rhs_classes _ _ _ _ _ Hwf1 Hrhs) as [[Hwf2 Hn2] Hok].
  rewrite (analyze_assign_array cfg rhs lhs s s1 s2 corrs) in Hrun0 by done.
  assert (size_loop cfg lhs 0 corrs [] (start_sizes lhs corrs s2) = Ok r s' →
          grows s s') as Hloop.
  { intros Hl. apply wf_size_loop in Hl as [Hwf' Hn'].
    - split; [done|]. rewrite Hn'. simpl. lia.
    - unfold start_sizes.
      apply (same_core_wf (set_array_shape_classes <[lhs:=corrs]> s2));
        [by apply wf_insert_shape|done].
    - done. }
  destruct (array_shape_classes s2 !! lhs) as [old|]; [|by apply Hloop].
  destruct (decide (old = corrs)); [by apply Hloop|].
  injection Hrun0 as _ <-. split; [|simpl; lia].
  unfold downgraded.
  apply (same_core_wf
           (set_array_shape_classes <[lhs:=replicate (length old) (-1)]> s2));
    [|done].
  apply wf_insert_shape; [done|]. apply Forall_replicate. by left.
Qed.

Lemma wf_block_loop (cfg : config) (body : list inst) :
  ∀ (acc : list inst) (s : state) (r : list inst) (s' : state),
  well_formed s → block_loop cfg body acc s = Ok r s' → grows s s'.
Proof.
  induction body as [|i body IH]; intros acc s r s' Hwf.
  { simpl. intros [= _ <-]. by apply grows_refl. }
  simpl. intros Hrun.
  apply bind_inv in Hrun as (g & s1 & Hi & Hrun).
  assert (grows s s1) as Hg.
  { destruct i; simpl in Hi; [by eapply wf_analyze_assign|].
    injection Hi as _ <-. by apply grows_refl. }
  eapply grows_trans; [exact Hg|]. eapply IH; [|exact Hrun]. by destruct Hg.
Qed.

Lemma wf_run (cfg : config) (blocks : list (Z * list inst)) :
  ∀ (s : state) (r : list (Z * list inst)) (s' : state),
  well_formed s → run cfg blocks s = Ok r s' → grows s s'.
Proof.
  induction blocks as [|[key body] blocks IH]; intros s r s' Hwf.
  { simpl. intros [= _ <-]. by apply grows_refl. }
  simpl. intros Hrun.
  apply bind_inv in Hrun as (body' & s1 & Hb & Hrun).
  apply wf_block_loop in Hb; [|done].
  apply bind_inv in Hrun as (rest' & s2 & Hr & Hrun).
  injection Hrun as _ <-.
  eapply grows_trans; [exact Hb|]. eapply IH; [|exact Hr]. by destruct Hb.
Qed.

Lemma wf_init (tm : gmap string ty) (ct : list expr) (uniq : nat) :
  well_formed (init tm ct uniq).
Proof.
  split; [done|]. split; [|split].
  - intros v l. simpl. by rewrite lookup_empty.
  - intros c. simpl. destruct (decide (c = 0)) as [->|Hne]; [lia|].
    rewrite lookup_singleton_ne by done. by intros [? ?].
  - done.
Qed.

(** X7.  Every class in use was allocated: after a run from the initial state,
    each class in a recorded shape is [-1] or lies strictly between 0 and
    the class counter, and each key of the class-size table lies between 0
    and the counter, which never drops below 1.  So the class the next merge
    or parameter hands out occurs nowhere yet. *)
Theorem classes_in_use_are_allocated (cfg : config) (tm : gmap string ty)
    (ct : list expr) (uniq : nat) (blocks out : list (Z * list inst))
    (s' : state) :
  run cfg blocks (init tm ct uniq) = Ok out s' →
  1 ≤ next_eq_class s'
  ∧ (∀ v l c, array_shape_classes s' !! v = Some l → c ∈ l →
       c = -1 ∨ 0 < c < next_eq_class s')
  ∧ (∀ c, is_Some (class_sizes s' !! c) → 0 ≤ c < next_eq_class s').
Proof.
  intros Hrun.
  destruct (wf_run cfg blocks _ _ _ (wf_init tm ct uniq) Hrun)
    as [(Hpos & Hsh & Hkeys & _) _].
  split; [lia|]. split; [|done].
  intros v l c Hl Hc. specialize (Hsh v l Hl).
  rewrite Forall_forall in Hsh. by apply Hsh.
Qed.

(** X8.  Class 0 stays what the constructor made it: after a run from the
    initial state its class-size entry is still the constant 1 and no
    recorded shape contains it (it occurs only as padding inside the
    broadcast rule). *)
Theorem class_zero_is_reserved (cfg : config) (tm : gmap string ty)
    (ct : list expr) (uniq : nat) (blocks out : list (Z * list inst))
    (s' : state) :
  run cfg blocks (init tm ct uniq) = Ok out s' →
  class_sizes s' !! 0 = Some [SConst (KInt 1)]
  ∧ ∀ v l, array_shape_classes s' !! v = Some l → 0 ∉ l.
Proof.
  intros Hrun.
  destruct (wf_run cfg blocks _ _ _ (wf_init tm ct uniq) Hrun)
    as [(Hpos & Hsh & _ & H0) _].
  split; [done|].
  intros v l Hl Hin. specialize (Hsh v l Hl).
  rewrite Forall_forall in Hsh. destruct (Hsh 0 Hin); lia.
Qed.

(** * The call rule and its registries *)

Lemma call_through_method (cfg : config) (s : state) (func : string)
    (args : list string) (call_name arr : string) :
  func ∉ map_calls s → numpy_calls s !! func = None →
  array_attr_calls s !! func = Some (call_name, arr) →
  call_name ≠ "NULL" →
  _analyze_rhs_classes cfg (Expr (ECall func args)) s
  = _analyze_np_call cfg call_name (AStr arr :: (AVar <$> args)) s.
Proof.
  intros Hmap Hnp Hattr Hnull. simpl.
  erewrite bind_ok; [|reflexivity].
  rewrite bool_decide_eq_false_2 by done.
  rewrite Hnp, Hattr. erewrite bind_ok; [done|].
  by rewrite bool_decide_eq_false_2.
Qed.

(** X9.  A call of an array method ([t = a.m; ... = t(args)]) hands the
    receiver to the named rules as a bare name, not as a variable.  Every
    rule that reads its first argument's [.name] therefore raises
    [AttributeError]: [transpose], the creation rules, the [_like] rules,
    [dot] (after its assertion on the argument count, which fails unless the
    method got one or two arguments) and the universal functions.  Only
    [reshape], which reads its second argument, works: it takes the shape
    from the first explicit argument. *)
Theorem method_call_receiver (cfg : config) (s : state) (func : string)
    (args : list string) (call_name arr : string) :
  func ∉ map_calls s → numpy_calls s !! func = None →
  array_attr_calls s !! func = Some (call_name, arr) →
  (call_name ∈ first_argument_rules →
     _analyze_rhs_classes cfg (Expr (ECall func args)) s
     = Err AttributeError)
  ∧ (call_name = "dot" →
     _analyze_rhs_classes cfg (Expr (ECall func args)) s
     = Err (if decide (length args = 1 ∨ length args = 2)%nat
            then AttributeError else AssertionError))
  ∧ (call_name ∈ UFUNC_MAP_OP cfg → call_name ∉ named_rules →
     call_name ≠ "NULL" →
     _analyze_rhs_classes cfg (Expr (ECall func args)) s
     = Err AttributeError)
  ∧ (call_name = "reshape" →
     _analyze_rhs_classes cfg (Expr (ECall func args)) s
     = (shape_arg <- py_index args 0 ;; _get_classes_from_shape shape_arg) s).
Proof.
  intros Hmap Hnp Hattr.
  split; [|split; [|split]].
  - intros Hin. unfold first_argument_rules in Hin.
    rewrite !elem_of_cons in Hin.
    destruct Hin as [->|[->|[->|[->|[->|[->|[->|Hin]]]]]]];
      [..|by apply elem_of_nil in Hin];
      by rewrite (call_through_method _ _ _ _ _ _ Hmap Hnp Hattr).
  - intros ->. rewrite (call_through_method _ _ _ _ _ _ Hmap Hnp Hattr) by done.
    rewrite dot_dispatch.
    by destruct args as [|a1 [|a2 [|a3 rest]]].
  - intros Hufunc Hnamed Hnull.
    rewrite (call_through_method _ _ _ _ _ _ Hmap Hnp Hattr) by done.
    unfold _analyze_np_call, named_rules in *.
    rewrite !not_elem_of_cons in Hnamed.
    destruct Hnamed as (? & ? & ? & ? & ? & ? & ? & ? & ? & _).
    rewrite (bool_decide_eq_false_2 (call_name = "transpose")) by done.
    rewrite (bool_decide_eq_false_2 (call_name ∈ ["empty"; "zeros"; "ones"]))
      by (rewrite !not_elem_of_cons; repeat split; try done;
          apply not_elem_of_nil).
    rewrite (bool_decide_eq_false_2
               (call_name ∈ ["empty_like"; "zeros_like"; "ones_like"]))
      by (rewrite !not_elem_of_cons; repeat split; try done;
          apply not_elem_of_nil).
    rewrite (bool_decide_eq_false_2 (call_name = "reshape")) by done.
    rewrite (bool_decide_eq_false_2 (call_name = "dot")) by done.
    rewrite (bool_decide_eq_true_2 (call_name ∈ UFUNC_MAP_OP cfg)) by done.
    done.
  - intros ->. rewrite (call_through_method _ _ _ _ _ _ Hmap Hnp Hattr) by done.
    destruct args as [|a1 rest]; [done|].
    change (_analyze_np_call cfg "reshape" (AStr arr :: (AVar <$> a1 :: rest)) s)
      with ((a1' <- py_index (AStr arr :: AVar a1 :: (AVar <$> rest)) 1 ;;
             n1 <- arg_name a1' ;; _get_classes_from_shape n1) s).
    erewrite bind_ok; [|by apply (py_index_nat _ 1)].
    erewrite (bind_ok (py_index (a1 :: rest) 0));
      [|by apply (py_index_nat _ 0)].
    done.
Qed.

Lemma isarray_false (s : state) (v : string) :
  is_array_ty <$> typemap s !! v = Some false → _isarray v s = Ok false s.
Proof.
  intros Hty. unfold _isarray. munfold.
  destruct (typemap s !! v) as [t|]; [|done].
  simpl in *. injection Hty as Hty. by rewrite Hty.
Qed.

(** X10.  Looking a function up on the numpy module registers it for the
    call rule: after [np = <numpy module>; f = np.attr], with neither target
    an array, only the two registries have changed, nothing was generated,
    and every call [f(args)] is analysed by the named rule for [attr] on the
    arguments as variables. *)
Theorem numpy_function_dispatch (cfg : config) (s : state)
    (np f attr nm : string) (g : glob) :
  g_is_ufunc g = false → g_name g = Some "numpy" →
  is_array_ty <$> typemap s !! np = Some false →
  is_array_ty <$> typemap s !! f = Some false →
  f ∉ map_calls s → attr ≠ "NULL" →
  _analyze_block cfg
    [Assign (Global nm g) np; Assign (Expr (EGetattr np attr)) f] s
  = Ok [Assign (Global nm g) np; Assign (Expr (EGetattr np attr)) f]
       (after_numpy_lookup np f attr s)
  ∧ ∀ args,
      _analyze_rhs_classes cfg (Expr (ECall f args))
        (after_numpy_lookup np f attr s)
      = _analyze_np_call cfg attr (AVar <$> args)
          (after_numpy_lookup np f attr s).
Proof.
  intros Hu Hg Hnp Hf Hmap Hnull. split.
  - unfold _analyze_block. cbn [block_loop _analyze_inst].
    erewrite bind_ok.
    2:{ unfold _analyze_assign. erewrite bind_ok.
        2:{ simpl. rewrite Hu, Hg. reflexivity. }
        erewrite bind_ok; [|by apply isarray_false]. reflexivity. }
    erewrite bind_ok.
    2:{ unfold _analyze_assign. erewrite bind_ok.
        2:{ simpl. unfold bind, get.
            rewrite bool_decide_eq_true_2; [reflexivity|].
            simpl. apply elem_of_app. right. by left. }
        erewrite bind_ok; [|by apply isarray_false]. reflexivity. }
    reflexivity.
  - intros args. simpl. erewrite bind_ok; [|reflexivity].
    rewrite bool_decide_eq_false_2 by done.
    simpl. rewrite lookup_insert_eq.
    erewrite bind_ok; [done|]. by rewrite bool_decide_eq_false_2.
Qed.

(** X11.  A global that is a universal function makes its target a map
    call: the assignment only appends the target to the map-call list (and
    to the numpy globals when the function happens to be named [numpy]),
    and every later call through the target copies the recorded shape of the
    first argument whatever the other arguments are; without arguments the
    call raises [IndexError]. *)
Theorem ufunc_global_call (cfg : config) (s : state) (f nm : string)
    (g : glob) :
  g_is_ufunc g = true → is_Some (g_name g) →
  is_array_ty <$> typemap s !! f = Some false →
  ∃ s1,
    _analyze_assign cfg (Global nm g) f s = Ok [] s1
    ∧ map_calls s1 = map_calls s ++ [f]
    ∧ same_core s s1
    ∧ (∀ a rest l, array_shape_classes s !! a = Some l →
         _analyze_rhs_classes cfg (Expr (ECall f (a :: rest))) s1 = Ok l s1)
    ∧ _analyze_rhs_classes cfg (Expr (ECall f [])) s1 = Err IndexError.
Proof.
  intros Hu [gname Hg] Hf.
  assert (∀ s1, map_calls s1 = map_calls s ++ [f] → same_core s s1 →
            (∀ a rest l, array_shape_classes s !! a = Some l →
               _analyze_rhs_classes cfg (Expr (ECall f (a :: rest))) s1
               = Ok l s1)
            ∧ _analyze_rhs_classes cfg (Expr (ECall f [])) s1
              = Err IndexError) as Hcalls.
  { intros s1 Hm (Hsh & _ & _).
    assert (f ∈ map_calls s1) as Hin
      by (rewrite Hm; apply elem_of_app; right; by left).
    split.
    - intros a rest l Hl. simpl. erewrite bind_ok; [|reflexivity].
      rewrite bool_decide_eq_true_2 by done.
      erewrite bind_ok; [|by apply (py_index_nat _ 0)].
      apply shape_of_ok. by rewrite Hsh.
    - simpl. erewrite bind_ok; [|reflexivity].
      by rewrite bool_decide_eq_true_2. }
  unfold _analyze_assign. simpl record_tables. rewrite Hu, Hg.
  destruct (bool_decide (gname = "numpy")).
  - eexists. split.
    { erewrite bind_ok; [|reflexivity].
      erewrite bind_ok; [|by apply isarray_false]. reflexivity. }
    split; [done|]. split; [done|]. by apply Hcalls.
  - eexists. split.
    { erewrite bind_ok; [|reflexivity].
      erewrite bind_ok; [|by apply isarray_false]. reflexivity. }
    split; [done|]. split; [done|]. by apply Hcalls.
Qed.

(** * Broadcasting operands that already share their classes *)

Lemma spec_dim_shared (x : Z) (others : list Z) :
  ∀ (c : Z) (s : state),
  Forall (λ e, e = 0 ∨ e = x) others →
  c = x ∨ (c = 0 ∧ x ∈ others) →
  spec_dim others c s = Ok x s.
Proof.
  induction others as [|e rest IH]; intros c s Hall Hc.
  { destruct Hc as [->|[_ Hin]]; [done|by apply elem_of_nil in Hin]. }
  apply Forall_cons in Hall as [He Hall]. simpl.
  destruct (decide (e ≠ 0 ∧ e ≠ c)) as [[He0 Hec]|Hno].
  - destruct He as [He | ->]; [done|].
    destruct Hc as [Hc|[-> _]]; [done|].
    rewrite decide_True by done. apply IH; [done|by left].
  - apply IH; [done|].
    destruct Hc as [->|[-> Hin]]; [by left|].
    destruct (decide (x = 0)) as [->|Hx]; [by left|].
    right. split; [done|].
    apply elem_of_cons in Hin as [->|Hin]; [|done].
    tauto.
Qed.

Lemma class_at_suffix (l sh : list Z) (i : nat) :
  sh `suffix_of` l →
  class_at i (spec_pad (length l) sh) = 0
  ∨ class_at i (spec_pad (length l) sh) = class_at i l.
Proof.
  intros [k ->]. unfold spec_pad, class_at.
  rewrite length_app.
  replace (length k + length sh - length sh)%nat with (length k) by lia.
  destruct (decide (i < length k)%nat) as [Hi|Hi].
  - left. rewrite lookup_app_l by (by rewrite length_replicate).
    by rewrite lookup_replicate_2.
  - right. rewrite !lookup_app_r by (rewrite ?length_replicate; lia).
    by rewrite length_replicate.
Qed.

(** X12.  Broadcasting needs no merge when the operands already share
    their classes: if one operand has the shape vector [l] and every
    operand's vector is a suffix of [l] (the same vector, or the trailing
    dimensions of it), the rule returns [l] and leaves the state as it
    was. *)
Theorem broadcast_shared_classes (s : state) (args : list string)
    (shapes : list (list Z)) (l : list Z) :
  Forall2 (recorded_array s) args shapes →
  l ∈ shapes →
  Forall (λ sh, sh `suffix_of` l) shapes →
  _broadcast_and_match_shapes args s = Ok l s.
Proof.
  intros Hall Hl Hsuf.
  destruct (collect_shapes _ _ _ Hall) as [Hflags Heqs].
  destruct Hall as [|a sh0 args shs Ha Hall]; [by apply elem_of_nil in Hl|].
  set (shapes := sh0 :: shs) in *.
  set (n := length l).
  assert (max_list (length <$> shapes) = n) as Hmax.
  { apply Nat.le_antisymm.
    - assert (max_list (length <$> shapes) ∈ length <$> shapes) as Hin
        by (by apply max_list_elem_of).
      apply list_elem_of_fmap in Hin as (sh & -> & Hsh).
      rewrite Forall_forall in Hsuf. by apply suffix_length, Hsuf.
    - apply max_list_elem_of_le. apply list_elem_of_fmap. eauto. }
  assert (Forall (λ e, length (spec_pad n e) = n) shapes) as Hlen.
  { apply Forall_forall. intros e He. apply spec_pad_length.
    rewrite Forall_forall in Hsuf. by apply suffix_length, Hsuf. }
  assert (mapM (dim_code (spec_pad n <$> shapes)) (seq 0 n) s = Ok l s)
    as Hcode.
  { rewrite (mapM_pure _ (λ i, class_at i l)).
    - f_equal. apply list_eq. intros i. rewrite list_lookup_fmap.
      destruct (decide (i < n)%nat) as [Hi|Hi].
      + rewrite lookup_seq_lt by done. simpl. unfold class_at.
        by destruct (lookup_lt_is_Some_2 l i Hi) as [x ->].
      + rewrite lookup_seq_ge by lia. simpl. symmetry.
        apply lookup_ge_None. unfold n in Hi. lia.
    - intros i Hi. apply elem_of_seq in Hi.
      subst shapes. rewrite fmap_cons. rewrite dim_code_spec.
      2:{ rewrite <- fmap_cons. apply Forall_fmap.
          eapply Forall_impl; [exact Hlen|]. simpl. intros e ->. lia. }
      assert (class_at i l ∈ class_at i <$> (spec_pad n <$> sh0 :: shs))
        as Hin.
      { apply list_elem_of_fmap. exists l. split; [done|].
        apply list_elem_of_fmap. exists l. split; [|done].
        unfold spec_pad, n. by rewrite Nat.sub_diag. }
      assert (Forall (λ e, e = 0 ∨ e = class_at i l)
                (class_at i <$> (spec_pad n <$> sh0 :: shs))) as Hzero.
      { apply Forall_fmap, Forall_fmap.
        eapply Forall_impl; [exact Hsuf|]. simpl. intros sh Hsh.
        by apply class_at_suffix. }
      rewrite !fmap_cons in Hin, Hzero.
      apply Forall_cons in Hzero as [Hc Hzero].
      apply spec_dim_shared; [done|].
      destruct Hc as [Hc|Hc]; [|by left].
      apply elem_of_cons in Hin as [Hin|Hin]; [left; congruence|].
      by right. }
  unfold _broadcast_and_match_shapes.
  erewrite bind_ok; [|exact Hflags].
  erewrite bind_ok; [|done].
  erewrite bind_ok; [|exact Heqs].
  erewrite (bind_ok _ _ _ n);
    [|rewrite <- Hmax; subst shapes; simpl py_max; by rewrite foldl_max_list].
  cbv zeta.
  rewrite (list_fmap_ext (pad_front n) (spec_pad n))
    by (intros; apply pad_front_spec).
  unfold range.
  rewrite (match_dims_mapM _ n 0 _ l s s);
    [|by rewrite length_replicate|done].
  simpl. rewrite drop_ge by (rewrite length_replicate; lia).
  by rewrite app_nil_r.
Qed.

(** * Parameters *)

Lemma fresh_classes_S (c : Z) (n : nat) :
  fresh_classes c (S n) = c :: fresh_classes (c + 1) n.
Proof.
  unfold fresh_classes. cbn [seq fmap list_fmap]. f_equal; [lia|].
  rewrite <- fmap_S_seq, <- list_fmap_compose.
  apply list_fmap_ext. intros i x _. simpl. lia.
Qed.

(** The loop of [_add_array_corr] from a state in which [name] is recorded
    with [l]. *)
Lemma add_array_corr_loop (name : string) (idx : list nat) :
  ∀ (s : state) (l : list Z),
  array_shape_classes s !! name = Some l →
  for_each idx (λ _,
    new_class <- _get_next_class ;;
    s <- get ;;
    l <- dict_get (array_shape_classes s) name ;;
    modify (set_array_shape_classes <[name := l ++ [new_class]]>)) s
  = Ok tt
      (mkState (typemap s) (calltypes s)
         (next_eq_class s + Z.of_nat (length idx))
         (<[name := l ++ fresh_classes (next_eq_class s) (length idx)]>
            (array_shape_classes s))
         (class_sizes s) (array_size_vars s) (numpy_globals s) (map_calls s)
         (numpy_calls s) (array_attr_calls s) (tuple_table s)
         (unique_var_count s) (printed s)).
Proof.
  induction idx as [|i idx IH]; intros s l Hl.
  { simpl. unfold ret. f_equal. destruct s. simpl in *. f_equal; [lia|].
    unfold fresh_classes. simpl. rewrite app_nil_r.
    by rewrite insert_id. }
  cbn [for_each]. erewrite bind_ok.
  2:{ erewrite bind_ok; [|apply get_next_class_ok].
      erewrite bind_ok; [|reflexivity].
      erewrite bind_ok; [|by apply dict_get_ok]. reflexivity. }
  rewrite (IH _ (l ++ [next_eq_class s])) by (simpl; apply lookup_insert_eq).
  simpl. f_equal. f_equal; [lia|].
  rewrite insert_insert_eq, fresh_classes_S, <- app_assoc. done.
Qed.

(** X13.  The parameter rule: for a parameter typed as an array of rank
    [n] that has no recorded shape yet, the rule records and returns [n]
    consecutive classes starting at the class counter and advances the
    counter by [n], touching nothing else.  A parameter that already has a
    recorded shape, or one that is not typed as an array, raises
    [AssertionError]. *)
Theorem parameter_rule (cfg : config) (s : state) (name : string) :
  (∀ n, typemap s !! name = Some (TArray n) →
        array_shape_classes s !! name = None →
        _analyze_rhs_classes cfg (Arg name) s
        = Ok (fresh_classes (next_eq_class s) n) (with_parameter name n s))
  ∧ (∀ n, typemap s !! name = Some (TArray n) →
          is_Some (array_shape_classes s !! name) →
          _analyze_rhs_classes cfg (Arg name) s = Err AssertionError)
  ∧ (∀ t, typemap s !! name = Some t → is_array_ty t = false →
          _analyze_rhs_classes cfg (Arg name) s = Err AssertionError).
Proof.
  split; [|split].
  - intros n Hty Hnew. simpl.
    erewrite bind_ok; [|unfold _isarray; munfold; by rewrite Hty].
    erewrite bind_ok; [|reflexivity].
    unfold _add_array_corr.
    erewrite bind_ok; [|reflexivity].
    erewrite bind_ok; [|by rewrite bool_decide_eq_true_2].
    erewrite bind_ok; [|reflexivity].
    erewrite bind_ok; [|reflexivity].
    erewrite bind_ok; [|by apply dict_get_ok].
    erewrite bind_ok; [|reflexivity].
    erewrite bind_ok;
      [|apply (add_array_corr_loop name _ _ []); simpl; apply lookup_insert_eq].
    erewrite bind_ok; [|reflexivity].
    unfold dict_get. simpl. rewrite lookup_insert_eq.
    unfold ret, with_parameter, range. rewrite length_seq.
    by rewrite insert_insert_eq.
  - intros n Hty [l Hl]. simpl.
    erewrite bind_ok; [|unfold _isarray; munfold; by rewrite Hty].
    erewrite bind_ok; [|reflexivity].
    unfold _add_array_corr.
    erewrite bind_ok; [|reflexivity].
    unfold bind. rewrite bool_decide_eq_false_2; [done|]. by rewrite Hl.
  - intros t Hty Ht. simpl.
    erewrite bind_ok; [|unfold _isarray; munfold; by rewrite Hty].
    by rewrite Ht.
Qed.

(** * Globals without a name *)

Lemma nameless_global_inst (cfg : config) (nm lhs : string) (g : glob)
    (s : state) :
  g_name g = None →
  _analyze_inst cfg (Assign (Global nm g) lhs) s = Err AttributeError.
Proof.
  intros Hg. simpl. unfold _analyze_assign. simpl record_tables.
  rewrite Hg. unfold bind. by destruct (g_is_ufunc g).
Qed.

Lemma nameless_global_block (cfg : config) (nm lhs : string) (g : glob)
    (body : list inst) :
  g_name g = None → Assign (Global nm g) lhs ∈ body →
  ∀ acc s, ∃ e, block_loop cfg body acc s = Err e.
Proof.
  intros Hg. induction body as [|i body IH]; intros Hin acc s.
  { by apply elem_of_nil in Hin. }
  cbn [block_loop]. unfold bind.
  destruct (_analyze_inst cfg i s) as [gen s1|e] eqn:Hi; [|by exists e].
  apply elem_of_cons in Hin as [<-|Hin]; [|by apply IH].
  by rewrite nameless_global_inst in Hi.
Qed.

(** X14.  A global whose value has no [__name__] stops the pass: a run
    over blocks of which one contains an assignment of such a global never
    returns, whatever else the function contains and whatever the state. *)
Theorem nameless_global_stops_run (cfg : config)
    (blocks : list (Z * list inst)) (key : Z) (body : list inst)
    (nm lhs : string) (g : glob) (s : state) :
  (key, body) ∈ blocks → Assign (Global nm g) lhs ∈ body →
  g_name g = None →
  ∃ e, run cfg blocks s = Err e.
Proof.
  intros Hblock Hin Hg. revert s.
  induction blocks as [|[key0 body0] blocks IH]; intros s.
  { by apply elem_of_nil in Hblock. }
  cbn [run]. unfold bind.
  destruct (_analyze_block cfg body0 s) as [out s1|e] eqn:Hb; [|by exists e].
  apply elem_of_cons in Hblock as [[= <- <-]|Hblock].
  - destruct (nameless_global_block cfg nm lhs g body Hg Hin [] s) as [e He].
    unfold _analyze_block in Hb. by rewrite He in Hb.
  - destruct (IH Hblock s1) as [e ->]. by exists e.
Qed.

(** * The frame of shape inference *)

Create HintDb frame discriminated.

Ltac sf_state :=
  match goal with
  | H : same_frame _ _ |- same_frame _ _ => exact H
  end.

Ltac sf := repeat first [ solve [auto with frame] | pres_step ]; try sf_state.

Section Frame.
Context (s0 : state).

Lemma sf_isarray (a : string) : preserves (same_frame s0) (_isarray a).
Proof. unfold _isarray. sf. Qed.

Lemma sf_get_next_class : preserves (same_frame s0) _get_next_class.
Proof. unfold _get_next_class. sf. Qed.

Lemma sf_get_ndims (a : string) : preserves (same_frame s0) (_get_ndims a).
Proof. unfold _get_ndims. sf. Qed.

Lemma sf_shape_of (a : string) : preserves (same_frame s0) (shape_of a).
Proof. unfold shape_of. sf. Qed.

Lemma sf_arg_name (a : callarg) : preserves (same_frame s0) (arg_name a).
Proof. unfold arg_name. sf. Qed.

Lemma sf_print (d : diag) : preserves (same_frame s0) (print d).
Proof. unfold print. sf. Qed.

Lemma sf_py_max (l : list nat) : preserves (same_frame s0) (py_max l).
Proof. unfold py_max. sf. Qed.

Hint Resolve sf_isarray sf_get_next_class sf_get_ndims sf_shape_of
  sf_arg_name sf_print sf_py_max : frame.

Lemma sf_merge_classes (c1 c2 : Z) :
  preserves (same_frame s0) (_merge_classes c1 c2).
Proof. unfold _merge_classes. sf. Qed.

Lemma sf_add_array_corr (a : string) :
  preserves (same_frame s0) (_add_array_corr a).
Proof. unfold _add_array_corr. sf. Qed.

Hint Resolve sf_merge_classes sf_add_array_corr : frame.

Lemma sf_classes_from_tuple (shape_arg : string) (idx : list nat)
    (out_eqs : list Z) :
  preserves (same_frame s0) (classes_from_tuple shape_arg idx out_eqs).
Proof.
  revert out_eqs. induction idx as [|i idx IH]; intros out_eqs; simpl; sf.
Qed.

Hint Resolve sf_classes_from_tuple : frame.

Lemma sf_get_classes_from_shape (shape_arg : string) :
  preserves (same_frame s0) (_get_classes_from_shape shape_arg).
Proof. unfold _get_classes_from_shape. sf. Qed.

Lemma sf_match_dim (i : nat) (es : list (list Z)) (c : Z) :
  preserves (same_frame s0) (match_dim i es c).
Proof. revert c. induction es as [|e es IH]; intros c; simpl; sf. Qed.

Hint Resolve sf_get_classes_from_shape sf_match_dim : frame.

Lemma sf_match_dims (idx : list nat) (eqs : list (list Z))
    (out_eq : list Z) :
  preserves (same_frame s0) (match_dims idx eqs out_eq).
Proof.
  revert out_eq. induction idx as [|i idx IH]; intros out_eq; simpl; sf.
Qed.

Hint Resolve sf_match_dims : frame.

Lemma sf_broadcast (args : list string) :
  preserves (same_frame s0) (_broadcast_and_match_shapes args).
Proof. unfold _broadcast_and_match_shapes. sf. Qed.

Hint Resolve sf_broadcast : frame.

Lemma sf_analyze_np_call (cfg : config) (call_name : string)
    (args : list callarg) :
  preserves (same_frame s0) (_analyze_np_call cfg call_name args).
Proof. unfold _analyze_np_call. sf. Qed.

Hint Resolve sf_analyze_np_call : frame.

Lemma sf_analyze_rhs_classes (cfg : config) (nd : node) :
  preserves (same_frame s0) (_analyze_rhs_classes cfg nd).
Proof. unfold _analyze_rhs_classes. sf. Qed.

End Frame.

Lemma same_frame_refl (s : state) : same_frame s s.
Proof. by repeat split. Qed.

(** X15.  Shape inference of a right-hand side, whichever rule applies and
    whatever it merges or allocates, touches only the class counter, the
    two class tables and the diagnostics: the type map, the call types, the
    size-variable table, the four registries and the name counter are the
    same afterwards. *)
Theorem rhs_analysis_frame (cfg : config) (nd : node) (s s' : state)
    (r : list Z) :
  _analyze_rhs_classes cfg nd s = Ok r s' → same_frame s s'.
Proof.
  intros Hrun.
  by apply (sf_analyze_rhs_classes s cfg nd s r s' (same_frame_refl s)).
Qed.

(** * Size variables and ranks *)

Create HintDb sizes discriminated.

Ltac sm_state :=
  match goal with
  | H : sizes_match _ |- sizes_match _ => exact H
  end.

Ltac sm := repeat first [ solve [auto with sizes] | pres_step ]; try sm_state.

Lemma sm_isarray (a : string) : preserves sizes_match (_isarray a).
Proof. unfold _isarray. sm. Qed.

Lemma sm_get_ndims (a : string) : preserves sizes_match (_get_ndims a).
Proof. unfold _get_ndims. sm. Qed.

Lemma sm_print (d : diag) : preserves sizes_match (print d).
Proof. unfold print. sm. Qed.

#[local] Hint Resolve sm_isarray sm_get_ndims sm_print : sizes.

Lemma sm_gen_size_call (cfg : config) (var : string) (i : nat) :
  preserves sizes_match (_gen_size_call cfg var i).
Proof. unfold _gen_size_call, mk_unique_var. sm. Qed.

Lemma sm_record_tables (lhs : string) (rhs : node) :
  preserves sizes_match (record_tables lhs rhs).
Proof. unfold record_tables. sm. Qed.

Lemma sm_set_size_var (lhs : string) (i : nat) (x : sizeval) :
  preserves sizes_match (set_size_var lhs i x).
Proof.
  intros s u s' HP Hrun. unfold set_size_var in Hrun.
  apply bind_inv in Hrun as (s0 & sx & [= <- <-] & Hrun).
  apply bind_inv in Hrun as (l & sx & Hl & Hrun).
  apply dict_get_inv in Hl as [-> Hl].
  destruct (decide (i < length l)%nat); [|done].
  injection Hrun as <- <-. intros v sizes. unfold has_rank. simpl.
  destruct (decide (lhs = v)) as [<-|Hne].
  - rewrite lookup_insert_eq. intros [= <-]. rewrite length_insert.
    by apply HP.
  - rewrite lookup_insert_ne by done. apply HP.
Qed.

Lemma sm_analyze_rhs_classes (cfg : config) (nd : node) :
  preserves sizes_match (_analyze_rhs_classes cfg nd).
Proof.
  intros s r s' HP Hrun v sizes Hv.
  destruct (sf_analyze_rhs_classes s cfg nd s r s' (same_frame_refl s) Hrun)
    as (_ & _ & Hsv & _).
  rewrite Hsv in Hv.
  eapply rk_analyze_rhs_classes; [|exact Hrun]. by apply HP.
Qed.

#[local] Hint Resolve sm_gen_size_call sm_record_tables sm_set_size_var
  sm_analyze_rhs_classes : sizes.

Lemma sm_size_loop (cfg : config) (lhs : string) (corrs : list Z) :
  ∀ (i : nat) (acc : list inst),
    preserves sizes_match (size_loop cfg lhs i corrs acc).
Proof.
  induction corrs as [|corr corrs IH]; intros i acc; cbn [size_loop]; sm.
Qed.

Lemma sm_analyze_assign (cfg : config) (rhs : node) (lhs : string) :
  preserves sizes_match (_analyze_assign cfg rhs lhs).
Proof.
  intros s r s' HP Hrun. pose proof Hrun as Hrun0.
  unfold _analyze_assign in Hrun.
  apply bind_inv in Hrun as ([] & s1 & Hrec & Hrun).
  pose proof (sm_record_tables _ _ _ _ _ HP Hrec) as HP1.
  apply bind_inv in Hrun as (b & s1' & Harr & Hrun).
  apply isarray_inv in Harr as [-> Hty].
  destruct b; [|by injection Hrun as _ <-].
  apply bind_inv in Hrun as (corrs & s2 & Hrhs & _).
  pose proof (sm_analyze_rhs_classes _ _ _ _ _ HP1 Hrhs) as HP2.
  rewrite (analyze_assign_array cfg rhs lhs s s1 s2 corrs) in Hrun0 by done.
  assert (sizes_match (start_sizes lhs corrs s2)) as Hstart.
  { intros v sizes. unfold start_sizes, has_rank. simpl.
    destruct (decide (lhs = v)) as [<-|Hne].
    - rewrite !lookup_insert_eq. intros [= <-]. exists corrs.
      by rewrite length_replicate.
    - rewrite !lookup_insert_ne by done. apply HP2. }
  destruct (array_shape_classes s2 !! lhs) as [old|];
    [|by eapply sm_size_loop].
  destruct (decide (old = corrs)); [by eapply sm_size_loop|].
  injection Hrun0 as _ <-.
  intros v sizes. unfold downgraded, has_rank. simpl.
  destruct (decide (lhs = v)) as [<-|Hne].
  - by rewrite lookup_delete_eq.
  - rewrite lookup_delete_ne, lookup_insert_ne by done. apply HP2.
Qed.

Lemma sm_block_loop (cfg : config) (body : list inst) :
  ∀ acc, preserves sizes_match (block_loop cfg body acc).
Proof.
  induction body as [|i body IH]; intros acc; simpl; [sm|].
  apply preserves_bind; [|intros g; apply IH].
  destruct i; simpl; [apply sm_analyze_assign|sm].
Qed.

Lemma sm_run (cfg : config) (blocks : list (Z * list inst)) :
  preserves sizes_match (run cfg blocks).
Proof.
  induction blocks as [|[key body] blocks IH]; simpl; [sm|].
  apply preserves_bind; [apply sm_block_loop|]. intros body'.
  apply preserves_bind; [exact IH|]. intros rest'. sm.
Qed.

(** X16.  Size variables follow the recorded shapes: after a run from the
    initial state, every variable with a list of size variables has a
    recorded shape vector, and the two have the same length; a conflict,
    which resets the shape, drops the list. *)
Theorem size_vars_match_rank (cfg : config) (tm : gmap string ty)
    (ct : list expr) (uniq : nat) (blocks out : list (Z * list inst))
    (s' : state) (v : string) (sizes : list sizeval) :
  run cfg blocks (init tm ct uniq) = Ok out s' →
  array_size_vars s' !! v = Some sizes →
  ∃ l, array_shape_classes s' !! v = Some l ∧ length l = length sizes.
Proof.
  intros Hrun.
  assert (sizes_match (init tm ct uniq)) as Hinit by (by intros v0 sizes0).
  exact (sm_run cfg blocks _ _ _ Hinit Hrun v sizes).
Qed.

(** * Counting the size calls *)

Lemma counted_refl (s : state) : counted 0 s s.
Proof. unfold counted. lia. Qed.

Lemma counted_trans (k1 k2 : nat) (s1 s2 s3 : state) :
  counted k1 s1 s2 → counted k2 s2 s3 → counted (k1 + k2) s1 s3.
Proof. unfold counted. lia. Qed.

Lemma same_counters_counted (s s' : state) :
  same_counters s s' → counted 0 s s'.
Proof. intros [Hu Hc]. unfold counted. rewrite Hu, Hc. lia. Qed.

Ltac cnt_state :=
  match goal with
  | H : same_counters _ _ |- same_counters _ _ => exact H
  end.

Lemma cnt_record_tables (s0 : state) (lhs : string) (rhs : node) :
  preserves (same_counters s0) (record_tables lhs rhs).
Proof.
  unfold record_tables, _isarray. repeat pres_step; cnt_state.
Qed.

Lemma cnt_set_size_var (s0 : state) (lhs : string) (i : nat) (x : sizeval) :
  preserves (same_counters s0) (set_size_var lhs i x).
Proof. unfold set_size_var. repeat pres_step; cnt_state. Qed.

Lemma gen_size_call_inv (cfg : config) (lhs : string) (i : nat)
    (s s1 : state) (nodes : list inst) :
  _gen_size_call cfg lhs i s = Ok nodes s1 →
  ∃ shp, array_shape_classes s !! lhs = Some shp
    ∧ nodes = size_call_nodes cfg lhs i (unique_var_count s)
    ∧ s1 = after_size_call cfg lhs i (length shp) s.
Proof.
  intros Hrun. pose proof Hrun as Hrun0. unfold _gen_size_call in Hrun.
  apply bind_inv in Hrun as (n & sx & Hn & _).
  apply get_ndims_inv in Hn as (_ & shp & Hshp & _).
  rewrite (gen_size_call_ok _ _ _ _ _ Hshp) in Hrun0.
  injection Hrun0 as <- <-. by exists shp.
Qed.

Lemma cnt_size_loop (cfg : config) (lhs : string) (corrs : list Z) :
  ∀ (i : nat) (acc : list inst) (s : state) (r : list inst) (s' : state),
  size_loop cfg lhs i corrs acc s = Ok r s' →
  ∃ k, length r = (length acc + 3 * k)%nat ∧ counted k s s'.
Proof.
  induction corrs as [|corr corrs IH]; intros i acc s r s'.
  { simpl. intros [= <- <-]. exists 0%nat. split; [lia|apply counted_refl]. }
  cbn [size_loop]. intros Hrun.
  apply bind_inv in Hrun as (s0 & sx & [= <- <-] & Hrun).
  destruct (bool_decide (corr = -1)
            || bool_decide (class_sizes s !! corr = None)).
  - apply bind_inv in Hrun as (nodes & s1 & Hgen & Hrun).
    apply gen_size_call_inv in Hgen as (shp & _ & -> & ->).
    apply bind_inv in Hrun as (last & sx & Hlast & Hrun).
    apply py_index_inv in Hlast as [-> _].
    apply bind_inv in Hrun as (size_var & sx & Hsv & Hrun).
    assert (sx = after_size_call cfg lhs i (length shp) s) as ->.
    { destruct last; [by injection Hsv as _ <-|done]. }
    apply bind_inv in Hrun as ([] & s2 & Hrec & Hrun).
    assert (same_counters (after_size_call cfg lhs i (length shp) s) s2)
      as Hs2.
    { destruct (bool_decide (corr = -1)); by injection Hrec as <-. }
    apply bind_inv in Hrun as ([] & s3 & Hset & Hrun).
    pose proof (cnt_set_size_var _ _ _ _ _ _ _ Hs2 Hset) as [Hu Hc].
    apply IH in Hrun as (k & Hlen & Hk1 & Hk2).
    exists (S k). rewrite Hlen, length_app. simpl. split; [lia|].
    unfold counted. rewrite Hk1, Hk2, Hu, Hc. simpl.
    rewrite length_app. simpl. lia.
  - apply bind_inv in Hrun as (l & sx & Hl & Hrun).
    apply dict_get_inv in Hl as [-> _].
    apply bind_inv in Hrun as (x & sx & Hx & Hrun).
    apply py_index_inv in Hx as [-> _].
    apply bind_inv in Hrun as ([] & s3 & Hset & Hrun).
    pose proof (cnt_set_size_var s _ _ _ _ _ _ (conj eq_refl eq_refl) Hset)
      as [Hu Hc].
    apply IH in Hrun as (k & Hlen & Hk1 & Hk2).
    exists k. split; [done|]. unfold counted. rewrite Hk1, Hk2, Hu, Hc. lia.
Qed.

Lemma cnt_analyze_assign (cfg : config) (rhs : node) (lhs : string)
    (s s' : state) (r : list inst) :
  _analyze_assign cfg rhs lhs s = Ok r s' →
  ∃ k, length r = (3 * k)%nat ∧ counted k s s'.
Proof.
  intros Hrun. pose proof Hrun as Hrun0.
  unfold _analyze_assign in Hrun.
  apply bind_inv in Hrun as ([] & s1 & Hrec & Hrun).
  pose proof (cnt_record_tables s _ _ _ _ _ (conj eq_refl eq_refl) Hrec)
    as [Hu1 Hc1].
  apply bind_inv in Hrun as (b & s1' & Harr & Hrun).
  apply isarray_inv in Harr as [-> Hty].
  destruct b.
  2:{ injection Hrun as <- <-. exists 0%nat. split; [done|].
      unfold counted. rewrite Hu1, Hc1. lia. }
  apply bind_inv in Hrun as (corrs & s2 & Hrhs & _).
  destruct (sf_analyze_rhs_classes s1 cfg rhs s1 corrs s2
              (same_frame_refl s1) Hrhs)
    as (_ & Hc2 & _ & _ & _ & _ & _ & _ & Hu2).
  rewrite (analyze_assign_array cfg rhs lhs s s1 s2 corrs) in Hrun0 by done.
  assert (size_loop cfg lhs 0 corrs [] (start_sizes lhs corrs s2) = Ok r s' →
          ∃ k, length r = (3 * k)%nat ∧ counted k s s') as Hloop.
  { intros (k & Hlen & Hk1 & Hk2)%cnt_size_loop. exists k.
    split; [done|]. unfold counted. rewrite Hk1, Hk2. simpl.
    rewrite Hu2, Hc2, Hu1, Hc1. lia. }
  destruct (array_shape_classes s2 !! lhs) as [old|]; [|by apply Hloop].
  destruct (decide (old = corrs)); [by apply Hloop|].
  injection Hrun0 as <- <-. exists 0%nat. split; [done|].
  unfold counted. simpl. rewrite Hu2, Hc2, Hu1, Hc1. lia.
Qed.

Lemma cnt_block_loop (cfg : config) (body : list inst) :
  ∀ (acc : list inst) (s : state) (r : list inst) (s' : state),
  block_loop cfg body acc s = Ok r s' →
  ∃ k, length r = (length acc + length body + 3 * k)%nat ∧ counted k s s'.
Proof.
  induction body as [|i body IH]; intros acc s r s'.
  { simpl. intros [= <- <-]. exists 0%nat. split; [lia|apply counted_refl]. }
  simpl. intros Hrun.
  apply bind_inv in Hrun as (g & s1 & Hi & Hrun).
  assert (∃ k, length g = (3 * k)%nat ∧ counted k s s1) as (k1 & Hg & Hk1).
  { destruct i; simpl in Hi; [by eapply cnt_analyze_assign|].
    injection Hi as <- <-. exists 0%nat. split; [done|apply counted_refl]. }
  apply IH in Hrun as (k2 & Hlen & Hk2).
  exists (k1 + k2)%nat. split; [|by eapply counted_trans].
  rewrite Hlen, !length_app, Hg. simpl. lia.
Qed.

(** X17.  The pass only ever adds size calls, and it accounts for each of
    them: when a run returns, the function has grown by three instructions
    for each of some number [k] of size calls, the name counter has advanced
    by [3 k] and the call types have [k] more entries. *)
Theorem size_calls_are_counted (cfg : config)
    (blocks out : list (Z * list inst)) (s s' : state) :
  run cfg blocks s = Ok out s' →
  ∃ k : nat,
    length (flat_bodies out) = (length (flat_bodies blocks) + 3 * k)%nat
    ∧ unique_var_count s' = (unique_var_count s + 3 * k)%nat
    ∧ length (calltypes s') = (length (calltypes s) + k)%nat.
Proof.
  revert out s s'. induction blocks as [|[key body] blocks IH];
    intros out s s'.
  { simpl. intros [= <- <-]. exists 0%nat. simpl. lia. }
  simpl. intros Hrun.
  apply bind_inv in Hrun as (body' & s1 & Hb & Hrun).
  apply cnt_block_loop in Hb as (k1 & Hlen1 & Hu1 & Hc1).
  apply bind_inv in Hrun as (rest' & s2 & Hr & Hrun).
  injection Hrun as <- <-.
  apply IH in Hr as (k2 & Hlen2 & Hu2 & Hc2).
  exists (k1 + k2)%nat. unfold flat_bodies in *.
  rewrite !fmap_cons, !concat_cons, !length_app. cbn [snd].
  rewrite Hlen1, Hlen2, Hu2, Hc2, Hu1, Hc1. simpl. lia.
Qed.

(** * An operand combined with its transpose *)

(** The broadcast rule on shapes [[c1; c2]] and [[c2; c1]]: the second
    dimension is matched on the copies taken before the first dimension's
    merge, so the two classes are merged twice. *)
Lemma broadcast_transposed (s : state) (a t : string) (c1 c2 : Z) :
  recorded_array s a [c1; c2] → recorded_array s t [c2; c1] →
  c1 ≠ c2 → c1 ≠ 0 → c2 ≠ 0 →
  _broadcast_and_match_shapes [a; t] s
  = Ok [next_eq_class s; next_eq_class s + 1]
       (merged c2 c1 (merged c1 c2 s)).
Proof.
  intros Ha Ht Hne H1 H2.
  destruct (collect_shapes s [a; t] [[c1; c2]; [c2; c1]]) as [Hflags Heqs].
  { constructor; [done|]. constructor; [done|]. constructor. }
  assert (mapM (dim_code [[c1; c2]; [c2; c1]]) (seq 0 2) s
          = Ok [next_eq_class s; next_eq_class s + 1]
               (merged c2 c1 (merged c1 c2 s))) as Hcode.
  { cbn [seq]. eapply mapM_cons_ok.
    { rewrite dim_code_spec by (repeat constructor; simpl; lia).
      change (class_at 0 <$> [[c2; c1]]) with [c2].
      change (class_at 0 [c1; c2]) with c1. simpl.
      rewrite decide_True by done. rewrite decide_False by done.
      erewrite bind_ok; [|by apply merge_ne]. reflexivity. }
    eapply mapM_cons_ok; [|reflexivity].
    rewrite dim_code_spec by (repeat constructor; simpl; lia).
    change (class_at 1 <$> [[c2; c1]]) with [c1].
    change (class_at 1 [c1; c2]) with c2. simpl.
    rewrite decide_True by done. rewrite decide_False by done.
    erewrite bind_ok; [|by apply merge_ne]. reflexivity. }
  unfold _broadcast_and_match_shapes.
  erewrite bind_ok; [|exact Hflags].
  erewrite bind_ok; [|done].
  erewrite bind_ok; [|exact Heqs].
  erewrite (bind_ok _ _ _ 2%nat); [|reflexivity].
  cbv zeta. unfold range.
  change (pad_front 2 <$> [[c1; c2]; [c2; c1]]) with [[c1; c2]; [c2; c1]].
  rewrite (match_dims_mapM [[c1; c2]; [c2; c1]] 2 0 (replicate 2 (-1))
             [next_eq_class s; next_eq_class s + 1] s
             (merged c2 c1 (merged c1 c2 s)));
    [done|simpl; lia|exact Hcode].
Qed.

Lemma merged_sizes_entry (c1 c2 : Z) (s : state) :
  class_sizes (merged c1 c2 s) !! next_eq_class s
  = Some (sizes_of s c1 ++ sizes_of s c2).
Proof. unfold merged. simpl. apply lookup_insert_eq. Qed.

(** X18.  An operand combined with its transpose.  For a rank-2 array [a]
    with two different classes and a variable [t] recorded with the
    reversed shape, the broadcast rule merges the two classes at the first
    dimension and then, reading the copies it took before that merge,
    merges them once more at the second: the second result is a class whose
    class-size entry is the empty list.  The assignment [lhs = a op t] to a
    fresh array variable therefore raises [IndexError] in the size loop. *)
Theorem transposed_operand_aborts (cfg : config) (s : state)
    (op a t lhs : string) (c1 c2 : Z) :
  op ∈ BINARY_MAP_OP cfg →
  recorded_array s a [c1; c2] → recorded_array s t [c2; c1] →
  c1 ≠ c2 → c1 ≠ 0 → c2 ≠ 0 →
  0 < next_eq_class s → c1 < next_eq_class s → c2 < next_eq_class s →
  is_array_ty <$> typemap s !! lhs = Some true →
  array_shape_classes s !! lhs = None →
  (∃ s', _broadcast_and_match_shapes [a; t] s
         = Ok [next_eq_class s; next_eq_class s + 1] s'
         ∧ class_sizes s' !! (next_eq_class s + 1) = Some []
         ∧ array_shape_classes s' !! a
           = Some [next_eq_class s; next_eq_class s])
  ∧ _analyze_assign cfg (Expr (EBinop op a t)) lhs s = Err IndexError.
Proof.
  intros Hop Ha Ht Hne H1 H2 Hpos Hc1 Hc2 Hty Hnew.
  set (n := next_eq_class s).
  set (s1 := merged c1 c2 s). set (s2 := merged c2 c1 s1).
  assert (sizes_of s1 c1 = [] ∧ sizes_of s1 c2 = []) as [E1 E2].
  { unfold sizes_of, s1. split.
    - rewrite merged_sizes_old; [done|by left|unfold n in *; lia].
    - rewrite merged_sizes_old; [done|by right|unfold n in *; lia]. }
  assert (class_sizes s2 !! (n + 1) = Some []) as Hempty.
  { unfold s2. change (n + 1) with (next_eq_class s1).
    by rewrite merged_sizes_entry, E1, E2. }
  assert (class_sizes s2 !! n = Some (sizes_of s c1 ++ sizes_of s c2))
    as Hfirst.
  { unfold s2. rewrite merged_sizes_other
      by (unfold s1, merged; simpl; unfold n in *; lia).
    apply merged_sizes_entry. }
  split.
  - exists s2. split; [by apply broadcast_transposed|]. split; [done|].
    unfold s2. rewrite merged_shape. unfold s1. rewrite merged_shape.
    rewrite (proj2 Ha). simpl.
    rewrite (rename_class_hit c1 c2 _ c1) by (by left).
    rewrite (rename_class_hit c1 c2 _ c2) by (by right).
    by rewrite !rename_class_miss by (unfold n in *; lia).
  - rewrite (analyze_assign_array cfg _ lhs s s s2 [n; n + 1]).
    2:{ reflexivity. }
    2:{ done. }
    2:{ simpl. rewrite bool_decide_eq_true_2 by done.
        by apply broadcast_transposed. }
    assert (array_shape_classes s2 !! lhs = None) as ->.
    { unfold s2. rewrite merged_shape. unfold s1. rewrite merged_shape.
      by rewrite Hnew. }
    erewrite (size_loop_reuse cfg lhs 0 n);
      [|unfold n in *; lia|exact Hfirst|apply lookup_insert_eq|simpl; lia].
    destruct (sizes_of s c1 ++ sizes_of s c2) as [|x reps]; [done|].
    erewrite (size_loop_reuse cfg lhs 1 (n + 1));
      [|unfold n in *; lia|exact Hempty|apply lookup_insert_eq|simpl; lia].
    done.
Qed.

(** ** Instances on the sample programs *)

(** Settles a decidable side condition on concrete data by evaluation. *)
Ltac decided := refine (bool_decide_unpack _ _); vm_compute; exact I.

Lemma recorded_rank_is_kept_witness :
  ∃ l',
    array_shape_classes
      (state_after
         (run sample_config [(12, [conflict_product; Assign (Var "w") "v"])]
            product_state)
         product_state) !! "v" = Some l'
    ∧ length l' = length [1; 2].
Proof.
  apply (recorded_rank_is_kept sample_config "v" [1; 2]
           [(12, [conflict_product; Assign (Var "w") "v"])]
           (value_after
              (run sample_config
                 [(12, [conflict_product; Assign (Var "w") "v"])]
                 product_state) [])
           product_state).
  - vm_compute. reflexivity.
  - vm_compute. reflexivity.
Defined.

Lemma classes_in_use_are_allocated_witness :
  1 ≤ next_eq_class
        (state_after (run sample_config conflict_blocks
                        (init conflict_types [] 0))
                     (init conflict_types [] 0))
  ∧ (∀ v l c,
       array_shape_classes
         (state_after (run sample_config conflict_blocks
                         (init conflict_types [] 0))
                      (init conflict_types [] 0)) !! v = Some l →
       c ∈ l →
       c = -1
       ∨ 0 < c < next_eq_class
                  (state_after (run sample_config conflict_blocks
                                  (init conflict_types [] 0))
                               (init conflict_types [] 0)))
  ∧ (∀ c,
       is_Some (class_sizes
                  (state_after (run sample_config conflict_blocks
                                  (init conflict_types [] 0))
                               (init conflict_types [] 0)) !! c) →
       0 ≤ c < next_eq_class
                 (state_after (run sample_config conflict_blocks
                                 (init conflict_types [] 0))
                              (init conflict_types [] 0))).
Proof.
  apply (classes_in_use_are_allocated sample_config conflict_types [] 0
           conflict_blocks
           (value_after (run sample_config conflict_blocks
                           (init conflict_types [] 0)) [])).
  vm_compute. reflexivity.
Defined.

Lemma class_zero_is_reserved_witness :
  class_sizes
    (state_after
       (run sample_config
          [(0, unknown_operand_prefix); (7, [unknown_operand_sum])]
          (init unknown_operand_types [] 0))
       (init unknown_operand_types [] 0)) !! 0 = Some [SConst (KInt 1)]
  ∧ ∀ v l,
      array_shape_classes
        (state_after
           (run sample_config
              [(0, unknown_operand_prefix); (7, [unknown_operand_sum])]
              (init unknown_operand_types [] 0))
           (init unknown_operand_types [] 0)) !! v = Some l →
      0 ∉ l.
Proof.
  apply (class_zero_is_reserved sample_config unknown_operand_types [] 0
           [(0, unknown_operand_prefix); (7, [unknown_operand_sum])]
           (value_after
              (run sample_config
                 [(0, unknown_operand_prefix); (7, [unknown_operand_sum])]
                 (init unknown_operand_types [] 0)) [])).
  vm_compute. reflexivity.
Defined.

Lemma method_call_receiver_witness :
  ("transpose" ∈ first_argument_rules →
     _analyze_rhs_classes sample_config (Expr (ECall "t" [])) method_state
     = Err AttributeError)
  ∧ ("transpose" = "dot" →
     _analyze_rhs_classes sample_config (Expr (ECall "t" [])) method_state
     = Err (if decide (length (@nil string) = 1 ∨ length (@nil string) = 2)%nat
            then AttributeError else AssertionError))
  ∧ ("transpose" ∈ UFUNC_MAP_OP sample_config → "transpose" ∉ named_rules →
     "transpose" ≠ "NULL" →
     _analyze_rhs_classes sample_config (Expr (ECall "t" [])) method_state
     = Err AttributeError)
  ∧ ("transpose" = "reshape" →
     _analyze_rhs_classes sample_config (Expr (ECall "t" [])) method_state
     = (shape_arg <- py_index [] 0 ;; _get_classes_from_shape shape_arg)
         method_state).
Proof.
  apply (method_call_receiver sample_config method_state "t" [] "transpose"
           "a").
  - decided.
  - vm_compute. reflexivity.
  - vm_compute. reflexivity.
Defined.

Lemma numpy_function_dispatch_witness :
  _analyze_block sample_config
    [ Assign (Global "np" numpy_module) "np";
      Assign (Expr (EGetattr "np" "cumsum")) "f" ]
    (init unknown_operand_types [] 0)
  = Ok [ Assign (Global "np" numpy_module) "np";
         Assign (Expr (EGetattr "np" "cumsum")) "f" ]
       (after_numpy_lookup "np" "f" "cumsum"
          (init unknown_operand_types [] 0))
  ∧ ∀ args,
      _analyze_rhs_classes sample_config (Expr (ECall "f" args))
        (after_numpy_lookup "np" "f" "cumsum"
           (init unknown_operand_types [] 0))
      = _analyze_np_call sample_config "cumsum" (AVar <$> args)
          (after_numpy_lookup "np" "f" "cumsum"
             (init unknown_operand_types [] 0)).
Proof.
  apply (numpy_function_dispatch sample_config
           (init unknown_operand_types [] 0) "np" "f" "cumsum" "np"
           numpy_module).
  - reflexivity.
  - reflexivity.
  - vm_compute. reflexivity.
  - vm_compute. reflexivity.
  - decided.
  - decided.
Defined.

Lemma ufunc_global_call_witness :
  ∃ s1,
    _analyze_assign sample_config (Global "add" ufunc_global) "f"
      (init unknown_operand_types [] 0) = Ok [] s1
    ∧ map_calls s1 = map_calls (init unknown_operand_types [] 0) ++ ["f"]
    ∧ same_core (init unknown_operand_types [] 0) s1
    ∧ (∀ a rest l,
         array_shape_classes (init unknown_operand_types [] 0) !! a = Some l →
         _analyze_rhs_classes sample_config (Expr (ECall "f" (a :: rest))) s1
         = Ok l s1)
    ∧ _analyze_rhs_classes sample_config (Expr (ECall "f" [])) s1
      = Err IndexError.
Proof.
  apply (ufunc_global_call sample_config (init unknown_operand_types [] 0)
           "f" "add" ufunc_global).
  - reflexivity.
  - simpl. eexists. reflexivity.
  - vm_compute. reflexivity.
Defined.

Lemma broadcast_shared_classes_witness :
  _broadcast_and_match_shapes ["p"; "v"] product_state
  = Ok [1; 2] product_state.
Proof.
  apply (broadcast_shared_classes product_state ["p"; "v"] [[1; 2]; [1; 2]]
           [1; 2]).
  - repeat constructor; vm_compute; reflexivity.
  - decided.
  - repeat constructor; by exists [].
Defined.

Lemma nameless_global_stops_run_witness :
  ∃ e, run sample_config constant_global_blocks
         (init unknown_operand_types [] 0) = Err e.
Proof.
  apply (nameless_global_stops_run sample_config constant_global_blocks 5
           [ Assign (Global "N" {| g_is_ufunc := false; g_name := None |})
               "n" ]
           "N" "n" {| g_is_ufunc := false; g_name := None |}
           (init unknown_operand_types [] 0)).
  - apply list_elem_of_further, list_elem_of_here.
  - apply list_elem_of_here.
  - reflexivity.
Defined.

Lemma rhs_analysis_frame_witness :
  same_frame product_state
    (state_after
       (_analyze_rhs_classes sample_config (Expr (ECall "d" ["p"; "u"]))
          product_state)
       product_state).
Proof.
  apply (rhs_analysis_frame sample_config (Expr (ECall "d" ["p"; "u"]))
           product_state _
           (value_after
              (_analyze_rhs_classes sample_config
                 (Expr (ECall "d" ["p"; "u"])) product_state) [])).
  vm_compute. reflexivity.
Defined.

Lemma size_vars_match_rank_witness :
  ∃ l,
    array_shape_classes
      (state_after (run sample_config conflict_blocks
                      (init conflict_types [] 0))
                   (init conflict_types [] 0)) !! "w" = Some l
    ∧ length l
      = length (default []
                  (array_size_vars
                     (state_after (run sample_config conflict_blocks
                                     (init conflict_types [] 0))
                                  (init conflict_types [] 0)) !! "w")).
Proof.
  apply (size_vars_match_rank sample_config conflict_types [] 0
           conflict_blocks
           (value_after (run sample_config conflict_blocks
                           (init conflict_types [] 0)) [])).
  - vm_compute. reflexivity.
  - vm_compute. reflexivity.
Defined.

Lemma size_calls_are_counted_witness :
  ∃ k : nat,
    length (flat_bodies
              (value_after (run sample_config conflict_blocks
                              (init conflict_types [] 0)) []))
    = (length (flat_bodies conflict_blocks) + 3 * k)%nat
    ∧ unique_var_count
        (state_after (run sample_config conflict_blocks
                        (init conflict_types [] 0))
                     (init conflict_types [] 0))
      = (unique_var_count (init conflict_types [] 0) + 3 * k)%nat
    ∧ length (calltypes
                (state_after (run sample_config conflict_blocks
                                (init conflict_types [] 0))
                             (init conflict_types [] 0)))
      = (length (calltypes (init conflict_types [] 0)) + k)%nat.
Proof.
  apply (size_calls_are_counted sample_config conflict_blocks).
  vm_compute. reflexivity.
Defined.

Lemma transposed_operand_aborts_witness :
  (∃ s',
     _broadcast_and_match_shapes ["a"; "t"] transposed_state
     = Ok [next_eq_class transposed_state;
           next_eq_class transposed_state + 1] s'
     ∧ class_sizes s' !! (next_eq_class transposed_state + 1) = Some []
     ∧ array_shape_classes s' !! "a"
       = Some [next_eq_class transposed_state;
               next_eq_class transposed_state])
  ∧ _analyze_assign sample_config (Expr (EBinop "+" "a" "t")) "s"
      transposed_state = Err IndexError.
Proof.
  apply (transposed_operand_aborts sample_config transposed_state "+" "a"
           "t" "s" 1 2).
  - decided.
  - split; vm_compute; reflexivity.
  - split; vm_compute; reflexivity.
  - lia.
  - lia.
  - lia.
  - vm_compute. reflexivity.
  - vm_compute. reflexivity.
  - vm_compute. reflexivity.
  - vm_compute. reflexivity.
  - vm_compute. reflexivity.
Defined.
